(** * Testpoint viewer: ingestion and identity resolution

    A shallow embedding of the ingestion pipeline of [src/main.py]
    ([ConfigManager.save_testpoint_paths], [ConfigManager.load_testpoint_paths],
    [TestPointViewer.load_testpoints], [load_json_testpoints],
    [load_text_testpoints], [find_related_testpoints], [save_testpoints_data])
    together with the pieces of the Python runtime those functions call:
    [os.path] (the POSIX flavour, [posixpath]), the two regular-expression
    calls [re.match] / [re.sub] with [re.IGNORECASE], text-mode [open] with
    UTF-8 decoding, and the builtin [hash] of strings.  The window, its
    list box and its dialogs are left out: an import returns what the user
    is told.

    Python strings are sequences of code points: [list N].  File contents
    are bytes.  The identifier-to-record dictionary is a [gmap].  The file
    system, the string hash of the running process, [json.loads] and [str]
    on values other than strings are fields of the environment [World]. *)

From Stdlib Require Import ZArith NArith List Ascii String Strings.Byte Lia Bool
  Decimal DecimalN.
From stdpp Require Import gmap list sorting.

Local Open Scope N_scope.
#[local] Set Warnings "-register-all".

(** ** Strings *)

Abbreviation ustring := (list N).

(** An ASCII literal as a Python string. *)
Definition u (s : string) : ustring :=
  map N_of_ascii (list_ascii_of_string s).

Definition chr_slash : N := 47.
Definition chr_dot : N := 46.
Definition chr_newline : N := 10.
Definition chr_cr : N := 13.
Definition chr_underscore : N := 95.

(** [s.rfind(c)]: the highest index of [c] in [s], or [-1]. *)
Fixpoint rfind_from (c : N) (s : ustring) (i : Z) (last : Z) : Z :=
  match s with
  | [] => last
  | x :: s' => rfind_from c s' (i + 1)%Z (if x =? c then i else last)
  end.

Definition rfind (c : N) (s : ustring) : Z := rfind_from c s 0%Z (-1)%Z.

(** Slices [s[:i]] and [s[i:]] for a non-negative index. *)
Definition slice_to (s : ustring) (i : Z) : ustring := take (Z.to_nat i) s.
Definition slice_from (s : ustring) (i : Z) : ustring := drop (Z.to_nat i) s.

(** [s.rstrip(c)] for a one-character argument. *)
Fixpoint lstrip (c : N) (s : ustring) : ustring :=
  match s with
  | [] => []
  | x :: s' => if x =? c then lstrip c s' else s
  end.

Definition rstrip (c : N) (s : ustring) : ustring :=
  rev (lstrip c (rev s)).

(** [str(n)] for a natural number. *)
Definition digit_char (d : N) : N := 48 + d.

Fixpoint uint_chars (d : Decimal.uint) : ustring :=
  match d with
  | Decimal.Nil => []
  | Decimal.D0 d' => digit_char 0 :: uint_chars d'
  | Decimal.D1 d' => digit_char 1 :: uint_chars d'
  | Decimal.D2 d' => digit_char 2 :: uint_chars d'
  | Decimal.D3 d' => digit_char 3 :: uint_chars d'
  | Decimal.D4 d' => digit_char 4 :: uint_chars d'
  | Decimal.D5 d' => digit_char 5 :: uint_chars d'
  | Decimal.D6 d' => digit_char 6 :: uint_chars d'
  | Decimal.D7 d' => digit_char 7 :: uint_chars d'
  | Decimal.D8 d' => digit_char 8 :: uint_chars d'
  | Decimal.D9 d' => digit_char 9 :: uint_chars d'
  end.

Definition str_of_N (n : N) : ustring := uint_chars (N.to_uint n).

(** ** [os.path] (posixpath) *)

Module posixpath.

(** [basename(p)]: [i = p.rfind('/') + 1; return p[i:]]. *)
Definition basename (p : ustring) : ustring :=
  slice_from p (rfind chr_slash p + 1).

(** [dirname(p)]: the head before the last slash, with trailing slashes
    removed unless the head consists of slashes only. *)
Definition dirname (p : ustring) : ustring :=
  let head := slice_to p (rfind chr_slash p + 1) in
  if negb (bool_decide (head = [])) && negb (forallb (fun x => x =? chr_slash) head)
  then rstrip chr_slash head
  else head.

(** [genericpath._splitext(p, '/', None, '.')]. The loop skips leading dots
    of the file name: the split happens at the last dot only when some
    character between the last slash and that dot is not a dot. *)
Fixpoint has_non_dot (s : ustring) : bool :=
  match s with
  | [] => false
  | x :: s' => if negb (x =? chr_dot) then true else has_non_dot s'
  end.

Definition splitext (p : ustring) : ustring * ustring :=
  let sepIndex := rfind chr_slash p in
  let dotIndex := rfind chr_dot p in
  if (sepIndex <? dotIndex)%Z
     && has_non_dot (slice_from (slice_to p dotIndex) (sepIndex + 1))
  then (slice_to p dotIndex, slice_from p dotIndex)
  else (p, []).

(** [p.split('/')]. *)
Fixpoint split_sep (p : ustring) : list ustring :=
  match p with
  | [] => [[]]
  | x :: p' =>
      if x =? chr_slash then [] :: split_sep p'
      else match split_sep p' with
           | c :: cs => (x :: c) :: cs
           | [] => [[x]]
           end
  end.

Fixpoint join_sep (comps : list ustring) : ustring :=
  match comps with
  | [] => []
  | [c] => c
  | c :: cs => c ++ chr_slash :: join_sep cs
  end.

Definition starts_with (pre s : ustring) : bool :=
  bool_decide (take (length pre) s = pre).

(** The loop of [normpath]; [new_comps] is kept reversed, so its head is
    [new_comps[-1]]. *)
Fixpoint normpath_comps (initial_slashes : nat) (comps : list ustring)
    (new_comps : list ustring) : list ustring :=
  match comps with
  | [] => rev new_comps
  | comp :: rest =>
      if bool_decide (comp = []) || bool_decide (comp = [chr_dot])
      then normpath_comps initial_slashes rest new_comps
      else if negb (bool_decide (comp = [chr_dot; chr_dot]))
              || (bool_decide (initial_slashes = 0%nat)
                  && bool_decide (new_comps = []))
              || match new_comps with
                 | last :: _ => bool_decide (last = [chr_dot; chr_dot])
                 | [] => false
                 end
      then normpath_comps initial_slashes rest (comp :: new_comps)
      else normpath_comps initial_slashes rest (tail new_comps)
  end.

Definition normpath (path : ustring) : ustring :=
  match path with
  | [] => [chr_dot]
  | _ =>
      let initial_slashes : nat :=
        if starts_with [chr_slash] path
        then if starts_with [chr_slash; chr_slash] path
                && negb (starts_with [chr_slash; chr_slash; chr_slash] path)
             then 2%nat else 1%nat
        else 0%nat in
      let path' :=
        replicate initial_slashes chr_slash
          ++ join_sep (normpath_comps initial_slashes (split_sep path) []) in
      match path' with
      | [] => [chr_dot]
      | _ => path'
      end
  end.

(** [join(a, b)] for two arguments. *)
Definition join (a b : ustring) : ustring :=
  if starts_with [chr_slash] b then b
  else if bool_decide (a = []) || bool_decide (last a = Some chr_slash)
  then a ++ b
  else a ++ chr_slash :: b.

End posixpath.

(** ** The builtin [hash] of a string

    CPython hashes the character buffer of a [str] with SipHash-1-3 keyed by
    a per-process secret (Python/pyhash.c, [siphash13], [_Py_HashBytes],
    [unicode_hash]).  The secret is drawn at interpreter start-up: from the
    operating system's random source by default, from a linear congruential
    generator seeded with [PYTHONHASHSEED] when that variable is a non-zero
    number, and all zero when it is [0] (Python/bootstrap_hash.c). *)

Module pyhash.
Local Open Scope Z_scope.

Definition wrap64 (x : Z) : Z := x mod 2 ^ 64.

Definition rotl64 (x b : Z) : Z :=
  wrap64 (Z.lor (Z.shiftl x b) (Z.shiftr x (64 - b))).

(** [HALF_ROUND(a,b,c,d,s,t)]. *)
Definition half_round (a b c d s t : Z) : Z * Z * Z * Z :=
  let a := wrap64 (a + b) in
  let c := wrap64 (c + d) in
  let b := Z.lxor (rotl64 b s) a in
  let d := Z.lxor (rotl64 d t) c in
  let a := rotl64 a 32 in
  (a, b, c, d).

(** [SINGLE_ROUND(v0,v1,v2,v3)]. *)
Definition single_round (v : Z * Z * Z * Z) : Z * Z * Z * Z :=
  let '(v0, v1, v2, v3) := v in
  let '(v0, v1, v2, v3) := half_round v0 v1 v2 v3 13 16 in
  let '(v2, v1, v0, v3) := half_round v2 v1 v0 v3 17 21 in
  (v0, v1, v2, v3).

(** Little-endian value of a short run of bytes. *)
Fixpoint le_value (bs : list Z) : Z :=
  match bs with
  | [] => 0
  | b :: bs' => Z.lor b (Z.shiftl (le_value bs') 8)
  end.

(** The [while (src_sz >= 8)] loop, then the tail: [fuel] bounds the number
    of eight-byte words. *)
Fixpoint sip_blocks (fuel : nat) (v : Z * Z * Z * Z) (src : list Z)
    : Z * Z * Z * Z * list Z :=
  match fuel with
  | O => (v, src)
  | S fuel' =>
      if (8 <=? length src)%nat then
        let mi := le_value (take 8 src) in
        let '(v0, v1, v2, v3) := v in
        let '(v0, v1, v2, v3) := single_round (v0, v1, v2, Z.lxor v3 mi) in
        sip_blocks fuel' (Z.lxor v0 mi, v1, v2, v3) (drop 8 src)
      else (v, src)
  end.

Definition siphash13 (k0 k1 : Z) (src : list Z) : Z :=
  let b := wrap64 (Z.shiftl (Z.of_nat (length src)) 56) in
  let v0 := Z.lxor k0 0x736f6d6570736575 in
  let v1 := Z.lxor k1 0x646f72616e646f6d in
  let v2 := Z.lxor k0 0x6c7967656e657261 in
  let v3 := Z.lxor k1 0x7465646279746573 in
  let '(v0, v1, v2, v3, rest) := sip_blocks (length src) (v0, v1, v2, v3) src in
  let b := Z.lor b (le_value rest) in
  let '(v0, v1, v2, v3) := single_round (v0, v1, v2, Z.lxor v3 b) in
  let v0 := Z.lxor v0 b in
  let v2 := Z.lxor v2 0xff in
  let '(v0, v1, v2, v3) :=
    single_round (single_round (single_round (v0, v1, v2, v3))) in
  Z.lxor (Z.lxor v0 v1) (Z.lxor v2 v3).

(** The character buffer of a [str]: one, two or four bytes per code point
    (little-endian), chosen by the largest code point. *)
Definition char_width (s : ustring) : nat :=
  if forallb (fun c => c <? 256)%N s then 1%nat
  else if forallb (fun c => c <? 65536)%N s then 2%nat
  else 4%nat.

Fixpoint le_bytes (width : nat) (c : Z) : list Z :=
  match width with
  | O => []
  | S w => Z.land c 255 :: le_bytes w (Z.shiftr c 8)
  end.

Definition unicode_data (s : ustring) : list Z :=
  let w := char_width s in
  flat_map (fun c => le_bytes w (Z.of_N c)) s.

(** The cast to the signed [Py_hash_t]. *)
Definition to_signed64 (x : Z) : Z :=
  if x <? 2 ^ 63 then x else x - 2 ^ 64.

(** [hash(s)] under the secret [(k0, k1)]: zero for the empty string, and
    [-2] in place of [-1]. *)
Definition str_hash (secret : Z * Z) (s : ustring) : Z :=
  match s with
  | [] => 0
  | _ =>
      let x := to_signed64 (siphash13 (fst secret) (snd secret) (unicode_data s)) in
      if x =? -1 then -2 else x
  end.

(** [lcg_urandom]: the bytes of the secret for a non-zero [PYTHONHASHSEED]. *)
Fixpoint lcg_urandom (x : Z) (size : nat) : list Z :=
  match size with
  | O => []
  | S size' =>
      let x := (x * 214013 + 2531011) mod 2 ^ 32 in
      Z.land (Z.shiftr x 16) 255 :: lcg_urandom x size'
  end.

Definition secret_of_seed (seed : Z) : Z * Z :=
  if seed =? 0 then (0, 0)
  else
    let buffer := lcg_urandom seed 24 in
    (le_value (take 8 buffer), le_value (take 8 (drop 8 buffer))).

End pyhash.

(** ** Regular expressions ([re])

    The fragment of [re] the program uses: literal characters, [.*],
    concatenation, alternation and [$], matched by backtracking in the
    order the engine tries the alternatives.  The program passes
    [re.IGNORECASE] at every call. *)

Module re.

Inductive regex : Type :=
| Eps
| Lit (c : N)
| AnyStar
| Cat (r1 r2 : regex)
| Alt (r1 r2 : regex)
| Eol.

(** The code points a lower-case pattern letter matches under
    [re.IGNORECASE] in a [str] pattern: the letter, its upper-case form and,
    for [i] and [s], the letters U+0130, U+0131 and U+017F.  Other
    characters (here the dot) match themselves only. *)
Definition lit_ignorecase (c x : N) : bool :=
  (x =? c)
  || ((97 <=? c) && (c <=? 122) && (x =? c - 32))
  || ((c =? 105) && ((x =? 0x130) || (x =? 0x131)))
  || ((c =? 115) && (x =? 0x17F)).

(** [run r s k] matches [r] at the start of [s] and hands the rest of the
    subject to the continuation [k]; the first success in backtracking
    order wins.  [.] does not match a line feed; [$] matches at the end of
    the subject and before a line feed that ends the subject. *)
Fixpoint run {A} (r : regex) (s : ustring) (k : ustring -> option A) : option A :=
  match r with
  | Eps => k s
  | Lit c =>
      match s with
      | x :: s' => if lit_ignorecase c x then k s' else None
      | [] => None
      end
  | AnyStar =>
      (fix star (s : ustring) : option A :=
         match s with
         | x :: s' =>
             if x =? chr_newline then k s
             else match star s' with
                  | Some res => Some res
                  | None => k s
                  end
         | [] => k s
         end) s
  | Cat r1 r2 => run r1 s (fun s' => run r2 s' k)
  | Alt r1 r2 =>
      match run r1 s k with
      | Some res => Some res
      | None => run r2 s k
      end
  | Eol =>
      match s with
      | [] => k s
      | [x] => if x =? chr_newline then k s else None
      | _ => None
      end
  end.

(** [re.match(r, s, re.IGNORECASE)], as a truth value. *)
Definition matches (r : regex) (s : ustring) : bool :=
  bool_decide (is_Some (run r s Some)).

(** [re.sub(r, repl, s, flags=re.IGNORECASE)] for a replacement without
    escapes.  [skip] counts the characters of a match already replaced.
    An empty match inserts [repl] and moves on by one character. *)
Fixpoint sub_from (r : regex) (repl : ustring) (s : ustring) (skip : nat) : ustring :=
  match skip with
  | S n =>
      match s with
      | _ :: s' => sub_from r repl s' n
      | [] => []
      end
  | O =>
      match run r s Some with
      | Some rest =>
          repl ++
          match s with
          | x :: s' =>
              match (length s - length rest)%nat with
              | O => x :: sub_from r repl s' O
              | S n => sub_from r repl s' n
              end
          | [] => []
          end
      | None =>
          match s with
          | x :: s' => x :: sub_from r repl s' O
          | [] => []
          end
      end
  end.

Definition sub (r : regex) (repl s : ustring) : ustring := sub_from r repl s O.

(** A literal word. *)
Fixpoint word (w : ustring) : regex :=
  match w with
  | [] => Eps
  | c :: w' => Cat (Lit c) (word w')
  end.

(** The declarative reading of a pattern: [sem r s rest] when [r] matches a
    prefix of [s] and leaves [rest]. *)
Fixpoint sem (r : regex) (s rest : ustring) : Prop :=
  match r with
  | Eps => s = rest
  | Lit c => exists x, s = x :: rest /\ lit_ignorecase c x = true
  | AnyStar => exists pre, s = pre ++ rest /\ (chr_newline ∉ pre)
  | Cat r1 r2 => exists mid, sem r1 s mid /\ sem r2 mid rest
  | Alt r1 r2 => sem r1 s rest \/ sem r2 s rest
  | Eol => s = rest /\ (rest = [] \/ rest = [chr_newline])
  end.

(** Case folding as the patterns see it: an upper-case ASCII letter, and the
    three letters that [re.IGNORECASE] equates with [i] and [s], fold to the
    lower-case ASCII letter. *)
Definition fold_char (x : N) : N :=
  if (65 <=? x) && (x <=? 90) then x + 32
  else if (x =? 0x130) || (x =? 0x131) then 105
  else if x =? 0x17F then 115
  else x.

End re.

(** The four patterns of the program. *)

(** [r'.*\.(in|input)$'] *)
Definition input_name_re : re.regex :=
  re.Cat re.AnyStar
    (re.Cat (re.Lit chr_dot)
       (re.Cat (re.Alt (re.word (u "in")) (re.word (u "input"))) re.Eol)).

(** [r'.*\.(out|ans|output)$'] *)
Definition output_name_re : re.regex :=
  re.Cat re.AnyStar
    (re.Cat (re.Lit chr_dot)
       (re.Cat (re.Alt (re.word (u "out"))
                  (re.Alt (re.word (u "ans")) (re.word (u "output"))))
          re.Eol)).

(** [r'\.(in|input)$'] *)
Definition input_ext_re : re.regex :=
  re.Cat (re.Lit chr_dot)
    (re.Cat (re.Alt (re.word (u "in")) (re.word (u "input"))) re.Eol).

(** [r'\.(out|ans|output)$'] *)
Definition output_ext_re : re.regex :=
  re.Cat (re.Lit chr_dot)
    (re.Cat (re.Alt (re.word (u "out"))
               (re.Alt (re.word (u "ans")) (re.word (u "output"))))
       re.Eol).

(** ** Text files: UTF-8 decoding and universal newlines *)

Inductive exn : Type :=
| FileNotFoundError
| IsADirectoryError
| NotADirectoryError
| PermissionError
| UnicodeDecodeError
| JSONDecodeError
| AttributeError
| TypeError.

Global Instance exn_eq_dec : EqDecision exn.
Proof. solve_decision. Defined.

Abbreviation result A := (exn + A)%type.

Module codecs.

Inductive errors : Type := strict | ignore.

(** One step of the decoder on a non-empty input: a code point and the
    number of bytes it took, or the number of bytes the error covers. *)
Inductive step : Type :=
| Char (c : N) (len : nat)
| Bad (len : nat).

Definition is_continuation (b : N) : bool := (0x80 <=? b) && (b <? 0xC0).

Definition low6 (b : N) : N := N.land b 0x3F.

(** [utf8_decode] of Objects/stringlib/codecs.h with the error positions
    of [unicode_decode_utf8]: an invalid start byte covers one byte, an
    invalid continuation byte covers the bytes before it, and a sequence
    cut short by the end of the data covers the rest of the data. *)
Definition utf8_step (data : list N) : step :=
  match data with
  | [] => Bad 0
  | ch :: rest =>
      if ch <? 0x80 then Char ch 1
      else if ch <? 0xC2 then Bad 1
      else if ch <? 0xE0 then
        match rest with
        | [] => Bad 1
        | ch2 :: _ =>
            if is_continuation ch2
            then Char (N.lor (N.shiftl (N.land ch 0x1F) 6) (low6 ch2)) 2
            else Bad 1
        end
      else if ch <? 0xF0 then
        match rest with
        | [] => Bad 1
        | ch2 :: rest2 =>
            if negb (is_continuation ch2)
               || (if ch2 <? 0xA0 then ch =? 0xE0 else ch =? 0xED)
            then Bad 1
            else match rest2 with
                 | [] => Bad 2
                 | ch3 :: _ =>
                     if is_continuation ch3
                     then Char (N.lor (N.shiftl (N.land ch 0x0F) 12)
                                  (N.lor (N.shiftl (low6 ch2) 6) (low6 ch3))) 3
                     else Bad 2
                 end
        end
      else if ch <? 0xF5 then
        match rest with
        | [] => Bad 1
        | ch2 :: rest2 =>
            if negb (is_continuation ch2)
               || (if ch2 <? 0x90 then ch =? 0xF0 else ch =? 0xF4)
            then Bad 1
            else match rest2 with
                 | [] => Bad 2
                 | ch3 :: rest3 =>
                     if negb (is_continuation ch3) then Bad 2
                     else match rest3 with
                          | [] => Bad 3
                          | ch4 :: _ =>
                              if is_continuation ch4
                              then Char (N.lor (N.shiftl (N.land ch 0x07) 18)
                                           (N.lor (N.shiftl (low6 ch2) 12)
                                              (N.lor (N.shiftl (low6 ch3) 6) (low6 ch4)))) 4
                              else Bad 3
                          end
                 end
        end
      else Bad 1
  end.

(** The decoding loop.  Every step consumes at least one byte, so
    [length data] steps are enough ([utf8_loop_fuel]). *)
Fixpoint utf8_loop (fuel : nat) (mode : errors) (data : list N) : result ustring :=
  match fuel, data with
  | _, [] => inr []
  | O, _ :: _ => inr []
  | S fuel', _ :: _ =>
      match utf8_step data with
      | Char c len =>
          match utf8_loop fuel' mode (drop len data) with
          | inr s => inr (c :: s)
          | inl e => inl e
          end
      | Bad len =>
          match mode with
          | strict => inl UnicodeDecodeError
          | ignore => utf8_loop fuel' mode (drop len data)
          end
      end
  end.

(** [bytes.decode('utf-8', errors)]. *)
Definition utf_8_decode (mode : errors) (data : list byte) : result ustring :=
  utf8_loop (length data) mode (map Byte.to_N data).

(** Universal newlines of a text file opened with the default [newline]:
    a carriage return, with the line feed that follows it if any, is read
    as one line feed. *)
Fixpoint translate_newlines (s : ustring) : ustring :=
  match s with
  | [] => []
  | x :: s' =>
      if x =? chr_cr then
        match s' with
        | y :: s'' =>
            if y =? chr_newline then chr_newline :: translate_newlines s''
            else chr_newline :: translate_newlines s'
        | [] => [chr_newline]
        end
      else x :: translate_newlines s'
  end.

End codecs.

(** A string literal of this file (UTF-8) as a Python string. *)
Definition utf8_literal (s : string) : ustring :=
  match codecs.utf_8_decode codecs.strict (list_byte_of_string s) with
  | inr x => x
  | inl _ => []
  end.

(** ** Values and the environment *)

(** What [json.load] returns.  An object is a [dict]: its members in
    insertion order, keys distinct. *)
Inductive json : Type :=
| JNull
| JBool (b : bool)
| JNum (literal : ustring)
| JStr (s : ustring)
| JArr (items : list json)
| JObj (members : list (ustring * json)).

(** A testpoint record: the dictionary [{'input': ..., 'output': ...}].
    Every record the program creates has both keys. *)
Record testpoint : Type := Testpoint { input : json; output : json }.

(** What a path resolves to on disk. *)
Inductive node : Type :=
| RegFile (data : list byte)
| Directory (entries : list ustring)
| NoAccess.

(** The environment of one run of the program: the file system, the
    string hash of this process, and the library functions [json.loads] and
    [str] (on values other than strings). *)
Record World : Type := {
  fs_node : ustring -> option node;
  py_hash : ustring -> Z;
  json_loads : ustring -> option json;
  py_str : json -> ustring;
}.

Section Runtime.
Context (w : World).

Definition os_path_exists (p : ustring) : bool :=
  bool_decide (is_Some (fs_node w p)).

(** [with open(p, 'r', encoding='utf-8', errors=...) as f: f.read()]. *)
Definition read_text (mode : codecs.errors) (p : ustring) : result ustring :=
  match fs_node w p with
  | None => inl FileNotFoundError
  | Some (Directory _) => inl IsADirectoryError
  | Some NoAccess => inl PermissionError
  | Some (RegFile data) =>
      match codecs.utf_8_decode mode data with
      | inr s => inr (codecs.translate_newlines s)
      | inl e => inl e
      end
  end.

Definition os_listdir (p : ustring) : result (list ustring) :=
  match fs_node w p with
  | None => inl FileNotFoundError
  | Some (RegFile _) => inl NotADirectoryError
  | Some NoAccess => inl PermissionError
  | Some (Directory entries) => inr entries
  end.

(** [str(abs(hash(d)) % 10000)]. *)
Definition dir_hash_of (d : ustring) : ustring :=
  str_of_N (Z.to_N (Z.abs (py_hash w d) mod 10000)).

(** Formatting a value inside an f-string. *)
Definition format_value (v : json) : ustring :=
  match v with
  | JStr s => s
  | _ => py_str w v
  end.

End Runtime.

(** ** Dictionaries in insertion order *)

Section Dict.
Context {V : Type}.

Fixpoint dict_lookup (m : list (ustring * V)) (key : ustring) : option V :=
  match m with
  | [] => None
  | (k, v) :: m' => if bool_decide (k = key) then Some v else dict_lookup m' key
  end.

(** [m[key] = v]: in place when the key is present, at the end otherwise. *)
Fixpoint dict_set (m : list (ustring * V)) (key : ustring) (v : V)
    : list (ustring * V) :=
  match m with
  | [] => [(key, v)]
  | (k, v') :: m' =>
      if bool_decide (k = key) then (k, v) :: m' else (k, v') :: dict_set m' key v
  end.

Definition dict_get (m : list (ustring * V)) (key : ustring) (default : V) : V :=
  match dict_lookup m key with
  | Some v => v
  | None => default
  end.

Definition dict_has (m : list (ustring * V)) (key : ustring) : bool :=
  bool_decide (is_Some (dict_lookup m key)).

End Dict.

(** ** Literals of the program *)

Definition output_not_found : ustring :=
  Eval vm_compute in utf8_literal "未找到对应的输出文件".

Definition input_not_found : ustring :=
  Eval vm_compute in utf8_literal "未找到对应的输入文件".

Definition testpoint_prefix : ustring :=
  Eval vm_compute in utf8_literal "测试点_".

(** [s.lower()] compared with the extension of JSON files.  Only the
    ASCII letters J, S, O, N lower-case
    to the letters of the right-hand side, so the comparison is decided on
    the ASCII lower-casing of [s]. *)
Definition ascii_lower (c : N) : N :=
  if (65 <=? c) && (c <=? 90) then c + 32 else c.

Definition lower_is_json (ext : ustring) : bool :=
  bool_decide (map ascii_lower ext = u ".json").

(** ** Writing text

    A file opened with [open(path, 'w', encoding='utf-8')] takes the strings
    that hold no surrogate code point; on any other string the write raises
    [UnicodeEncodeError], with what was written before left in the file. *)
Definition utf8_encodable (s : ustring) : bool :=
  forallb (fun c => negb ((0xD800 <=? c) && (c <=? 0xDFFF))) s.

(** ** ConfigManager: the persisted path list

    [testpoints.json] holds a JSON array of paths; the model keeps the array
    as [load_testpoint_paths] finds it.  A missing, empty or unparsable file
    reads as the empty list. *)

Import posixpath.

Section Program.
Context (w : World).

(** The file name without its extension:
    [os.path.splitext(os.path.basename(path))[0]]. *)
Definition base_of (path : ustring) : ustring := (splitext (basename path)).1.

(** The loop of [save_testpoint_paths] (and of [save_testpoints_data]):
    keep the paths that exist, one per base name. *)
Fixpoint unique_loop (paths : list ustring) (unique_paths : list ustring)
    (unique_bases : gset ustring) : list ustring :=
  match paths with
  | [] => unique_paths
  | path :: rest =>
      if os_path_exists w path then
        let base_name := base_of path in
        if bool_decide (base_name ∈ unique_bases)
        then unique_loop rest unique_paths unique_bases
        else unique_loop rest (unique_paths ++ [path]) ({[base_name]} ∪ unique_bases)
      else unique_loop rest unique_paths unique_bases
  end.

(** [ConfigManager.save_testpoint_paths]: the array [testpoints.json] holds
    afterwards.  The file is opened for writing, which empties it, and
    [json.dump] writes the kept paths one after the other, each as it is
    ([ensure_ascii=False]).  On a kept path that cannot be encoded the write
    raises; the exception is swallowed (the method returns [False]) and the
    file is left cut short, before the closing bracket: it is empty or
    unparsable, and reads as the empty list. *)
Definition save_testpoint_paths (testpoint_paths : list ustring) : list ustring :=
  let unique_paths := unique_loop testpoint_paths [] ∅ in
  if forallb utf8_encodable unique_paths then unique_paths else [].

(** [ConfigManager.load_testpoint_paths] on the stored array: normalise each
    path and keep those that exist. *)
Fixpoint load_testpoint_paths (stored : list ustring) : list ustring :=
  match stored with
  | [] => []
  | path :: rest =>
      let norm_path := normpath path in
      if os_path_exists w norm_path
      then norm_path :: load_testpoint_paths rest
      else load_testpoint_paths rest
  end.

(** ** TestPointViewer *)

Record Viewer : Type := {
  testpoint_data : gmap ustring testpoint;
  current_file : option ustring;
  testpoints_json : list ustring;
}.

(** The search [for existing_path in testpoint_paths: ... break]. *)
Definition is_duplicate (file_path : ustring) (testpoint_paths : list ustring) : bool :=
  existsb (fun existing_path =>
             bool_decide (base_of file_path = base_of existing_path))
          testpoint_paths.

(** *** [load_json_testpoints] *)

(** [for x in v]: a list yields its items, a dict its keys, a string its
    characters; other values are not iterable. *)
Definition py_iter (v : json) : result (list json) :=
  match v with
  | JArr items => inr items
  | JObj members => inr (map (fun kv => JStr kv.1) members)
  | JStr s => inr (map (fun c => JStr [c]) s)
  | _ => inl TypeError
  end.

(** [v.get(key, default)]: only a dict has [get]. *)
Definition py_get (v : json) (key : ustring) (default : json) : result json :=
  match v with
  | JObj members => inr (dict_get members key default)
  | _ => inl AttributeError
  end.

Definition record_of (v : json) : result testpoint :=
  match py_get v (u "input") (JStr []), py_get v (u "output") (JStr []) with
  | inr i, inr o => inr (Testpoint i o)
  | inl e, _ => inl e
  | _, inl e => inl e
  end.

(** The loop over [data['testCases']]; [i] is the index of [enumerate]. *)
Fixpoint load_test_cases (base_name : ustring) (cases : list json) (i : N)
    (new_testpoints : gmap ustring testpoint) : result (gmap ustring testpoint) :=
  match cases with
  | [] => inr new_testpoints
  | test_case :: rest =>
      let name := base_name ++ chr_underscore :: testpoint_prefix ++ str_of_N (i + 1) in
      match record_of test_case with
      | inl e => inl e
      | inr r => load_test_cases base_name rest (i + 1) (<[name := r]> new_testpoints)
      end
  end.

(** The loop over [data.items()]. *)
Fixpoint load_named (base_name : ustring) (items : list (ustring * json))
    (new_testpoints : gmap ustring testpoint) : result (gmap ustring testpoint) :=
  match items with
  | [] => inr new_testpoints
  | (name, content) :: rest =>
      match content with
      | JObj _ =>
          let prefixed_name := base_name ++ chr_underscore :: name in
          match record_of content with
          | inl e => inl e
          | inr r => load_named base_name rest (<[prefixed_name := r]> new_testpoints)
          end
      | _ => load_named base_name rest new_testpoints
      end
  end.

(** The loop over a top-level list. *)
Fixpoint load_items (base_name : ustring) (items : list json) (i : N)
    (new_testpoints : gmap ustring testpoint) : result (gmap ustring testpoint) :=
  match items with
  | [] => inr new_testpoints
  | item :: rest =>
      match item with
      | JObj members =>
          let item_name :=
            dict_get members (u "name") (JStr (testpoint_prefix ++ str_of_N (i + 1))) in
          let name := base_name ++ chr_underscore :: format_value w item_name in
          match record_of item with
          | inl e => inl e
          | inr r => load_items base_name rest (i + 1) (<[name := r]> new_testpoints)
          end
      | _ => load_items base_name rest (i + 1) new_testpoints
      end
  end.

(** The records a parsed document yields. *)
Definition json_new_testpoints (file_path : ustring) (data : json)
    : result (gmap ustring testpoint) :=
  let base_name := basename file_path in
  match data with
  | JObj members =>
      match dict_lookup members (u "testCases") with
      | Some cases =>
          match py_iter cases with
          | inl e => inl e
          | inr l => load_test_cases base_name l 0 ∅
          end
      | None => load_named base_name members ∅
      end
  | JArr items => load_items base_name items 0 ∅
  | _ => inr ∅
  end.

(** [self.testpoint_data.update(new_testpoints)]. *)
Definition dict_update (data new_testpoints : gmap ustring testpoint)
    : gmap ustring testpoint :=
  new_testpoints ∪ data.

Definition load_json_testpoints (data : gmap ustring testpoint) (file_path : ustring)
    : result (gmap ustring testpoint) :=
  match read_text w codecs.strict file_path with
  | inl e => inl e
  | inr text =>
      match json_loads w text with
      | None => inl JSONDecodeError
      | Some doc =>
          match json_new_testpoints file_path doc with
          | inl e => inl e
          | inr new_testpoints => inr (dict_update data new_testpoints)
          end
      end
  end.

(** *** [load_text_testpoints] *)

Definition is_input_name (name : ustring) : bool := re.matches input_name_re name.
Definition is_output_name (name : ustring) : bool := re.matches output_name_re name.

(** The identifier of a plain-text file:
    [f"{str(abs(hash(os.path.dirname(file_path))) % 10000)}_{name_without_ext}"]. *)
Definition unique_name_of (file_path : ustring) : ustring :=
  dir_hash_of w (dirname file_path) ++ chr_underscore :: base_of file_path.

(** The branch taken when the identifier is already a key: one field of
    the record is assigned. *)
Definition patch_record (base_name content : ustring) (r : testpoint) : testpoint :=
  if is_input_name base_name then Testpoint (JStr content) (output r)
  else if is_output_name base_name then Testpoint (input r) (JStr content)
  else Testpoint (JStr content) (output r).

(** The companion path: the first candidate unless it does not exist. *)
Definition companion_path (ext_re : re.regex) (first second file_path : ustring)
    : ustring :=
  let candidate := re.sub ext_re first file_path in
  if negb (os_path_exists w candidate)
  then re.sub ext_re second file_path
  else candidate.

Definition load_text_testpoints (data : gmap ustring testpoint) (file_path : ustring)
    : result (gmap ustring testpoint) :=
  match read_text w codecs.ignore file_path with
  | inl e => inl e
  | inr content =>
      let base_name := basename file_path in
      let unique_name := unique_name_of file_path in
      match data !! unique_name with
      | Some r => inr (<[unique_name := patch_record base_name content r]> data)
      | None =>
          if is_input_name base_name then
            let output_file :=
              companion_path input_ext_re (u ".out") (u ".ans") file_path in
            if os_path_exists w output_file then
              match read_text w codecs.ignore output_file with
              | inl e => inl e
              | inr output_content =>
                  inr (dict_update data
                         {[unique_name := Testpoint (JStr content) (JStr output_content)]})
              end
            else
              inr (dict_update data
                     {[unique_name := Testpoint (JStr content) (JStr output_not_found)]})
          else if is_output_name base_name then
            let input_file :=
              companion_path output_ext_re (u ".in") (u ".input") file_path in
            if os_path_exists w input_file then
              match read_text w codecs.ignore input_file with
              | inl e => inl e
              | inr input_content =>
                  inr (dict_update data
                         {[unique_name := Testpoint (JStr input_content) (JStr content)]})
              end
            else
              inr (dict_update data
                     {[unique_name := Testpoint (JStr input_not_found) (JStr content)]})
          else
            inr (dict_update data
                   {[unique_name := Testpoint (JStr content) (JStr [])]})
      end
  end.

(** *** [find_related_testpoints] *)

(** [input_map] / [output_map]: file name without extension to file name. *)
Definition name_map (files : list ustring) : list (ustring * ustring) :=
  fold_left (fun m f => dict_set m (splitext f).1 f) files [].

(** The first loop: base names that have an input file. *)
Fixpoint related_inputs (data : gmap ustring testpoint) (dir_path dir_hash : ustring)
    (input_map output_map : list (ustring * ustring)) (keys : list ustring)
    (processed_names : gset ustring) (new_testpoints : gmap ustring testpoint)
    : result (gset ustring * gmap ustring testpoint) :=
  match keys with
  | [] => inr (processed_names, new_testpoints)
  | base_name :: rest =>
      let unique_name := dir_hash ++ chr_underscore :: base_name in
      if bool_decide (is_Some (data !! unique_name))
         || bool_decide (base_name ∈ processed_names)
      then related_inputs data dir_path dir_hash input_map output_map rest
             processed_names new_testpoints
      else
        let processed_names := {[base_name]} ∪ processed_names in
        let in_path := join dir_path (dict_get input_map base_name []) in
        match read_text w codecs.ignore in_path with
        | inl e => inl e
        | inr input_content =>
            match
              match dict_lookup output_map base_name with
              | Some out_file => read_text w codecs.ignore (join dir_path out_file)
              | None => inr output_not_found
              end
            with
            | inl e => inl e
            | inr output_content =>
                related_inputs data dir_path dir_hash input_map output_map rest
                  processed_names
                  (<[unique_name := Testpoint (JStr input_content) (JStr output_content)]>
                     new_testpoints)
            end
        end
  end.

(** The second loop: base names that have an output file only. *)
Fixpoint related_outputs (data : gmap ustring testpoint) (dir_path dir_hash : ustring)
    (input_map output_map : list (ustring * ustring)) (keys : list ustring)
    (processed_names : gset ustring) (new_testpoints : gmap ustring testpoint)
    : result (gmap ustring testpoint) :=
  match keys with
  | [] => inr new_testpoints
  | base_name :: rest =>
      if bool_decide (base_name ∈ processed_names) || dict_has input_map base_name
      then related_outputs data dir_path dir_hash input_map output_map rest
             processed_names new_testpoints
      else
        let unique_name := dir_hash ++ chr_underscore :: base_name in
        if bool_decide (is_Some (data !! unique_name))
        then related_outputs data dir_path dir_hash input_map output_map rest
               processed_names new_testpoints
        else
          match read_text w codecs.ignore (join dir_path (dict_get output_map base_name [])) with
          | inl e => inl e
          | inr output_content =>
              related_outputs data dir_path dir_hash input_map output_map rest
                processed_names
                (<[unique_name := Testpoint (JStr input_not_found) (JStr output_content)]>
                   new_testpoints)
          end
  end.

Definition find_related_testpoints (data : gmap ustring testpoint) (file_path : ustring)
    : result (gmap ustring testpoint) :=
  let dir_path := dirname file_path in
  match os_listdir w dir_path with
  | inl e => inl e
  | inr files =>
      let dir_hash := dir_hash_of w dir_path in
      let current_file_name := base_of file_path in
      let related_files :=
        filter (fun f => (splitext f).1 = current_file_name) files in
      let input_files := filter (fun f => is_input_name f = true) related_files in
      let output_files := filter (fun f => is_output_name f = true) related_files in
      let input_map := name_map input_files in
      let output_map := name_map output_files in
      match related_inputs data dir_path dir_hash input_map output_map
              (map fst input_map) ∅ ∅ with
      | inl e => inl e
      | inr (processed_names, new_testpoints) =>
          match related_outputs data dir_path dir_hash input_map output_map
                  (map fst output_map) processed_names new_testpoints with
          | inl e => inl e
          | inr new_testpoints => inr (dict_update data new_testpoints)
          end
      end
  end.

(** *** [save_testpoints_data] *)

Definition save_testpoints_data (v : Viewer) : Viewer :=
  let testpoint_paths := load_testpoint_paths (testpoints_json v) in
  let testpoint_paths :=
    match current_file v with
    | Some cur =>
        if negb (bool_decide (cur = [])) && os_path_exists w cur
           && negb (bool_decide (cur ∈ testpoint_paths))
           && negb (is_duplicate cur testpoint_paths)
        then testpoint_paths ++ [cur]
        else testpoint_paths
    | None => testpoint_paths
    end in
  let unique_paths := unique_loop testpoint_paths [] ∅ in
  {| testpoint_data := testpoint_data v;
     current_file := current_file v;
     testpoints_json := save_testpoint_paths unique_paths |}.

(** *** [load_testpoints] *)

(** What the user is told: the notice that the same testpoint data is
    already loaded (已加载相同测试点数据), the newly added identifiers, or the
    error dialog. *)
Inductive outcome : Type :=
| DuplicateNotice
| Loaded (new_testpoints : gset ustring)
| ErrorNotice (e : exn).

Definition load_by_type (data : gmap ustring testpoint) (file_path : ustring)
    : result (gmap ustring testpoint) :=
  if lower_is_json (splitext file_path).2
  then load_json_testpoints data file_path
  else load_text_testpoints data file_path.

Definition load_testpoints (v : Viewer) (file_path : ustring) : outcome * Viewer :=
  let testpoint_paths := load_testpoint_paths (testpoints_json v) in
  if bool_decide (file_path ∈ testpoint_paths) then (DuplicateNotice, v)
  else
    let stored :=
      if negb (is_duplicate file_path testpoint_paths)
      then save_testpoint_paths (testpoint_paths ++ [file_path])
      else testpoints_json v in
    let current_data := testpoint_data v in
    match load_by_type current_data file_path with
    | inl e => (ErrorNotice e, {| testpoint_data := current_data;
                                  current_file := current_file v;
                                  testpoints_json := stored |})
    | inr data1 =>
        match find_related_testpoints data1 file_path with
        | inl e => (ErrorNotice e, {| testpoint_data := data1;
                                      current_file := current_file v;
                                      testpoints_json := stored |})
        | inr data2 =>
            let v2 := {| testpoint_data := data2;
                         current_file := current_file v;
                         testpoints_json := stored |} in
            let new_testpoints := data2 ∖ current_data in
            if bool_decide (new_testpoints = ∅) then (DuplicateNotice, v2)
            else (Loaded (dom new_testpoints), save_testpoints_data v2)
        end
    end.

(** [select_file] once the dialog has returned [file_path]; an empty path
    (the dialog was cancelled) does nothing. *)
Definition select_file (v : Viewer) (file_path : ustring) : option outcome * Viewer :=
  match file_path with
  | [] => (None, v)
  | _ =>
      let r := load_testpoints {| testpoint_data := testpoint_data v;
                                  current_file := Some file_path;
                                  testpoints_json := testpoints_json v |} file_path in
      (Some r.1, r.2)
  end.

End Program.

(** ** Sample environments

    A small file system used to run the program on concrete inputs, under
    the string hash of a process started with a given [PYTHONHASHSEED]. *)

Definition newline : string := String (ascii_of_nat 10) EmptyString.
Definition quote : string := String (ascii_of_nat 34) EmptyString.

Definition file_of (s : string) : node := RegFile (list_byte_of_string s).

(** A document whose [testCases] array holds the number 7 followed by one
    object with an input and an output. *)
Definition mixed_cases_text : string :=
  ("{" ++ quote ++ "testCases" ++ quote ++ ": [7, {"
     ++ quote ++ "input" ++ quote ++ ": " ++ quote ++ "1" ++ quote ++ ", "
     ++ quote ++ "output" ++ quote ++ ": " ++ quote ++ "2" ++ quote ++ "}]}")%string.

Definition mixed_cases_doc : json :=
  JObj [(u "testCases",
         JArr [JNum (u "7");
               JObj [(u "input", JStr (u "1")); (u "output", JStr (u "2"))]])].

(** A top-level array holding the number 7 followed by the same object. *)
Definition mixed_list_text : string :=
  ("[7, {" ++ quote ++ "input" ++ quote ++ ": " ++ quote ++ "1" ++ quote ++ ", "
     ++ quote ++ "output" ++ quote ++ ": " ++ quote ++ "2" ++ quote ++ "}]")%string.

Definition mixed_list_doc : json :=
  JArr [JNum (u "7");
        JObj [(u "input", JStr (u "1")); (u "output", JStr (u "2"))]].

Definition sample_fs : list (ustring * node) :=
  [ (u "a", Directory [u "foo.in"]);
    (u "a/foo.in", file_of ("5" ++ newline));
    (u "b", Directory [u "foo.out"]);
    (u "b/foo.out", file_of ("25" ++ newline));
    (u "d", Directory [u "x.in"; u "x.out"; u "y.in"; u "z.input"; u "z.ans"]);
    (u "d/x.in", file_of ("1 2" ++ newline));
    (u "d/x.out", file_of ("3" ++ newline));
    (u "d/y.in", file_of ("7" ++ newline));
    (u "d/z.input", file_of ("8" ++ newline));
    (u "d/z.ans", file_of ("64" ++ newline));
    (u "j", Directory [u "bad.json"; u "cases.json"; u "list.json"]);
    (u "j/bad.json", file_of "{");
    (u "j/cases.json", file_of mixed_cases_text);
    (u "j/list.json", file_of mixed_list_text) ].

(** [json.loads] on the texts of the sample files. *)
Definition sample_json_loads : ustring -> option json :=
  dict_lookup
    [ (u mixed_cases_text, mixed_cases_doc);
      (u mixed_list_text, mixed_list_doc) ].

Definition session (seed : Z) : World :=
  {| fs_node := dict_lookup sample_fs;
     py_hash := pyhash.str_hash (pyhash.secret_of_seed seed);
     json_loads := sample_json_loads;
     py_str := fun _ => u "?" |}.

(** The viewer before anything is loaded. *)
Definition empty_viewer : Viewer :=
  {| testpoint_data := ∅; current_file := None; testpoints_json := [] |}.

(** The viewer after importing the file [a/foo.in] in the session of
    seed [0]. *)
Definition viewer_after_foo : Viewer :=
  (select_file (session 0) empty_viewer (u "a/foo.in")).2.

(** The identifier the specification's formula yields: the hash itself,
    not its absolute value, reduced modulo 10000. *)
Definition mod_hash_name (w : World) (file_path : ustring) : ustring :=
  str_of_N (Z.to_N (py_hash w (dirname file_path) mod 10000))
    ++ chr_underscore :: base_of file_path.

(** Whether a result is the decoding error. *)
Definition is_decode_error {A} (r : result A) : bool :=
  match r with
  | inl UnicodeDecodeError => true
  | _ => false
  end.

(** ** A second file system

    Files the first one lacks: an input file with both an [.out] and an
    [.ans] sibling, a file name that holds a line feed, a file name that is
    not valid UTF-8 (the byte 0x80, which [os.fsdecode] gives as the lone
    surrogate U+DC80), and two files written with carriage returns. *)

Definition carriage_return : string := String (ascii_of_nat 13) EmptyString.

Definition line_feed_name : ustring := u "a" ++ [chr_newline] ++ u "b.in".

Definition surrogate_name : ustring := [0xDC80] ++ u ".in".

Definition lab_fs : list (ustring * node) :=
  [ (u "e", Directory [u "x.in"; u "x.out"; u "x.ans"; line_feed_name; surrogate_name]);
    (u "e/x.in", file_of ("1 2" ++ newline));
    (u "e/x.out", file_of ("3" ++ newline));
    (u "e/x.ans", file_of ("OLD" ++ newline));
    (u "e/" ++ line_feed_name, file_of ("6" ++ newline));
    (u "e/" ++ surrogate_name, file_of ("9" ++ newline));
    (u "c", Directory [u "w.in"; u "w.out"]);
    (u "c/w.in",
     file_of ("1 2" ++ carriage_return ++ newline ++ "3" ++ carriage_return));
    (u "c/w.out", file_of ("4" ++ carriage_return ++ newline)) ].

Definition lab_session : World :=
  {| fs_node := dict_lookup (lab_fs ++ sample_fs);
     py_hash := pyhash.str_hash (pyhash.secret_of_seed 0);
     json_loads := sample_json_loads;
     py_str := fun _ => u "?" |}.

(** ** Notions used to state the properties *)

(** What may follow the extension at the end of a name: nothing, or one
    line feed. *)
Definition is_eol_rest (rest : ustring) : Prop :=
  rest = [] \/ rest = [chr_newline].

(** The extensions the two families of patterns accept, up to case. *)
Definition in_ext (e : ustring) : Prop :=
  map re.fold_char e = u ".in" \/ map re.fold_char e = u ".input".

Definition out_ext (e : ustring) : Prop :=
  map re.fold_char e = u ".out" \/ map re.fold_char e = u ".ans"
  \/ map re.fold_char e = u ".output".

(** The folded subject, read from its end. *)
Definition folded_rev (s : ustring) : ustring := rev (map re.fold_char s).

(** A name the input pattern accepts ends, up to case, in one of four ways;
    a name the output pattern accepts in one of six. *)
Definition in_endings : list ustring :=
  [rev (u ".in"); chr_newline :: rev (u ".in");
   rev (u ".input"); chr_newline :: rev (u ".input")].

Definition out_endings : list ustring :=
  [rev (u ".out"); chr_newline :: rev (u ".out");
   rev (u ".ans"); chr_newline :: rev (u ".ans");
   rev (u ".output"); chr_newline :: rev (u ".output")].

(** [p] stands in [paths] at a position before which no existing path has
    its base name, and its base name is not in [bases]. *)
Definition first_of_base (w : World) (bases : gset ustring)
    (paths : list ustring) (p : ustring) : Prop :=
  exists i : nat,
    paths !! i = Some p
    /\ os_path_exists w p = true
    /\ (base_of p ∉ bases)
    /\ forall (j : nat) (q : ustring),
         (j < i)%nat -> paths !! j = Some q ->
         os_path_exists w q = true -> base_of q <> base_of p.

(** [p] is the first existing path of its base name in [paths]. *)
Definition first_listed (w : World) (paths : list ustring) (p : ustring) : Prop :=
  exists i : nat,
    paths !! i = Some p
    /\ os_path_exists w p = true
    /\ forall (j : nat) (q : ustring),
         (j < i)%nat -> paths !! j = Some q ->
         os_path_exists w q = true -> base_of q <> base_of p.

(** The records the two loops of companion discovery can add: none, or one
    under [uniq], and that only when [uniq] is not a key yet. *)
Definition related_new (data : gmap ustring testpoint) (uniq : ustring)
    (nt : gmap ustring testpoint) : Prop :=
  nt = ∅ \/ (data !! uniq = None /\ exists r, nt = {[uniq := r]}).

(** The session of seed [0] with another [json] module: the file system
    and the string hash are the same. *)
Definition session_other_json : World :=
  {| fs_node := fs_node (session 0);
     py_hash := py_hash (session 0);
     json_loads := fun _ => None;
     py_str := fun _ => [] |}.

(** A record whose output is still missing, under the identifier of the
    directory [b] in the session of seed [0]. *)
Definition half_record : gmap ustring testpoint :=
  {[ u "578_foo" := Testpoint (JStr (u "5" ++ [chr_newline])) (JStr output_not_found) ]}.

(** ** Display labels ([format_testpoint_name]) *)

(** The decimal digits [\d] matches in a [str] pattern (Unicode 14, the
    characters with a decimal value): sixty-one blocks of ten code points,
    given by their first code point, and the mathematical digits. *)
Definition decimal_blocks : list N :=
  [0x30; 0x660; 0x6F0; 0x7C0; 0x966; 0x9E6; 0xA66; 0xAE6; 0xB66; 0xBE6;
   0xC66; 0xCE6; 0xD66; 0xDE6; 0xE50; 0xED0; 0xF20; 0x1040; 0x1090; 0x17E0;
   0x1810; 0x1946; 0x19D0; 0x1A80; 0x1A90; 0x1B50; 0x1BB0; 0x1C40; 0x1C50;
   0xA620; 0xA8D0; 0xA900; 0xA9D0; 0xA9F0; 0xAA50; 0xABF0; 0xFF10; 0x104A0;
   0x10D30; 0x11066; 0x110F0; 0x11136; 0x111D0; 0x112F0; 0x11450; 0x114D0;
   0x11650; 0x116C0; 0x11730; 0x118E0; 0x11950; 0x11C50; 0x11D50; 0x11DA0;
   0x16A60; 0x16AC0; 0x16B50; 0x1E140; 0x1E2F0; 0x1E950; 0x1FBF0].

Definition is_decimal (c : N) : bool :=
  existsb (fun b => (b <=? c) && (c <? b + 10)) decimal_blocks
  || ((0x1D7CE <=? c) && (c <=? 0x1D7FF)).

(** [\d+] at the start of [s], greedy: the longest run of digits and what
    follows it. *)
Fixpoint span_digits (s : ustring) : ustring * ustring :=
  match s with
  | [] => ([], [])
  | x :: s' =>
      if is_decimal x
      then let (digits, rest) := span_digits s' in (x :: digits, rest)
      else ([], s)
  end.

(** [re.search(r'(P\d+)', s)]: the group of the leftmost match, if any. *)
Fixpoint search_p_number (s : ustring) : option ustring :=
  match s with
  | [] => None
  | x :: s' =>
      if x =? 80 then
        match span_digits s' with
        | (d :: digits, _) => Some (x :: d :: digits)
        | ([], _) => search_p_number s'
        end
      else search_p_number s'
  end.

(** Where [$] matches: at the end, and before a line feed that ends the
    subject. *)
Definition at_eol (rest : ustring) : bool :=
  match rest with
  | [] => true
  | [x] => x =? chr_newline
  | _ => false
  end.

(** [re.search(r'(\d+)$', s)]: the group of the leftmost match, if any.  A
    run of digits matches only as a whole, since [$] does not match before
    a digit. *)
Fixpoint search_trailing_digits (s : ustring) : option ustring :=
  match s with
  | [] => None
  | _ :: s' =>
      match span_digits s with
      | (d :: digits, rest) =>
          if at_eol rest then Some (d :: digits) else search_trailing_digits s'
      | ([], _) => search_trailing_digits s'
      end
  end.

Definition label_infix : ustring := Eval vm_compute in utf8_literal "_第".
Definition label_suffix : ustring := Eval vm_compute in utf8_literal "个测试点".

Definition format_testpoint_name (file_name : ustring) : ustring :=
  let base_name := (posixpath.splitext file_name).1 in
  match search_p_number base_name with
  | Some p_num =>
      match search_trailing_digits base_name with
      | Some digits => p_num ++ label_infix ++ digits ++ label_suffix
      | None => p_num
      end
  | None => base_name
  end.

(** ** Start-up ([load_saved_testpoints]) *)

(** The order of [str]: by code points, a proper prefix first. *)
Fixpoint ustring_leb (a b : ustring) : bool :=
  match a, b with
  | [], _ => true
  | _ :: _, [] => false
  | x :: a', y :: b' =>
      if x <? y then true else if y <? x then false else ustring_leb a' b'
  end.

Definition ustring_le (a b : ustring) : Prop := ustring_leb a b = true.

Global Instance ustring_le_dec (a b : ustring) : Decision (ustring_le a b).
Proof. unfold ustring_le. apply _. Defined.

(** [sorted(names)] for pairwise distinct names (the keys of a [dict]). *)
Definition sorted (names : list ustring) : list ustring :=
  merge_sort ustring_le names.

(** The identifiers of a mapping, as [sorted(self.testpoint_data.keys())]
    lists them. *)
Definition sorted_keys (data : gmap ustring testpoint) : list ustring :=
  sorted (map fst (map_to_list data)).

(** The loop that fills the list box: a label is added at the end unless the
    list box shows it already. *)
Fixpoint add_labels (names : list ustring) (listbox : list ustring) : list ustring :=
  match names with
  | [] => listbox
  | tp_name :: rest =>
      let display_name := format_testpoint_name tp_name in
      if bool_decide (display_name ∈ listbox)
      then add_labels rest listbox
      else add_labels rest (listbox ++ [display_name])
  end.

Section Startup.
Context (w : World).

(** [load_testpoint_without_popup]: the mapping and the rows of the list
    box.  Whatever is raised is swallowed, with what was done before it
    kept. *)
Definition load_testpoint_without_popup (data : gmap ustring testpoint)
    (listbox : list ustring) (file_path : ustring)
    : gmap ustring testpoint * list ustring :=
  match load_by_type w data file_path with
  | inl _ => (data, listbox)
  | inr data1 =>
      match find_related_testpoints w data1 file_path with
      | inl _ => (data1, listbox)
      | inr data2 => (data2, add_labels (sorted_keys data2) listbox)
      end
  end.

(** The loop of [load_saved_testpoints] over the listed paths. *)
Fixpoint load_saved_loop (testpoint_paths : list ustring)
    (data : gmap ustring testpoint) (cur : option ustring) (listbox : list ustring)
    : gmap ustring testpoint * option ustring * list ustring :=
  match testpoint_paths with
  | [] => (data, cur, listbox)
  | file_path :: rest =>
      if os_path_exists w file_path then
        let (data', listbox') := load_testpoint_without_popup data listbox file_path in
        load_saved_loop rest data' (Some file_path) listbox'
      else load_saved_loop rest data cur listbox
  end.

(** [load_saved_testpoints]: the viewer and the rows of the list box after
    start-up. *)
Definition load_saved_testpoints (v : Viewer) : Viewer * list ustring :=
  let testpoint_paths := load_testpoint_paths w (testpoints_json v) in
  let '(data, cur, listbox) :=
    load_saved_loop testpoint_paths ∅ (current_file v) [] in
  ({| testpoint_data := data;
      current_file := cur;
      testpoints_json := testpoints_json v |}, listbox).

(** Importing the paths of a list one after the other. *)
Definition import_all (v : Viewer) (paths : list ustring) : Viewer :=
  fold_left (fun v file_path => (select_file w v file_path).2) paths v.

End Startup.

(** ** Export ([export_testpoints_to_json]) *)

(** [export_data]: the document written for the items of the mapping. *)
Definition export_record (r : testpoint) : json :=
  JObj [(u "input", input r); (u "output", output r)].

Definition export_data (items : list (ustring * testpoint)) : json :=
  JObj (map (fun kv => (kv.1, export_record kv.2)) items).

(** Whether [json.dump(..., ensure_ascii=False)] can write a value into a
    file opened in UTF-8: every string of it, the keys of its objects
    included, can be encoded.  Numbers, booleans and [null] are written in
    ASCII. *)
Fixpoint json_encodable (v : json) : bool :=
  match v with
  | JStr s => utf8_encodable s
  | JArr items => forallb json_encodable items
  | JObj members =>
      forallb (fun kv => match kv with
                         | (k, x) => utf8_encodable k && json_encodable x
                         end) members
  | _ => true
  end.

(** How an export ends once a file is chosen: the notice that there is
    nothing to export, the document the file holds, or the error dialog.  In
    the last case [json.dump] raised on a string it could not encode and the
    file, opened for writing, is left cut short: it holds no JSON document. *)
Inductive export_outcome : Type :=
| NothingToExport
| Exported (doc : json)
| ExportFailed.

(** [export_testpoints_to_json] on the items of the mapping. *)
Definition export_testpoints_to_json (items : list (ustring * testpoint))
    : export_outcome :=
  match items with
  | [] => NothingToExport
  | _ :: _ =>
      let doc := export_data items in
      if json_encodable doc then Exported doc else ExportFailed
  end.

(** The identifier a record of a JSON mapping gets on import. *)
Definition prefixed_name (base_name name : ustring) : ustring :=
  base_name ++ chr_underscore :: name.

(** ** Notions used to state the further properties *)

(** An extension: a dot followed by characters other than dot and slash. *)
Definition is_extension (ext : ustring) : Prop :=
  ∃ e, ext = chr_dot :: e ∧ (chr_dot ∉ e) ∧ (chr_slash ∉ e).

(** Whether a parsed value is an object (a [dict]). *)
Definition is_dict (v : json) : bool :=
  match v with
  | JObj _ => true
  | _ => false
  end.

(** The identifier of the test case of index [i]:
    [f"{base_name}_测试点_{i+1}"]. *)
Definition test_case_name (base_name : ustring) (i : N) : ustring :=
  base_name ++ chr_underscore :: testpoint_prefix ++ str_of_N (i + 1).

(** The rows of the list box are pairwise distinct and each is the label of
    a record of the mapping. *)
Definition listed (data : gmap ustring testpoint) (listbox : list ustring) : Prop :=
  NoDup listbox
  ∧ ∀ l, l ∈ listbox → ∃ k, is_Some (data !! k) ∧ format_testpoint_name k = l.

(** A field that holds a string without carriage return. *)
Definition no_cr_field (v : json) : Prop :=
  ∃ s, v = JStr s ∧ (chr_cr ∉ s).

(** ** Further sample values *)

(** A viewer that holds [half_record] and remembers no path. *)
Definition viewer_with_half_record : Viewer :=
  {| testpoint_data := half_record; current_file := None; testpoints_json := [] |}.

(** A viewer that remembers three of the sample files. *)
Definition viewer_remembering : Viewer :=
  {| testpoint_data := ∅;
     current_file := None;
     testpoints_json := [u "d/x.in"; u "j/list.json"; u "a/foo.in"] |}.

(** A [testCases] array of two objects, the second without output. *)
Definition two_cases : list json :=
  [ JObj [(u "input", JStr (u "1")); (u "output", JStr (u "2"))];
    JObj [(u "input", JStr (u "3"))] ].


(** ** The session: start and close *)

Section Session.
Context (w : World).

(** The end of [__init__]: an empty mapping, no current file, then
    [load_saved_testpoints] on the stored path list. *)
Definition start_up (stored : list ustring) : Viewer * list ustring :=
  load_saved_testpoints w
    {| testpoint_data := ∅; current_file := None; testpoints_json := stored |}.

(** [on_closing]: the path list is saved before the window is destroyed. *)
Definition on_closing (v : Viewer) : Viewer := save_testpoints_data w v.

End Session.

(** ** Deleting testpoints ([delete_selected_testpoints])

    The search below walks the keys of the mapping in the order of the
    [dict], so the mapping is taken here with its insertion order, as a list
    of items with pairwise distinct keys. *)

(** [del m[key]] for a key of [m]. *)
Fixpoint dict_del {V} (m : list (ustring * V)) (key : ustring) : list (ustring * V) :=
  match m with
  | [] => []
  | (k, v) :: m' => if bool_decide (k = key) then m' else (k, v) :: dict_del m' key
  end.

(** [listbox.get(index)]: the row, or the empty string past the end. *)
Definition listbox_get (listbox : list ustring) (index : nat) : ustring :=
  default [] (listbox !! index).

(** The search [for tp_name in list(self.testpoint_data.keys()): ... break]:
    the first identifier whose label is the row. *)
Fixpoint find_label (data : list (ustring * testpoint)) (display_name : ustring)
    : option ustring :=
  match data with
  | [] => None
  | (tp_name, _) :: rest =>
      if bool_decide (format_testpoint_name tp_name = display_name)
      then Some tp_name
      else find_label rest display_name
  end.

Global Instance ge_dec (a b : nat) : Decision (ge a b).
Proof. unfold ge. apply _. Defined.

Global Instance ge_total : Total ge.
Proof. intros x y. unfold ge. lia. Qed.

Global Instance ge_trans : Transitive ge.
Proof. intros x y z. unfold ge. lia. Qed.

(** [sorted(selection, reverse=True)]. *)
Definition sorted_reverse (selection : list nat) : list nat :=
  merge_sort ge selection.

(** The loop over the selected rows: the mapping and [to_delete]. *)
Fixpoint delete_loop (indices : list nat) (listbox : list ustring)
    (data : list (ustring * testpoint)) (to_delete : list nat)
    : list (ustring * testpoint) * list nat :=
  match indices with
  | [] => (data, to_delete)
  | index :: rest =>
      let display_name := listbox_get listbox index in
      match find_label data display_name with
      | Some tp_name =>
          delete_loop rest listbox (dict_del data tp_name) (to_delete ++ [index])
      | None => delete_loop rest listbox data to_delete
      end
  end.

(** [delete_selected_testpoints] once the deletion is confirmed: the
    mapping and the rows of the list box. *)
Definition delete_selected_testpoints (data : list (ustring * testpoint))
    (listbox : list ustring) (selection : list nat)
    : list (ustring * testpoint) * list ustring :=
  let (data', to_delete) := delete_loop (sorted_reverse selection) listbox data [] in
  (data', fold_left (fun rows index => delete index rows) to_delete listbox).

(** A list box of three rows over four records: the two test cases of
    [cases.json] share a label. *)
Definition sample_items : list (ustring * testpoint) :=
  [ (u "578_foo", Testpoint (JStr (u "5")) (JStr (u "25")));
    (u "cases.json_" ++ testpoint_prefix ++ u "1", Testpoint (JStr (u "1")) (JStr (u "2")));
    (u "cases.json_" ++ testpoint_prefix ++ u "2", Testpoint (JStr (u "3")) (JStr []));
    (u "12_P1001", Testpoint (JStr (u "7")) (JStr (u "8"))) ].

Definition sample_rows : list ustring :=
  [u "578_foo"; u "cases"; format_testpoint_name (u "12_P1001")].

(** * Properties *)

Import re.

(** ** Decoding *)


Lemma utf8_step_len x data :
  match codecs.utf8_step (x :: data) with
  | codecs.Char _ len | codecs.Bad len => (1 <= len)%nat
  end.
Proof.
  unfold codecs.utf8_step.
  repeat match goal with
         | |- context [if ?b then _ else _] => destruct b
         | |- context [match ?l with [] => _ | _ :: _ => _ end] => destruct l
         end; simpl; lia.
Qed.

Lemma utf8_loop_fuel_any mode n m data :
  (length data <= n)%nat → (length data <= m)%nat →
  codecs.utf8_loop n mode data = codecs.utf8_loop m mode data.
Proof.
  revert m data. induction n as [|n IH]; intros m data Hn Hm.
  - destruct data; [by destruct m | simpl in Hn; lia].
  - destruct data as [|x data]; [by destruct m|].
    destruct m as [|m]; [simpl in Hm; lia|].
    cbn [codecs.utf8_loop]. simpl in Hn, Hm.
    pose proof (utf8_step_len x data) as Hlen.
    assert (Hdrop : ∀ len, (1 <= len)%nat →
              codecs.utf8_loop n mode (drop len (x :: data))
              = codecs.utf8_loop m mode (drop len (x :: data))).
    { intros len Hl. apply IH; rewrite length_drop; simpl; lia. }
    destruct (codecs.utf8_step (x :: data)) as [c len|len];
      rewrite Hdrop by done; reflexivity.
Qed.

(** [length data] steps decode all of [data]: more fuel changes nothing. *)
Lemma utf8_loop_fuel mode n data :
  (length data <= n)%nat →
  codecs.utf8_loop n mode data = codecs.utf8_loop (length data) mode data.
Proof. intros Hn. by apply utf8_loop_fuel_any. Qed.

Lemma utf8_loop_ignore n data :
  ∃ s, codecs.utf8_loop n codecs.ignore data = inr s.
Proof.
  revert data. induction n as [|n IH]; intros [|x data];
    cbn [codecs.utf8_loop]; eauto.
  destruct (codecs.utf8_step (x :: data)) as [c len|len].
  - destruct (IH (drop len (x :: data))) as [s ->]. eauto.
  - apply IH.
Qed.

Lemma utf_8_decode_ignore data :
  ∃ s, codecs.utf_8_decode codecs.ignore data = inr s.
Proof. apply utf8_loop_ignore. Qed.

Section Reads.
Context (w : World).

Lemma read_text_ignore p : is_decode_error (read_text w codecs.ignore p) = false.
Proof.
  unfold read_text. destruct (fs_node w p) as [[data| |]|]; try done.
  by destruct (utf_8_decode_ignore data) as [s ->].
Qed.

Lemma read_text_ignore_inl p e :
  read_text w codecs.ignore p = inl e → e ≠ UnicodeDecodeError.
Proof.
  intros H ->. pose proof (read_text_ignore p) as Hn. by rewrite H in Hn.
Qed.

Lemma load_text_no_decode_error data p :
  is_decode_error (load_text_testpoints w data p) = false.
Proof.
  unfold load_text_testpoints.
  destruct (read_text w codecs.ignore p) as [e|content] eqn:Hr.
  { pose proof (read_text_ignore p) as Hn. by rewrite Hr in Hn. }
  destruct (data !! _); [done|].
  repeat case_match; try done.
  all: match goal with
       | H : read_text w codecs.ignore ?q = inl ?e |- _ =>
           pose proof (read_text_ignore q) as Hn; by rewrite H in Hn
       end.
Qed.

Lemma related_inputs_no_decode_error data dir_path dir_hash imap omap keys pn nt :
  is_decode_error
    (related_inputs w data dir_path dir_hash imap omap keys pn nt) = false.
Proof.
  revert pn nt. induction keys as [|k keys IH]; intros pn nt; simpl; [done|].
  case_match; [apply IH|].
  destruct (read_text w codecs.ignore (join dir_path _)) as [e|ic] eqn:Hr.
  { pose proof (read_text_ignore (join dir_path (dict_get imap k []))) as Hn.
    by rewrite Hr in Hn. }
  destruct (dict_lookup omap k) as [f|].
  - destruct (read_text w codecs.ignore (join dir_path f)) as [e|oc] eqn:Ho.
    + pose proof (read_text_ignore (join dir_path f)) as Hn. by rewrite Ho in Hn.
    + apply IH.
  - apply IH.
Qed.

Lemma related_outputs_no_decode_error data dir_path dir_hash imap omap keys pn nt :
  is_decode_error
    (related_outputs w data dir_path dir_hash imap omap keys pn nt) = false.
Proof.
  revert nt. induction keys as [|k keys IH]; intros nt; simpl; [done|].
  case_match; [apply IH|]. case_match; [apply IH|].
  destruct (read_text w codecs.ignore (join dir_path _)) as [e|oc] eqn:Hr.
  { pose proof (read_text_ignore (join dir_path (dict_get omap k []))) as Hn.
    by rewrite Hr in Hn. }
  apply IH.
Qed.

Lemma find_related_no_decode_error data p :
  is_decode_error (find_related_testpoints w data p) = false.
Proof.
  unfold find_related_testpoints.
  destruct (os_listdir w (dirname p)) as [e|files] eqn:Hl.
  { unfold os_listdir in Hl. by repeat case_match; simplify_eq. }
  cbv zeta.
  match goal with
  | |- context [related_inputs w ?d ?dp ?dh ?im ?om ?ks ?pn ?nt] =>
      pose proof (related_inputs_no_decode_error d dp dh im om ks pn nt) as Hi;
      destruct (related_inputs w d dp dh im om ks pn nt) as [e|[pn' nt']]
  end; [done|].
  match goal with
  | |- context [related_outputs w ?d ?dp ?dh ?im ?om ?ks ?pn ?nt] =>
      pose proof (related_outputs_no_decode_error d dp dh im om ks pn nt) as Ho;
      destruct (related_outputs w d dp dh im om ks pn nt) as [e|nt'']
  end; done.
Qed.

End Reads.

(** C10: plain-text and companion-file reads never fail on undecodable
    bytes.  Decoding with errors ignored yields a string for every byte
    content, so neither a text read, nor the plain-text loader, nor
    companion discovery ends in a decoding error. *)
Theorem text_reads_ignore_decode_errors (w : World) (data : gmap ustring testpoint)
    (file_path : ustring) (content : list byte) :
  (∃ s, codecs.utf_8_decode codecs.ignore content = inr s)
  ∧ (∀ q bytes, fs_node w q = Some (RegFile bytes) →
                ∃ s, read_text w codecs.ignore q = inr s)
  ∧ is_decode_error (read_text w codecs.ignore file_path) = false
  ∧ is_decode_error (load_text_testpoints w data file_path) = false
  ∧ is_decode_error (find_related_testpoints w data file_path) = false.
Proof.
  split_and!.
  - apply utf_8_decode_ignore.
  - intros q bytes Hq. unfold read_text. rewrite Hq.
    destruct (utf_8_decode_ignore bytes) as [s ->]. eauto.
  - apply read_text_ignore.
  - apply load_text_no_decode_error.
  - apply find_related_no_decode_error.
Qed.

(** Strict decoding, which the JSON loader uses, does fail on such bytes. *)
Example strict_decoding_fails :
  codecs.utf_8_decode codecs.strict [x41; xff]%byte = inl UnicodeDecodeError
  ∧ codecs.utf_8_decode codecs.ignore [x41; xff]%byte = inr [65%N].
Proof. split; reflexivity. Qed.

(** ** The matcher against a declarative reading of the patterns *)


Lemma run_sound {A} r : ∀ s (k : ustring → option A) a,
  run r s k = Some a → ∃ rest, sem r s rest ∧ k rest = Some a.
Proof.
  induction r as [|c| |r1 IH1 r2 IH2|r1 IH1 r2 IH2|]; intros s k a; simpl.
  - eauto.
  - destruct s as [|x s]; [done|].
    destruct (lit_ignorecase c x) eqn:Hc; [|done]. eauto.
  - induction s as [|x s IHs].
    + intros Hk. exists []. split; [|done]. exists []. split; [done|]. apply not_elem_of_nil.
    + destruct (x =? chr_newline) eqn:Hx.
      * intros Hk. exists (x :: s). split; [|done].
        exists []. split; [done|]. apply not_elem_of_nil.
      * match goal with |- context [match ?t with Some _ => _ | None => _ end] =>
          destruct t as [res|] eqn:Hstar end.
        -- intros [= <-]. destruct (IHs eq_refl) as (rest & (pre & -> & Hpre) & Hk).
           exists rest. split; [|done]. exists (x :: pre). split; [done|].
           apply not_elem_of_cons. split; [|done].
           apply N.eqb_neq in Hx. congruence.
        -- intros Hk. exists (x :: s). split; [|done].
           exists []. split; [done|]. apply not_elem_of_nil.
  - intros H. apply IH1 in H as (mid & H1 & H). apply IH2 in H as (rest & H2 & H).
    eauto.
  - destruct (run r1 s k) as [res|] eqn:H1.
    + intros [= <-]. apply IH1 in H1 as (rest & ? & ?). eauto.
    + intros H. apply IH2 in H as (rest & ? & ?). eauto.
  - destruct s as [|x [|y s]]; [eauto | | done].
    destruct (x =? chr_newline) eqn:Hx; [|done].
    apply N.eqb_eq in Hx as ->. eauto.
Qed.

Lemma run_complete {A} r : ∀ s rest (k : ustring → option A),
  sem r s rest → is_Some (k rest) → is_Some (run r s k).
Proof.
  induction r as [|c| |r1 IH1 r2 IH2|r1 IH1 r2 IH2|]; intros s rest k; simpl.
  - by intros ->.
  - intros (x & -> & Hx). by rewrite Hx.
  - intros (pre & -> & Hpre) Hk.
    induction pre as [|x pre IHp]; simpl.
    + destruct rest as [|y rest]; [done|].
      destruct (y =? chr_newline); [done|].
      match goal with |- context [match ?t with Some _ => _ | None => _ end] =>
        destruct t end; [eauto | done].
    + apply not_elem_of_cons in Hpre as [Hx Hpre].
      destruct (N.eqb_spec x chr_newline) as [->|_]; [done|].
      destruct (IHp Hpre) as [res Hres].
      rewrite Hres. eauto.
  - intros (mid & H1 & H2) Hk. eapply IH1; [done|]. by eapply IH2.
  - intros [H1 | H2] Hk.
    + destruct (IH1 _ _ _ H1 Hk) as [res ->]. eauto.
    + destruct (run r1 s k); [eauto|]. by eapply IH2.
  - intros (-> & [-> | ->]); [done|]. by rewrite N.eqb_refl.
Qed.

Lemma matches_sem r s : matches r s = true ↔ ∃ rest, sem r s rest.
Proof.
  unfold matches. rewrite bool_decide_eq_true. split.
  - intros [a Ha]. apply run_sound in Ha as (rest & ? & _). eauto.
  - intros [rest H]. by eapply run_complete.
Qed.


Lemma fold_char_cases x :
  (65 <= x <= 90 ∧ fold_char x = x + 32)
  ∨ ((x = 0x130 ∨ x = 0x131) ∧ fold_char x = 105)
  ∨ (x = 0x17F ∧ fold_char x = 115)
  ∨ (¬ (65 <= x <= 90) ∧ x ≠ 0x130 ∧ x ≠ 0x131 ∧ x ≠ 0x17F ∧ fold_char x = x).
Proof.
  unfold fold_char.
  destruct (N.leb_spec 65 x), (N.leb_spec x 90), (N.eqb_spec x 0x130),
    (N.eqb_spec x 0x131), (N.eqb_spec x 0x17F); simpl; lia.
Qed.

Lemma lit_ignorecase_fold c x :
  fold_char c = c → lit_ignorecase c x = true ↔ fold_char x = c.
Proof.
  intros Hc. unfold lit_ignorecase.
  repeat (rewrite orb_true_iff || rewrite andb_true_iff
          || rewrite N.eqb_eq || rewrite N.leb_le).
  pose proof (fold_char_cases c). pose proof (fold_char_cases x). lia.
Qed.

Lemma sem_word w : Forall (fun c => fold_char c = c) w →
  ∀ s rest, sem (word w) s rest ↔ ∃ e, s = e ++ rest ∧ map fold_char e = w.
Proof.
  induction 1 as [|c w Hc Hw IH]; intros s rest; simpl.
  - split.
    + intros ->. by exists [].
    + intros (e & -> & He). by apply map_eq_nil in He as ->.
  - split.
    + intros (mid & (x & -> & Hx) & Hmid). apply IH in Hmid as (e & -> & <-).
      exists (x :: e). split; [done|]. simpl. f_equal.
      by apply lit_ignorecase_fold.
    + intros (e & -> & He). destruct e as [|x e]; [done|].
      injection He as Hx He. exists (e ++ rest). split.
      * exists x. split; [done|]. by apply lit_ignorecase_fold.
      * apply IH. eauto.
Qed.

Lemma sem_dot_word w s rest :
  Forall (fun c => fold_char c = c) w →
  sem (Cat (Lit chr_dot) (Cat (word w) Eol)) s rest ↔
  ∃ e, s = e ++ rest ∧ is_eol_rest rest ∧ map fold_char e = chr_dot :: w.
Proof.
  intros Hw. cbn [sem]. split.
  - intros (mid & (x & Hs & Hx) & mid2 & Hword & Hmid & Hrest).
    apply lit_ignorecase_fold in Hx; [|done].
    apply (sem_word w Hw) in Hword as (e & He & Hf). subst.
    exists (x :: e). cbn [map]. by rewrite Hx.
  - intros (e & Hs & Hrest & He). destruct e as [|x e]; [done|].
    cbn [map] in He. injection He as Hx He. subst s.
    exists (e ++ rest). split.
    + exists x. split; [done|]. by apply lit_ignorecase_fold.
    + exists rest. split; [|done]. apply (sem_word w Hw). eauto.
Qed.

Lemma sem_input_ext s rest :
  sem input_ext_re s rest ↔ ∃ e, s = e ++ rest ∧ is_eol_rest rest ∧ in_ext e.
Proof.
  pose proof (sem_dot_word (u "in") s rest ltac:(repeat constructor)) as H1.
  pose proof (sem_dot_word (u "input") s rest ltac:(repeat constructor)) as H2.
  unfold input_ext_re, in_ext. cbn [sem] in *. split.
  - intros (mid & Hdot & mid2 & [Hw | Hw] & Heol).
    + destruct (proj1 H1) as (e & ? & ? & ?); [by eauto|]. exists e. by eauto.
    + destruct (proj1 H2) as (e & ? & ? & ?); [by eauto|]. exists e. by eauto.
  - intros (e & Hs & Hrest & [He | He]).
    + destruct (proj2 H1) as (mid & ? & mid2 & ? & ?); [by eauto|]. by eauto 10.
    + destruct (proj2 H2) as (mid & ? & mid2 & ? & ?); [by eauto|]. by eauto 10.
Qed.

Lemma sem_output_ext s rest :
  sem output_ext_re s rest ↔ ∃ e, s = e ++ rest ∧ is_eol_rest rest ∧ out_ext e.
Proof.
  pose proof (sem_dot_word (u "out") s rest ltac:(repeat constructor)) as H1.
  pose proof (sem_dot_word (u "ans") s rest ltac:(repeat constructor)) as H2.
  pose proof (sem_dot_word (u "output") s rest ltac:(repeat constructor)) as H3.
  unfold output_ext_re, out_ext. cbn [sem] in *. split.
  - intros (mid & Hdot & mid2 & [Hw | [Hw | Hw]] & Heol).
    + destruct (proj1 H1) as (e & ? & ? & ?); [by eauto|]. exists e. by eauto.
    + destruct (proj1 H2) as (e & ? & ? & ?); [by eauto|]. exists e. by eauto.
    + destruct (proj1 H3) as (e & ? & ? & ?); [by eauto|]. exists e. by eauto.
  - intros (e & Hs & Hrest & [He | [He | He]]).
    + destruct (proj2 H1) as (mid & ? & mid2 & ? & ?); [by eauto|]. by eauto 10.
    + destruct (proj2 H2) as (mid & ? & mid2 & ? & ?); [by eauto|]. by eauto 10.
    + destruct (proj2 H3) as (mid & ? & mid2 & ? & ?); [by eauto|]. by eauto 10.
Qed.

(** The name patterns are [.*] followed by the extension patterns. *)
Lemma input_name_re_eq : input_name_re = Cat AnyStar input_ext_re.
Proof. reflexivity. Qed.

Lemma output_name_re_eq : output_name_re = Cat AnyStar output_ext_re.
Proof. reflexivity. Qed.

Lemma is_input_name_iff s :
  is_input_name s = true ↔
  ∃ pre e rest, s = pre ++ e ++ rest ∧ (chr_newline ∉ pre) ∧ is_eol_rest rest
                ∧ in_ext e.
Proof.
  unfold is_input_name. rewrite matches_sem, input_name_re_eq. cbn [sem]. split.
  - intros (rest & mid & (pre & -> & Hpre) & Hext).
    apply sem_input_ext in Hext as (e & -> & ? & ?). by exists pre, e, rest.
  - intros (pre & e & rest & -> & ? & ? & ?). exists rest, (e ++ rest). split.
    + by exists pre.
    + apply sem_input_ext. by exists e.
Qed.

Lemma is_output_name_iff s :
  is_output_name s = true ↔
  ∃ pre e rest, s = pre ++ e ++ rest ∧ (chr_newline ∉ pre) ∧ is_eol_rest rest
                ∧ out_ext e.
Proof.
  unfold is_output_name. rewrite matches_sem, output_name_re_eq. cbn [sem]. split.
  - intros (rest & mid & (pre & -> & Hpre) & Hext).
    apply sem_output_ext in Hext as (e & -> & ? & ?). by exists pre, e, rest.
  - intros (pre & e & rest & -> & ? & ? & ?). exists rest, (e ++ rest). split.
    + by exists pre.
    + apply sem_output_ext. by exists e.
Qed.


Lemma folded_rev_app a b : folded_rev (a ++ b) = folded_rev b ++ folded_rev a.
Proof. unfold folded_rev. by rewrite map_app, rev_app_distr. Qed.

Lemma folded_rev_cons x a : folded_rev (x :: a) = folded_rev a ++ [fold_char x].
Proof. reflexivity. Qed.

Lemma folded_rev_known e w : map fold_char e = w → folded_rev e = rev w.
Proof. unfold folded_rev. by intros ->. Qed.

Lemma in_ext_ending e rest :
  in_ext e → is_eol_rest rest → folded_rev rest ++ folded_rev e ∈ in_endings.
Proof.
  intros [He | He] [-> | ->]; rewrite (folded_rev_known _ _ He); simpl;
    unfold in_endings; set_solver.
Qed.

Lemma out_ext_ending e rest :
  out_ext e → is_eol_rest rest → folded_rev rest ++ folded_rev e ∈ out_endings.
Proof.
  intros [He | [He | He]] [-> | ->]; rewrite (folded_rev_known _ _ He); simpl;
    unfold out_endings; set_solver.
Qed.

Lemma is_input_name_ending s :
  is_input_name s = true → ∃ a x, folded_rev s = a ++ x ∧ a ∈ in_endings.
Proof.
  intros (pre & e & rest & -> & _ & Hrest & He)%is_input_name_iff.
  exists (folded_rev rest ++ folded_rev e), (folded_rev pre). split.
  - by rewrite !folded_rev_app.
  - by apply in_ext_ending.
Qed.

Lemma is_output_name_ending s :
  is_output_name s = true → ∃ a x, folded_rev s = a ++ x ∧ a ∈ out_endings.
Proof.
  intros (pre & e & rest & -> & _ & Hrest & He)%is_output_name_iff.
  exists (folded_rev rest ++ folded_rev e), (folded_rev pre). split.
  - by rewrite !folded_rev_app.
  - by apply out_ext_ending.
Qed.

Ltac split_ending H :=
  repeat (apply elem_of_cons in H as [-> | H]); [..| by apply elem_of_nil in H].

(** No name is both an input name and an output name. *)
Lemma input_name_not_output s :
  is_input_name s = true → is_output_name s = false.
Proof.
  intros (a & x & Hs & Ha)%is_input_name_ending.
  destruct (is_output_name s) eqn:Hout; [|done].
  apply is_output_name_ending in Hout as (b & y & Hs' & Hb).
  rewrite Hs in Hs'. clear Hs.
  unfold in_endings in Ha. unfold out_endings in Hb.
  split_ending Ha; split_ending Hb; discriminate Hs'.
Qed.

(** A name made of a prefix without line feed and an input extension is an
    input name. *)
Lemma is_input_name_ext pre e :
  chr_newline ∉ pre → in_ext e → is_input_name (pre ++ e) = true.
Proof.
  intros Hpre He. apply is_input_name_iff. exists pre, e, [].
  rewrite app_nil_r. split_and!; auto. by left.
Qed.

Lemma run_input_ext_exact e : in_ext e → run input_ext_re e Some = Some [].
Proof.
  intros He.
  destruct (run_complete input_ext_re e [] Some) as [r Hr]; [|done|].
  { apply sem_input_ext. exists e. rewrite app_nil_r. split_and!; auto. by left. }
  rewrite Hr. f_equal.
  apply run_sound in Hr as (rest & Hsem & [= <-]).
  apply sem_input_ext in Hsem as (e' & Hs & [-> | ->] & He'); [done|].
  exfalso. apply (f_equal folded_rev) in Hs. rewrite folded_rev_app in Hs.
  destruct He as [He | He], He' as [He' | He'];
    rewrite (folded_rev_known _ _ He), (folded_rev_known _ _ He') in Hs;
    discriminate Hs.
Qed.

Lemma run_input_ext_none x root e :
  in_ext e → run input_ext_re (x :: root ++ e) Some = None.
Proof.
  intros He. destruct (run input_ext_re (x :: root ++ e) Some) as [r|] eqn:Hr; [|done].
  exfalso. apply run_sound in Hr as (rest & Hsem & _).
  apply sem_input_ext in Hsem as (e' & Hs & Hrest & He').
  apply (f_equal folded_rev) in Hs.
  rewrite folded_rev_cons, !folded_rev_app, <- app_assoc in Hs.
  destruct (folded_rev root ++ [fold_char x]) as [|z zs] eqn:Hz.
  { by destruct (folded_rev root). }
  destruct He as [He | He], He' as [He' | He'], Hrest as [-> | ->];
    rewrite (folded_rev_known _ _ He), (folded_rev_known _ _ He') in Hs;
    discriminate Hs.
Qed.

Lemma sub_from_skip r repl s :
  run r [] Some = None → sub_from r repl s (length s) = [].
Proof.
  intros Hr. induction s as [|x s IH]; simpl; [by rewrite Hr | done].
Qed.

(** Replacing an input extension at the end of a path. *)
Lemma sub_input_ext repl root e :
  in_ext e → sub input_ext_re repl (root ++ e) = root ++ repl.
Proof.
  intros He. unfold re.sub. induction root as [|x root IH].
  - cbn [app]. destruct e as [|x e]; [by destruct He|].
    cbn [sub_from]. rewrite (run_input_ext_exact _ He).
    cbn [length]. rewrite Nat.sub_0_r.
    rewrite sub_from_skip by done. by rewrite app_nil_r.
  - cbn [app sub_from]. rewrite (run_input_ext_none x root e He).
    by rewrite IH.
Qed.


(** ** The saved path list *)

Section SavedPaths.
Context (w : World).

Lemma first_of_base_nil bases p : ¬ first_of_base w bases [] p.
Proof. intros (i & Hi & _). by rewrite lookup_nil in Hi. Qed.

Lemma first_of_base_skip bases path rest p :
  os_path_exists w path = false ∨ base_of path ∈ bases →
  first_of_base w bases (path :: rest) p ↔ first_of_base w bases rest p.
Proof.
  intros Hskip. split.
  - intros ([|i] & Hi & He & Hb & Hfirst); simpl in Hi.
    + injection Hi as <-. destruct Hskip; [congruence | done].
    + exists i. split_and!; auto.
      intros j q Hj Hq. apply (Hfirst (S j)); auto. lia.
  - intros (i & Hi & He & Hb & Hfirst). exists (S i). split_and!; auto.
    intros [|j] q Hj Hq Hqe; simpl in Hq.
    + injection Hq as <-. destruct Hskip as [? | Hin]; [congruence|].
      intros Heq. by rewrite Heq in Hin.
    + apply (Hfirst j); auto. lia.
Qed.

Lemma first_of_base_keep bases path rest p :
  os_path_exists w path = true → base_of path ∉ bases →
  first_of_base w bases (path :: rest) p ↔
  p = path ∨ first_of_base w ({[base_of path]} ∪ bases) rest p.
Proof.
  intros Hex Hnew. split.
  - intros ([|i] & Hi & He & Hb & Hfirst); simpl in Hi.
    + injection Hi as <-. by left.
    + right. exists i. split_and!; auto.
      * intros Hu. apply elem_of_union in Hu as [Hu | Hu]; [|done].
        apply elem_of_singleton in Hu.
        apply (Hfirst 0%nat path); auto. lia.
      * intros j q Hj Hq. apply (Hfirst (S j)); auto. lia.
  - intros [-> | (i & Hi & He & Hb & Hfirst)].
    + exists 0%nat. split_and!; auto. intros j q Hj. lia.
    + exists (S i). split_and!; auto; [set_solver|].
      intros [|j] q Hj Hq Hqe; simpl in Hq.
      * injection Hq as <-. set_solver.
      * apply (Hfirst j); auto. lia.
Qed.

Lemma unique_loop_app paths acc bases :
  ∃ kept, unique_loop w paths acc bases = acc ++ kept
          ∧ sublist kept paths
          ∧ (∀ p, p ∈ kept ↔ first_of_base w bases paths p)
          ∧ NoDup (map base_of kept).
Proof.
  revert acc bases. induction paths as [|path rest IH]; intros acc bases; simpl.
  - exists []. rewrite app_nil_r. split_and!; auto using NoDup_nil_2.
    intros p. split; [by intros ?%elem_of_nil | by intros ?%first_of_base_nil].
  - destruct (os_path_exists w path) eqn:Hex; [case_bool_decide as Hin|].
    + destruct (IH acc bases) as (kept & -> & Hsub & Hchar & Hnd).
      exists kept. split_and!; auto.
      * by apply sublist_cons.
      * intros p. rewrite first_of_base_skip by auto. apply Hchar.
    + destruct (IH (acc ++ [path]) ({[base_of path]} ∪ bases))
        as (kept & -> & Hsub & Hchar & Hnd).
      exists (path :: kept). rewrite <- app_assoc. simpl. split_and!; auto.
      * by apply sublist_skip.
      * intros p. rewrite first_of_base_keep by auto.
        rewrite elem_of_cons, Hchar. done.
      * apply NoDup_cons. split; auto.
        intros Hin'. apply list_elem_of_fmap in Hin' as (q & Hq1 & Hq2).
        pose proof (proj1 (Hchar q) Hq2) as (i & Hi & He & Hb & Hf).
        apply Hb. rewrite <- Hq1. apply elem_of_union_l. by apply elem_of_singleton.
    + destruct (IH acc bases) as (kept & -> & Hsub & Hchar & Hnd).
      exists kept. split_and!; auto.
      * by apply sublist_cons.
      * intros p. rewrite first_of_base_skip by auto. apply Hchar.
Qed.

End SavedPaths.

(** The kept paths of a list: the first existing path of each base name. *)
Lemma unique_paths_elem (w : World) (paths : list ustring) (p : ustring) :
  p ∈ unique_loop w paths [] ∅ ↔ first_listed w paths p.
Proof.
  destruct (unique_loop_app w paths [] ∅) as (kept & -> & _ & Hchar & _).
  cbn [app]. rewrite Hchar. unfold first_of_base, first_listed. split.
  - intros (i & ? & ? & _ & ?). eauto.
  - intros (i & ? & ? & ?). exists i. split_and!; auto. apply not_elem_of_empty.
Qed.

Lemma forallb_sublist {A} (f : A → bool) (l1 l2 : list A) :
  l1 `sublist_of` l2 → forallb f l2 = true → forallb f l1 = true.
Proof.
  rewrite !forallb_forall. intros Hsub H x Hx%list_elem_of_In.
  apply H, list_elem_of_In. by eapply elem_of_sublist.
Qed.

Section SavedPathsAgain.
Context (w : World).

Lemma unique_paths_sublist paths : unique_loop w paths [] ∅ `sublist_of` paths.
Proof. by destruct (unique_loop_app w paths [] ∅) as (kept & -> & ? & _). Qed.

(** A write goes through when every listed path can be encoded; otherwise
    the list may be lost. *)
Lemma save_testpoint_paths_written paths :
  forallb utf8_encodable paths = true →
  save_testpoint_paths w paths = unique_loop w paths [] ∅.
Proof.
  intros Henc. unfold save_testpoint_paths.
  by rewrite (forallb_sublist _ _ _ (unique_paths_sublist paths) Henc).
Qed.

Lemma save_testpoint_paths_cases paths :
  save_testpoint_paths w paths = unique_loop w paths [] ∅
  ∨ save_testpoint_paths w paths = [].
Proof. unfold save_testpoint_paths. destruct (forallb _ _); auto. Qed.

Lemma save_testpoint_paths_elem paths p :
  p ∈ save_testpoint_paths w paths → first_listed w paths p.
Proof.
  destruct (save_testpoint_paths_cases paths) as [-> | ->].
  - by intros ?%unique_paths_elem.
  - by intros ?%elem_of_nil.
Qed.

Lemma first_listed_elem paths p :
  first_listed w paths p → p ∈ paths ∧ os_path_exists w p = true.
Proof.
  intros (i & Hi & Hex & _). split; [by eapply list_elem_of_lookup_2 | done].
Qed.

Lemma is_duplicate_false p paths :
  is_duplicate p paths = false ↔ ∀ q, q ∈ paths → base_of p ≠ base_of q.
Proof.
  unfold is_duplicate. induction paths as [|q paths IH]; simpl.
  - split; [|done]. intros _ q Hq. by apply elem_of_nil in Hq.
  - rewrite orb_false_iff, IH, bool_decide_eq_false. split.
    + intros [Hq Hall] q' [-> | Hq']%elem_of_cons; auto.
    + intros Hall. split; [apply Hall; left | intros q' Hq'; apply Hall; by right].
Qed.

(** A path appended to a list: it is the first of its base name when it
    exists and no listed path has its base name. *)
Lemma first_listed_snoc paths c p :
  first_listed w (paths ++ [c]) p ↔
  first_listed w paths p
  ∨ (p = c ∧ os_path_exists w c = true
     ∧ ∀ q, q ∈ paths → os_path_exists w q = true → base_of q ≠ base_of c).
Proof.
  split.
  - intros (i & Hi & Hex & Hfirst).
    destruct (decide (i < length paths)%nat) as [Hlt | Hge].
    + left. exists i. rewrite lookup_app_l in Hi by done. split_and!; auto.
      intros j q Hj Hq. apply (Hfirst j q Hj). rewrite lookup_app_l by lia. done.
    + right. rewrite lookup_app_r in Hi by lia.
      destruct (i - length paths)%nat as [|n] eqn:Hn; [|by destruct n].
      injection Hi as <-. split_and!; auto.
      intros q [j Hq]%list_elem_of_lookup_1 Hqe.
      apply (Hfirst j q); [|by rewrite lookup_app_l by by eapply lookup_lt_Some|done].
      apply lookup_lt_Some in Hq. lia.
  - intros [(i & Hi & Hex & Hfirst) | (-> & Hex & Hfirst)].
    + exists i. pose proof (lookup_lt_Some _ _ _ Hi) as Hlt.
      rewrite lookup_app_l by done. split_and!; auto.
      intros j q Hj Hq. apply (Hfirst j q Hj). by rewrite lookup_app_l in Hq by lia.
    + exists (length paths). rewrite lookup_app_r, Nat.sub_diag by done.
      split_and!; auto.
      intros j q Hj Hq Hqe. rewrite lookup_app_l in Hq by done.
      apply Hfirst; [by eapply list_elem_of_lookup_2 | done].
Qed.

(** A path that exists and shares its base name with no listed path is
    kept when appended, provided the write goes through. *)
Lemma save_keeps_new_path paths p :
  os_path_exists w p = true → is_duplicate p paths = false →
  forallb utf8_encodable (paths ++ [p]) = true →
  p ∈ save_testpoint_paths w (paths ++ [p]).
Proof.
  intros Hex Hdup Henc. rewrite save_testpoint_paths_written by done.
  apply unique_paths_elem, first_listed_snoc. right. split_and!; auto.
  intros q Hq _ Heq. by apply (proj1 (is_duplicate_false p paths) Hdup q).
Qed.

Lemma unique_loop_fixed paths acc bases :
  Forall (fun p => os_path_exists w p = true) paths →
  NoDup (map base_of paths) →
  (∀ p, p ∈ paths → base_of p ∉ bases) →
  unique_loop w paths acc bases = acc ++ paths.
Proof.
  intros Hex. revert acc bases.
  induction Hex as [|p paths Hp _ IH]; intros acc bases Hnd Hfresh; simpl.
  - by rewrite app_nil_r.
  - rewrite Hp. apply NoDup_cons in Hnd as [Hnotin Hnd].
    rewrite bool_decide_eq_false_2 by (apply Hfresh; left).
    rewrite IH, <- app_assoc; [done | done |].
    intros q Hq [Hb | Hb]%elem_of_union.
    + apply elem_of_singleton in Hb. apply Hnotin. rewrite <- Hb.
      apply list_elem_of_fmap. eauto.
    + apply (Hfresh q); [by right | done].
Qed.

(** The kept paths of a list of kept paths are the list itself. *)
Lemma unique_paths_idem paths :
  unique_loop w (unique_loop w paths [] ∅) [] ∅ = unique_loop w paths [] ∅.
Proof.
  destruct (unique_loop_app w paths [] ∅) as (kept & Heq & _ & Hchar & Hnd).
  rewrite Heq. cbn [app].
  apply (unique_loop_fixed kept [] ∅); [|done|].
  - apply Forall_forall. intros p Hp. by apply Hchar in Hp as (_ & _ & ? & _).
  - intros p _. apply not_elem_of_empty.
Qed.

(** Saving a saved list changes nothing. *)
Lemma save_testpoint_paths_idem paths :
  save_testpoint_paths w (save_testpoint_paths w paths) = save_testpoint_paths w paths.
Proof.
  unfold save_testpoint_paths.
  destruct (forallb utf8_encodable (unique_loop w paths [] ∅)) eqn:Henc; [|done].
  by rewrite unique_paths_idem, Henc.
Qed.

(** Saving the kept paths of a list is saving the list. *)
Lemma save_unique_paths paths :
  save_testpoint_paths w (unique_loop w paths [] ∅) = save_testpoint_paths w paths.
Proof. unfold save_testpoint_paths. by rewrite unique_paths_idem. Qed.

Lemma load_testpoint_paths_elem stored p :
  p ∈ load_testpoint_paths w stored →
  os_path_exists w p = true ∧ ∃ q, q ∈ stored ∧ p = normpath q.
Proof.
  induction stored as [|q stored IH]; simpl; [by intros ?%elem_of_nil|].
  destruct (os_path_exists w (normpath q)) eqn:Hex.
  - intros [-> | Hp]%elem_of_cons.
    + split; [done|]. exists q. split; [left | done].
    + destruct (IH Hp) as (? & q' & ? & ?). split; [done|].
      exists q'. split; [by right | done].
  - intros Hp. destruct (IH Hp) as (? & q' & ? & ?). split; [done|].
    exists q'. split; [by right | done].
Qed.



End SavedPathsAgain.



(** ** Paths *)


Lemma splitext_parts p root ext :
  splitext p = (root, ext) → ext ≠ [] →
  p = root ++ ext ∧ ∃ pre, basename p = pre ++ ext.
Proof.
  unfold splitext, basename, slice_to, slice_from.
  set (sep := rfind chr_slash p). set (dot := rfind chr_dot p).
  destruct (_ && _) eqn:Hc; [|by intros [= <- <-]].
  intros [= <- <-] Hext. apply andb_true_iff in Hc as [Hlt _].
  apply Z.ltb_lt in Hlt. split; [by rewrite take_drop|].
  exists (drop (Z.to_nat (sep + 1)) (take (Z.to_nat dot) p)).
  rewrite <- (take_drop (Z.to_nat dot) p) at 1.
  rewrite drop_app_le; [done|].
  rewrite length_take.
  assert (Z.to_nat dot < length p)%nat.
  { destruct (decide (Z.to_nat dot < length p)%nat); [done|].
    rewrite drop_ge in Hext by lia. done. }
  lia.
Qed.

(** ** Dictionaries of records *)

Section Loaders.
Context (w : World).

Lemma dict_update_singleton (data : gmap ustring testpoint) k r :
  dict_update data {[k := r]} = <[k := r]> data.
Proof. unfold dict_update. by rewrite insert_union_singleton_l. Qed.

Lemma dict_update_empty (data : gmap ustring testpoint) : dict_update data ∅ = data.
Proof. unfold dict_update. by rewrite (left_id ∅ (∪)). Qed.

(** *** [load_text_testpoints] *)

(** What a successful plain-text load does: the record under the file's
    identifier is patched, or created when absent. *)
Lemma load_text_inr data p data' :
  load_text_testpoints w data p = inr data' →
  ∃ content,
    read_text w codecs.ignore p = inr content
    ∧ match data !! unique_name_of w p with
      | Some r =>
          data' = <[unique_name_of w p := patch_record (basename p) content r]> data
      | None =>
          ∃ r, data' = <[unique_name_of w p := r]> data
               ∧ patch_record (basename p) content r = r
      end.
Proof.
  unfold load_text_testpoints.
  destruct (read_text w codecs.ignore p) as [e|content]; [done|].
  intros H. exists content. split; [done|].
  destruct (data !! unique_name_of w p) as [r|]; [by injection H as <-|].
  unfold patch_record.
  destruct (is_input_name (basename p)) eqn:Hin.
  - repeat case_match; try done; injection H as <-;
      rewrite dict_update_singleton;
      (eexists; split; [reflexivity | reflexivity]).
  - destruct (is_output_name (basename p)) eqn:Hout;
      repeat case_match; try done; injection H as <-;
      rewrite dict_update_singleton;
      (eexists; split; [reflexivity | reflexivity]).
Qed.

Lemma patch_record_idem b c r :
  patch_record b c (patch_record b c r) = patch_record b c r.
Proof. unfold patch_record. by repeat case_match. Qed.

Lemma load_text_key data p data' :
  load_text_testpoints w data p = inr data' →
  is_Some (data' !! unique_name_of w p)
  ∧ ∀ k, k ≠ unique_name_of w p → data' !! k = data !! k.
Proof.
  intros (content & _ & H)%load_text_inr.
  destruct (data !! unique_name_of w p) as [r|].
  - subst. rewrite lookup_insert_eq. split; [eauto|].
    intros k Hk. by rewrite lookup_insert_ne.
  - destruct H as (r & -> & _). rewrite lookup_insert_eq. split; [eauto|].
    intros k Hk. by rewrite lookup_insert_ne.
Qed.

Lemma load_text_idem data p data' :
  load_text_testpoints w data p = inr data' →
  load_text_testpoints w data' p = inr data'.
Proof.
  intros (content & Hread & H)%load_text_inr.
  unfold load_text_testpoints. rewrite Hread.
  destruct (data !! unique_name_of w p) as [r|].
  - subst. rewrite lookup_insert_eq, patch_record_idem.
    by rewrite insert_insert_eq.
  - destruct H as (r & -> & Hr). rewrite lookup_insert_eq, Hr.
    by rewrite insert_insert_eq.
Qed.


(** *** [find_related_testpoints] *)

Lemma dict_set_keys {V} (m : list (ustring * V)) key v k :
  k ∈ map fst (dict_set m key v) → k = key ∨ k ∈ map fst m.
Proof.
  induction m as [|[k' v'] m IH]; simpl.
  - intros ?%list_elem_of_singleton. by left.
  - case_bool_decide; simpl.
    + intros [->|?]%elem_of_cons; right; [left | by right].
    + intros [->|Hk]%elem_of_cons; [right; left|].
      destruct (IH Hk); [by left | right; by right].
Qed.

Lemma name_map_keys files k :
  k ∈ map fst (name_map files) → ∃ f, f ∈ files ∧ (splitext f).1 = k.
Proof.
  unfold name_map.
  assert (∀ m, k ∈ map fst (fold_left (fun m f => dict_set m (splitext f).1 f) files m) →
               k ∈ map fst m ∨ ∃ f, f ∈ files ∧ (splitext f).1 = k) as Hgen.
  { induction files as [|f files IH]; intros m; simpl; [by left|].
    intros [Hk | (f' & ? & ?)]%IH.
    - apply dict_set_keys in Hk as [-> | Hk]; [right | by left].
      exists f. split; [left | done].
    - right. exists f'. split; [by right | done]. }
  intros [Hk | ?]%Hgen; [|done]. by apply elem_of_nil in Hk.
Qed.

(** Every key of the two maps is the base name of the imported file. *)
Lemma related_keys (P : ustring → Prop) `{∀ f, Decision (P f)} files c k :
  k ∈ map fst (name_map (filter P (filter (fun f => (splitext f).1 = c) files))) →
  k = c.
Proof.
  intros (f & Hf & <-)%name_map_keys.
  apply list_elem_of_filter in Hf as [_ Hf].
  by apply list_elem_of_filter in Hf as [Hf _].
Qed.

Section Related.
Context (data : gmap ustring testpoint) (dir_path dir_hash c : ustring).
Context (input_map output_map : list (ustring * ustring)).

Local Abbreviation uniq := (dir_hash ++ chr_underscore :: c).

Lemma related_new_insert nt r :
  data !! uniq = None → related_new data uniq nt →
  related_new data uniq (<[uniq := r]> nt).
Proof.
  intros Hd [-> | (_ & r' & ->)]; right; (split; [done|]); exists r.
  - apply insert_empty.
  - apply insert_singleton_eq.
Qed.

Lemma related_inputs_new keys pn nt pn' nt' :
  Forall (fun k => k = c) keys →
  related_inputs w data dir_path dir_hash input_map output_map keys pn nt
    = inr (pn', nt') →
  related_new data uniq nt → related_new data uniq nt'.
Proof.
  intros Hkeys. revert pn nt.
  induction Hkeys as [|k keys -> _ IH]; intros pn nt; simpl.
  - by intros [= <- <-].
  - case_bool_decide as Hin; simpl.
    + apply IH.
    + case_bool_decide; [apply IH|].
      repeat case_match; try done; intros Hrec Hnt;
        (eapply IH; [exact Hrec|]); apply related_new_insert; auto;
        by apply eq_None_not_Some.
Qed.

Lemma related_outputs_new keys pn nt nt' :
  Forall (fun k => k = c) keys →
  related_outputs w data dir_path dir_hash input_map output_map keys pn nt
    = inr nt' →
  related_new data uniq nt → related_new data uniq nt'.
Proof.
  intros Hkeys. revert nt.
  induction Hkeys as [|k keys -> _ IH]; intros nt; simpl.
  - by intros [= <-].
  - destruct (bool_decide (c ∈ pn) || dict_has input_map c); [apply IH|].
    case_bool_decide as Hin; [apply IH|].
    repeat case_match; try done; intros Hrec Hnt;
      (eapply IH; [exact Hrec|]); apply related_new_insert; auto;
      by apply eq_None_not_Some.
Qed.

Lemma related_inputs_present keys pn nt :
  Forall (fun k => k = c) keys → is_Some (data !! uniq) →
  related_inputs w data dir_path dir_hash input_map output_map keys pn nt
    = inr (pn, nt).
Proof.
  intros Hkeys Hd. induction Hkeys as [|k keys -> _ IH]; simpl; [done|].
  by rewrite bool_decide_eq_true_2.
Qed.

Lemma related_outputs_present keys pn nt :
  Forall (fun k => k = c) keys → is_Some (data !! uniq) →
  related_outputs w data dir_path dir_hash input_map output_map keys pn nt
    = inr nt.
Proof.
  intros Hkeys Hd. induction Hkeys as [|k keys -> _ IH]; simpl; [done|].
  destruct (bool_decide (c ∈ pn) || dict_has input_map c); [done|].
  by rewrite bool_decide_eq_true_2.
Qed.

End Related.

Lemma find_related_keys files p :
  let related := filter (fun f => (splitext f).1 = base_of p) files in
  Forall (fun k => k = base_of p)
    (map fst (name_map (filter (fun f => is_input_name f = true) related)))
  ∧ Forall (fun k => k = base_of p)
      (map fst (name_map (filter (fun f => is_output_name f = true) related))).
Proof.
  split; apply Forall_forall; intros k Hk; by eapply related_keys.
Qed.

(** Companion discovery adds at most the record of the imported file's own
    identifier, and only when it is missing. *)
Lemma find_related_inr data p data' :
  find_related_testpoints w data p = inr data' →
  data' = data
  ∨ (data !! unique_name_of w p = None
     ∧ ∃ r, data' = <[unique_name_of w p := r]> data).
Proof.
  unfold find_related_testpoints.
  destruct (os_listdir w (dirname p)) as [e|files]; [done|]. cbv zeta.
  destruct (find_related_keys files p) as [Hin Hout].
  destruct (related_inputs _ _ _ _ _ _ _ _ _) as [e|[pn nt]] eqn:Hi; [done|].
  destruct (related_outputs _ _ _ _ _ _ _ _ _) as [e|nt'] eqn:Ho; [done|].
  intros [= <-].
  eapply related_inputs_new in Hi; [|done|by left].
  eapply related_outputs_new in Ho; [|done|done].
  destruct Ho as [-> | (Hd & r & ->)].
  - left. apply dict_update_empty.
  - right. split; [done|]. exists r. apply dict_update_singleton.
Qed.

Lemma find_related_present data p :
  is_Some (data !! unique_name_of w p) →
  is_Some (fs_node w (dirname p) ≫= fun n =>
             match n with Directory l => Some l | _ => None end) →
  find_related_testpoints w data p = inr data.
Proof.
  intros Hd Hdir. unfold find_related_testpoints, os_listdir.
  destruct (fs_node w (dirname p)) as [[?|files|]|]; try by destruct Hdir.
  cbv zeta. destruct (find_related_keys files p) as [Hin Hout].
  rewrite (related_inputs_present _ _ _ (base_of p)) by done.
  rewrite (related_outputs_present _ _ _ (base_of p)) by done.
  by rewrite dict_update_empty.
Qed.

Lemma find_related_idem data p data' :
  find_related_testpoints w data p = inr data' →
  find_related_testpoints w data' p = inr data'.
Proof.
  intros H. destruct (find_related_inr _ _ _ H) as [-> | (Hd & r & ->)]; [done|].
  apply find_related_present; [by rewrite lookup_insert_eq|].
  unfold find_related_testpoints, os_listdir in H.
  destruct (fs_node w (dirname p)) as [[?|files|]|]; done.
Qed.

(** After a plain-text load, companion discovery has nothing to add. *)
Lemma find_related_after_text data p data1 data2 :
  load_text_testpoints w data p = inr data1 →
  find_related_testpoints w data1 p = inr data2 →
  data2 = data1.
Proof.
  intros [Hk _]%load_text_key H.
  destruct (find_related_inr _ _ _ H) as [-> | (Hd & _)]; [done|].
  rewrite Hd in Hk. by destruct Hk.
Qed.

End Loaders.

Lemma ascii_lower_fold x c :
  ascii_lower x = c → c < 128 → fold_char x = c.
Proof.
  unfold ascii_lower. pose proof (fold_char_cases x).
  destruct (N.leb_spec 65 x), (N.leb_spec x 90); simpl; lia.
Qed.

Lemma map_ascii_lower_fold e w0 :
  Forall (fun c => c < 128) w0 → map ascii_lower e = w0 → map fold_char e = w0.
Proof.
  intros Hw. revert e. induction Hw as [|c w0 Hc _ IH]; intros [|x e]; try done.
  simpl. intros [= Hx He]. f_equal; [by apply ascii_lower_fold | by apply IH].
Qed.

Lemma lower_in_ext ext :
  map ascii_lower ext = u ".in" ∨ map ascii_lower ext = u ".input" → in_ext ext.
Proof.
  intros [H | H]; [left | right]; (apply map_ascii_lower_fold; [|done]);
    repeat constructor.
Qed.

Section Claims.
Context (w : World).

Lemma patch_record_output b c r :
  patch_record b c r
  = if is_output_name b then Testpoint (input r) (JStr c)
    else Testpoint (JStr c) (output r).
Proof.
  unfold patch_record. destruct (is_input_name b) eqn:Hin; [|done].
  by rewrite (input_name_not_output _ Hin).
Qed.

(** C5: a plain-text import whose identifier is already a key patches
    exactly one field of the existing record, [output] when the file name
    matches the output pattern and [input] otherwise; the other field, the
    other records and the set of keys stay as they were, and companion
    discovery adds nothing afterwards. *)
Theorem text_import_patches_one_field (data : gmap ustring testpoint)
    (file_path : ustring) (r : testpoint) (content : ustring) :
  data !! unique_name_of w file_path = Some r →
  read_text w codecs.ignore file_path = inr content →
  ∃ r',
    load_text_testpoints w data file_path
      = inr (<[unique_name_of w file_path := r']> data)
    ∧ (is_output_name (basename file_path) = true →
       r' = Testpoint (input r) (JStr content))
    ∧ (is_output_name (basename file_path) = false →
       r' = Testpoint (JStr content) (output r))
    ∧ dom (<[unique_name_of w file_path := r']> data) = dom data
    ∧ (∀ k, k ≠ unique_name_of w file_path →
            <[unique_name_of w file_path := r']> data !! k = data !! k)
    ∧ (∀ data2,
         find_related_testpoints w (<[unique_name_of w file_path := r']> data)
           file_path = inr data2 →
         data2 = <[unique_name_of w file_path := r']> data).
Proof.
  intros Hr Hread. exists (patch_record (basename file_path) content r).
  assert (Hload : load_text_testpoints w data file_path
            = inr (<[unique_name_of w file_path :=
                       patch_record (basename file_path) content r]> data)).
  { unfold load_text_testpoints. by rewrite Hread, Hr. }
  split_and!.
  - done.
  - intros Hout. by rewrite patch_record_output, Hout.
  - intros Hout. by rewrite patch_record_output, Hout.
  - apply dom_insert_lookup_L. by rewrite Hr.
  - intros k Hk. by rewrite lookup_insert_ne.
  - intros data2. by apply (find_related_after_text w data).
Qed.

(** C6, amended: importing an input file, one whose extension is [.in] or
    [.input] in any letter case and whose name holds no line feed, when its
    identifier is not a key yet, creates one record: its input is the content
    of the file; its output is the content of the sibling with the same root
    and extension [.out], or failing that [.ans], when that sibling exists,
    and the missing-output sentinel when neither exists. *)
Theorem input_file_import (data : gmap ustring testpoint)
    (file_path root ext content : ustring) :
  splitext file_path = (root, ext) →
  map ascii_lower ext = u ".in" ∨ map ascii_lower ext = u ".input" →
  chr_newline ∉ basename file_path →
  data !! unique_name_of w file_path = None →
  read_text w codecs.ignore file_path = inr content →
  (∀ output_content,
     os_path_exists w (root ++ u ".out") = true →
     read_text w codecs.ignore (root ++ u ".out") = inr output_content →
     load_text_testpoints w data file_path
     = inr (<[unique_name_of w file_path :=
                Testpoint (JStr content) (JStr output_content)]> data))
  ∧ (∀ output_content,
       os_path_exists w (root ++ u ".out") = false →
       os_path_exists w (root ++ u ".ans") = true →
       read_text w codecs.ignore (root ++ u ".ans") = inr output_content →
       load_text_testpoints w data file_path
       = inr (<[unique_name_of w file_path :=
                  Testpoint (JStr content) (JStr output_content)]> data))
  ∧ (os_path_exists w (root ++ u ".out") = false →
     os_path_exists w (root ++ u ".ans") = false →
     load_text_testpoints w data file_path
     = inr (<[unique_name_of w file_path :=
                Testpoint (JStr content) (JStr output_not_found)]> data)).
Proof.
  intros Hsplit Hext Hnl Hfresh Hread.
  assert (Hin : in_ext ext) by by apply lower_in_ext.
  assert (ext ≠ []) as Hne by (by destruct Hext as [H|H]; intros ->).
  destruct (splitext_parts _ _ _ Hsplit Hne) as [Hp (pre & Hbase)].
  assert (Hname : is_input_name (basename file_path) = true).
  { rewrite Hbase. apply is_input_name_ext; [|done].
    rewrite Hbase in Hnl. intros Hpre. apply Hnl. apply elem_of_app. by left. }
  assert (Hsub : ∀ repl, re.sub input_ext_re repl file_path = root ++ repl).
  { intros repl. rewrite Hp. by apply sub_input_ext. }
  unfold load_text_testpoints, companion_path.
  rewrite Hread, Hfresh, Hname, !Hsub. split_and!.
  - intros oc Hex Hoc. rewrite Hex. simpl. rewrite Hex, Hoc.
    by rewrite dict_update_singleton.
  - intros oc Hex1 Hex2 Hoc. rewrite Hex1. simpl. rewrite Hex2, Hoc.
    by rewrite dict_update_singleton.
  - intros Hex1 Hex2. rewrite Hex1. simpl. rewrite Hex2.
    by rewrite dict_update_singleton.
Qed.

(** C8, amended: for a path whose extension is not [.json], the record is
    stored under the decimal rendering of the absolute value of the hash of
    the path's directory, taken modulo 10000, followed by an underscore and
    the base file name without its extension. *)
Theorem text_identifier (data data' : gmap ustring testpoint) (file_path : ustring) :
  lower_is_json (splitext file_path).2 = false →
  load_by_type w data file_path = inr data' →
  dom data'
  = {[ str_of_N (Z.to_N (Z.abs (py_hash w (dirname file_path)) mod 10000))
         ++ chr_underscore :: (splitext (basename file_path)).1 ]}
    ∪ dom data.
Proof.
  unfold load_by_type. intros -> (content & _ & H)%load_text_inr.
  change (str_of_N _ ++ _) with (unique_name_of w file_path).
  destruct (data !! unique_name_of w file_path) as [r|] eqn:Hr.
  - subst. rewrite dom_insert_L. done.
  - destruct H as (r & -> & _). by rewrite dom_insert_L.
Qed.

End Claims.

(** Closed goals about the sample environments are settled by evaluation. *)
Ltac by_computation :=
  first [ vm_compute; reflexivity
        | left; vm_compute; reflexivity
        | right; vm_compute; reflexivity
        | apply (bool_decide_unpack _); vm_compute; exact I ].

(** The identifier of [b/foo.out] in the session of seed [0]. *)
Lemma text_identifier_witness :
  dom (<[u "578_foo" := Testpoint (JStr input_not_found) (JStr (u "25" ++ [chr_newline]))]>
         (∅ : gmap ustring testpoint))
  = {[ str_of_N (Z.to_N (Z.abs (py_hash (session 0) (dirname (u "b/foo.out"))) mod 10000))
         ++ chr_underscore :: (splitext (basename (u "b/foo.out"))).1 ]}
    ∪ dom (∅ : gmap ustring testpoint).
Proof.
  apply (text_identifier (session 0) ∅ _ (u "b/foo.out")).
  - reflexivity.
  - vm_compute. reflexivity.
Defined.

(** C8 as stated fails: the hash of the directory [b] is negative in the
    session of seed [0]; reduced modulo 10000 it gives 9422, while the record
    of [b/foo.out] is stored under [578_foo]. *)
Lemma hash_modulo_identifier_differs :
  lower_is_json (splitext (u "b/foo.out")).2 = false
  ∧ py_hash (session 0) (dirname (u "b/foo.out")) = (-8420940591063670578)%Z
  ∧ mod_hash_name (session 0) (u "b/foo.out") = u "9422_foo"
  ∧ ∃ data', load_by_type (session 0) ∅ (u "b/foo.out") = inr data'
             ∧ dom data' = {[u "578_foo"]}
             ∧ data' !! mod_hash_name (session 0) (u "b/foo.out") = None.
Proof.
  split_and!; try (vm_compute; reflexivity).
  eexists. split_and!; vm_compute; reflexivity.
Qed.

(** Importing [b/foo.out] over a record that lacks its output fills the
    output in and keeps the input. *)
Lemma text_import_patch_witness :
  ∃ r',
    load_text_testpoints (session 0) half_record (u "b/foo.out")
      = inr (<[unique_name_of (session 0) (u "b/foo.out") := r']> half_record)
    ∧ r' = Testpoint (JStr (u "5" ++ [chr_newline])) (JStr (u "25" ++ [chr_newline])).
Proof.
  destruct (text_import_patches_one_field (session 0) half_record (u "b/foo.out")
              (Testpoint (JStr (u "5" ++ [chr_newline])) (JStr output_not_found))
              (u "25" ++ [chr_newline]))
    as (r' & Hload & Hout & _).
  - vm_compute. reflexivity.
  - vm_compute. reflexivity.
  - exists r'. split; [exact Hload|]. apply Hout. vm_compute. reflexivity.
Defined.

(** The three cases on the sample files: [x.in] has [x.out], [z.input] has
    [z.ans] only, [y.in] has neither. *)
Lemma input_file_import_witness :
  load_text_testpoints (session 0) ∅ (u "d/x.in")
  = inr (<[unique_name_of (session 0) (u "d/x.in") :=
             Testpoint (JStr (u "1 2" ++ [chr_newline])) (JStr (u "3" ++ [chr_newline]))]> ∅)
  ∧ load_text_testpoints (session 0) ∅ (u "d/z.input")
    = inr (<[unique_name_of (session 0) (u "d/z.input") :=
               Testpoint (JStr (u "8" ++ [chr_newline])) (JStr (u "64" ++ [chr_newline]))]> ∅)
  ∧ load_text_testpoints (session 0) ∅ (u "d/y.in")
    = inr (<[unique_name_of (session 0) (u "d/y.in") :=
               Testpoint (JStr (u "7" ++ [chr_newline])) (JStr output_not_found)]> ∅).
Proof.
  split_and!.
  - refine (proj1 (input_file_import (session 0) ∅ (u "d/x.in") (u "d/x") (u ".in")
                     (u "1 2" ++ [chr_newline]) _ _ _ _ _) _ _ _);
      by_computation.
  - refine (proj1 (proj2 (input_file_import (session 0) ∅ (u "d/z.input") (u "d/z")
                            (u ".input") (u "8" ++ [chr_newline]) _ _ _ _ _)) _ _ _ _);
      by_computation.
  - refine (proj2 (proj2 (input_file_import (session 0) ∅ (u "d/y.in") (u "d/y")
                            (u ".in") (u "7" ++ [chr_newline]) _ _ _ _ _)) _ _);
      by_computation.
Defined.

(** C6 as stated fails.  With [e/x.ans] imported first, the identifier of
    [e/x.in] is a key: importing [e/x.in] assigns the input of that record
    only, and its output stays the content of [e/x.ans] although the sibling
    [e/x.out] exists with another content.  And the file [a], line feed,
    [b.in], whose extension is [.in], is not taken for an input file: its
    record gets the empty string as output, not the sentinel, although it has
    no sibling. *)
Lemma input_file_import_keeps_old_output :
  testpoint_data (select_file lab_session empty_viewer (u "e/x.ans")).2
  = {[ u "8599_x" :=
         Testpoint (JStr (u "1 2" ++ [chr_newline])) (JStr (u "OLD" ++ [chr_newline])) ]}
  ∧ unique_name_of lab_session (u "e/x.in") = u "8599_x"
  ∧ os_path_exists lab_session (u "e/x.out") = true
  ∧ read_text lab_session codecs.ignore (u "e/x.out") = inr (u "3" ++ [chr_newline])
  ∧ testpoint_data
      (select_file lab_session
         (select_file lab_session empty_viewer (u "e/x.ans")).2 (u "e/x.in")).2
    = {[ u "8599_x" :=
           Testpoint (JStr (u "1 2" ++ [chr_newline]))
                     (JStr (u "OLD" ++ [chr_newline])) ]}
  ∧ (splitext (u "e/" ++ line_feed_name)).2 = u ".in"
  ∧ os_path_exists lab_session (u "e/a" ++ [chr_newline] ++ u "b.out") = false
  ∧ os_path_exists lab_session (u "e/a" ++ [chr_newline] ++ u "b.ans") = false
  ∧ load_text_testpoints lab_session ∅ (u "e/" ++ line_feed_name)
    = inr {[ u "8599_a" ++ [chr_newline] ++ u "b" :=
               Testpoint (JStr (u "6" ++ [chr_newline])) (JStr []) ]}.
Proof. split_and!; vm_compute; reflexivity. Qed.

(** ** Two sessions *)

Section TwoSessions.
Context (w1 w2 : World).
Hypothesis same_fs : ∀ q, fs_node w1 q = fs_node w2 q.

Lemma read_text_same mode q : read_text w1 mode q = read_text w2 mode q.
Proof. unfold read_text. by rewrite same_fs. Qed.

Lemma os_path_exists_same q : os_path_exists w1 q = os_path_exists w2 q.
Proof. unfold os_path_exists. by rewrite same_fs. Qed.

Lemma os_listdir_same q : os_listdir w1 q = os_listdir w2 q.
Proof. unfold os_listdir. by rewrite same_fs. Qed.

Lemma companion_path_same r a b p :
  companion_path w1 r a b p = companion_path w2 r a b p.
Proof. unfold companion_path. by rewrite os_path_exists_same. Qed.

Lemma related_inputs_same data dp dh im om keys pn nt :
  related_inputs w1 data dp dh im om keys pn nt
  = related_inputs w2 data dp dh im om keys pn nt.
Proof.
  revert pn nt. induction keys as [|k keys IH]; intros pn nt; simpl; [done|].
  rewrite !read_text_same. destruct (_ || _); [done|].
  destruct (read_text w2 codecs.ignore _); [done|].
  destruct (dict_lookup om k); [rewrite read_text_same|]; by repeat case_match.
Qed.

Lemma related_outputs_same data dp dh im om keys pn nt :
  related_outputs w1 data dp dh im om keys pn nt
  = related_outputs w2 data dp dh im om keys pn nt.
Proof.
  revert nt. induction keys as [|k keys IH]; intros nt; simpl; [done|].
  rewrite !read_text_same. by repeat case_match.
Qed.

Lemma load_text_same data file_path :
  unique_name_of w1 file_path = unique_name_of w2 file_path →
  load_text_testpoints w1 data file_path = load_text_testpoints w2 data file_path.
Proof.
  intros Hname. unfold load_text_testpoints.
  rewrite read_text_same, Hname.
  destruct (read_text w2 codecs.ignore file_path) as [e|content]; [done|].
  destruct (data !! unique_name_of w2 file_path); [done|].
  destruct (is_input_name (basename file_path)).
  { by rewrite companion_path_same, os_path_exists_same, read_text_same. }
  destruct (is_output_name (basename file_path)); [|done].
  by rewrite companion_path_same, os_path_exists_same, read_text_same.
Qed.

Lemma find_related_same data file_path :
  dir_hash_of w1 (dirname file_path) = dir_hash_of w2 (dirname file_path) →
  find_related_testpoints w1 data file_path
  = find_related_testpoints w2 data file_path.
Proof.
  intros Hdir. unfold find_related_testpoints.
  rewrite Hdir, os_listdir_same.
  destruct (os_listdir w2 (dirname file_path)) as [e|files]; [done|]. cbv zeta.
  rewrite related_inputs_same.
  destruct (related_inputs w2 _ _ _ _ _ _ _ _) as [e|[pn nt]]; [done|].
  by rewrite related_outputs_same.
Qed.

End TwoSessions.

(** C3, amended: the identifier of a plain-text path is the same in two
    runs that see the same files and give the path's directory the same
    hash, as two runs of one process or two processes started with the same
    hash seed do; the plain-text loader and companion discovery then return
    the same mapping in both runs. *)
Theorem identifier_stable_under_same_hash (w1 w2 : World)
    (data : gmap ustring testpoint) (file_path : ustring) :
  (∀ q, fs_node w1 q = fs_node w2 q) →
  py_hash w1 (dirname file_path) = py_hash w2 (dirname file_path) →
  unique_name_of w1 file_path = unique_name_of w2 file_path
  ∧ load_text_testpoints w1 data file_path = load_text_testpoints w2 data file_path
  ∧ find_related_testpoints w1 data file_path
    = find_related_testpoints w2 data file_path.
Proof.
  intros Hfs Hhash.
  assert (Hdir : dir_hash_of w1 (dirname file_path) = dir_hash_of w2 (dirname file_path))
    by (unfold dir_hash_of; by rewrite Hhash).
  assert (Hname : unique_name_of w1 file_path = unique_name_of w2 file_path)
    by (unfold unique_name_of; by rewrite Hdir).
  split_and!; [done | by apply load_text_same | by apply find_related_same].
Qed.

(** Two sessions with the same files and the same string hash. *)
Lemma identifier_stable_witness :
  unique_name_of (session 0) (u "d/x.in") = unique_name_of session_other_json (u "d/x.in")
  ∧ load_text_testpoints (session 0) ∅ (u "d/x.in")
    = load_text_testpoints session_other_json ∅ (u "d/x.in")
  ∧ find_related_testpoints (session 0) ∅ (u "d/x.in")
    = find_related_testpoints session_other_json ∅ (u "d/x.in").
Proof.
  apply (identifier_stable_under_same_hash (session 0) session_other_json).
  - intros q. reflexivity.
  - reflexivity.
Defined.

(** C3 as stated fails: two sessions over the same files, started with
    the hash seeds [0] and [1], store the record of [a/foo.in] under two
    different identifiers. *)
Lemma identifier_depends_on_hash_seed :
  (∀ q, fs_node (session 0) q = fs_node (session 1) q)
  ∧ py_hash (session 0) (dirname (u "a/foo.in")) = 4644417185603328019%Z
  ∧ py_hash (session 1) (dirname (u "a/foo.in")) = (-3012895188637184397)%Z
  ∧ unique_name_of (session 0) (u "a/foo.in") = u "8019_foo"
  ∧ unique_name_of (session 1) (u "a/foo.in") = u "4397_foo"
  ∧ load_text_testpoints (session 0) ∅ (u "a/foo.in")
    = inr {[ u "8019_foo" :=
               Testpoint (JStr (u "5" ++ [chr_newline])) (JStr output_not_found) ]}
  ∧ load_text_testpoints (session 1) ∅ (u "a/foo.in")
    = inr {[ u "4397_foo" :=
               Testpoint (JStr (u "5" ++ [chr_newline])) (JStr output_not_found) ]}.
Proof. split_and!; [done | by_computation ..]. Qed.

(** C4: an element of the [testCases] array that is not an object is not
    skipped.  The document of [j/cases.json] holds the number 7 before a
    well-shaped object: loading it raises [AttributeError], the import ends
    in the error dialog and the mapping stays empty, the well-shaped element
    included.  The same two elements in a top-level array ([j/list.json])
    are handled as specified: the number is skipped and the object is
    imported as the second testpoint. *)
Lemma non_object_test_case_is_fatal :
  json_loads (session 0) (u mixed_cases_text) = Some mixed_cases_doc
  ∧ load_json_testpoints (session 0) ∅ (u "j/cases.json") = inl AttributeError
  ∧ select_file (session 0) empty_viewer (u "j/cases.json")
    = (Some (ErrorNotice AttributeError),
       {| testpoint_data := ∅;
          current_file := Some (u "j/cases.json");
          testpoints_json := [u "j/cases.json"] |})
  ∧ load_json_testpoints (session 0) ∅ (u "j/list.json")
    = inr {[ u "list.json_" ++ testpoint_prefix ++ u "2" :=
               Testpoint (JStr (u "1")) (JStr (u "2")) ]}.
Proof. split_and!; by_computation. Qed.




Section Reimport.
Context (w : World).

Lemma load_json_inr data p data' :
  load_json_testpoints w data p = inr data' →
  ∃ new_testpoints, data' = new_testpoints ∪ data
    ∧ ∀ d, load_json_testpoints w d p = inr (new_testpoints ∪ d).
Proof.
  unfold load_json_testpoints.
  destruct (read_text w codecs.strict p) as [e|text]; [done|].
  destruct (json_loads w text) as [doc|]; [|done].
  destruct (json_new_testpoints w p doc) as [e|new_testpoints]; [done|].
  intros [= <-]. by exists new_testpoints.
Qed.

(** Loading the file again after a completed import changes nothing. *)
Lemma load_by_type_again data p d1 d2 :
  load_by_type w data p = inr d1 →
  find_related_testpoints w d1 p = inr d2 →
  load_by_type w d2 p = inr d2.
Proof.
  unfold load_by_type. destruct (lower_is_json (splitext p).2).
  - intros (new_testpoints & -> & Hany)%load_json_inr Hrel.
    rewrite Hany. f_equal. apply map_subseteq_union.
    etrans; [apply map_union_subseteq_l|].
    destruct (find_related_inr w _ _ _ Hrel) as [-> | (Hnone & r & ->)]; [done|].
    by apply insert_subseteq.
  - intros Hload Hrel.
    rewrite (find_related_after_text w _ _ _ _ Hload Hrel).
    by eapply load_text_idem.
Qed.

(** What an import that ends without an error dialog went through. *)
Lemma load_testpoints_ok v p out v' :
  load_testpoints w v p = (out, v') → (∀ e, out ≠ ErrorNotice e) →
  (p ∈ load_testpoint_paths w (testpoints_json v) ∧ out = DuplicateNotice ∧ v' = v)
  ∨ ∃ d1 d2,
      load_by_type w (testpoint_data v) p = inr d1
      ∧ find_related_testpoints w d1 p = inr d2
      ∧ testpoint_data v' = d2
      ∧ current_file v' = current_file v.
Proof.
  unfold load_testpoints. case_bool_decide as Hin.
  { intros [= <- <-] _. by left. }
  destruct (load_by_type w (testpoint_data v) p) as [e|d1] eqn:Hload.
  { intros [= <- _] Hne. by destruct (Hne e). }
  destruct (find_related_testpoints w d1 p) as [e|d2] eqn:Hrel.
  { intros [= <- _] Hne. by destruct (Hne e). }
  intros H _. right. exists d1, d2. split_and!; [done | done | |];
    case_bool_decide; by injection H as <- <-.
Qed.

(** An import that finds the mapping already up to date. *)
Lemma load_testpoints_reload v p :
  load_by_type w (testpoint_data v) p = inr (testpoint_data v) →
  find_related_testpoints w (testpoint_data v) p = inr (testpoint_data v) →
  ∃ v', load_testpoints w v p = (DuplicateNotice, v')
        ∧ testpoint_data v' = testpoint_data v
        ∧ current_file v' = current_file v.
Proof.
  intros Hload Hrel. unfold load_testpoints. case_bool_decide.
  { by exists v. }
  rewrite Hload, Hrel, map_difference_diag.
  rewrite bool_decide_eq_true_2 by done. by eexists.
Qed.

(** C7: import is idempotent per path.  After an import of a path that
    did not end in the error dialog, importing the same path again reports
    that the same data is already loaded: no identifier is newly added and
    the identifier-to-record mapping is unchanged. *)
Theorem reimport_is_duplicate (v v1 : Viewer) (file_path : ustring) (out1 : outcome) :
  select_file w v file_path = (Some out1, v1) →
  (∀ e, out1 ≠ ErrorNotice e) →
  ∃ v2,
    select_file w v1 file_path = (Some DuplicateNotice, v2)
    ∧ testpoint_data v2 ∖ testpoint_data v1 = ∅
    ∧ testpoint_data v2 = testpoint_data v1.
Proof.
  destruct file_path as [|c p]; [done|]. unfold select_file.
  set (file_path := c :: p).
  destruct (load_testpoints w _ file_path) as [out v1'] eqn:Hfirst.
  intros [= <- <-] Hok.
  assert (∃ v2, load_testpoints w
                  {| testpoint_data := testpoint_data v1';
                     current_file := Some file_path;
                     testpoints_json := testpoints_json v1' |} file_path
                = (DuplicateNotice, v2)
                ∧ testpoint_data v2 = testpoint_data v1') as (v2 & -> & Hv2).
  { destruct (load_testpoints_ok _ _ _ _ Hfirst Hok)
      as [(Hin & _ & ->) | (d1 & d2 & Hload & Hrel & Hd & _)].
    - simpl. unfold load_testpoints. simpl.
      rewrite bool_decide_eq_true_2 by done. by eexists.
    - simpl in Hload.
      destruct (load_testpoints_reload
                  {| testpoint_data := testpoint_data v1';
                     current_file := Some file_path;
                     testpoints_json := testpoints_json v1' |} file_path)
        as (v2 & Hv2 & Hd2 & _); simpl; rewrite ?Hd.
      + by eapply load_by_type_again.
      + by eapply find_related_idem.
      + exists v2. by rewrite <- Hd. }
  exists v2. simpl. rewrite Hv2. split_and!; [done | apply map_difference_diag | done].
Qed.

(** C1, amended: importing a plain-text path that is not listed but whose
    base name is that of a listed path does not register the path (the
    persisted list is left as it was, or rewritten as the saved form of the
    listed paths, and never gains the path), but the file is still loaded:
    unless the import ends in the error dialog, the mapping afterwards has a
    record under the path's directory-hash identifier, every other record is
    as before, and when that identifier was not a key the import reports it
    as newly added. *)
Theorem same_base_import_still_loads (v v' : Viewer) (file_path : ustring)
    (out : outcome) :
  file_path ∉ load_testpoint_paths w (testpoints_json v) →
  is_duplicate file_path (load_testpoint_paths w (testpoints_json v)) = true →
  lower_is_json (splitext file_path).2 = false →
  select_file w v file_path = (Some out, v') →
  (testpoints_json v' = testpoints_json v
   ∨ testpoints_json v'
     = save_testpoint_paths w (load_testpoint_paths w (testpoints_json v)))
  ∧ (file_path ∈ testpoints_json v' → file_path ∈ testpoints_json v)
  ∧ ((∀ e, out ≠ ErrorNotice e) →
     is_Some (testpoint_data v' !! unique_name_of w file_path)
     ∧ (∀ k, k ≠ unique_name_of w file_path →
             testpoint_data v' !! k = testpoint_data v !! k)
     ∧ (testpoint_data v !! unique_name_of w file_path = None →
        out = Loaded {[unique_name_of w file_path]})).
Proof.
  intros Hnew Hdup Hjson.
  destruct file_path as [|c p]; [done|]. unfold select_file.
  set (file_path := c :: p) in *.
  unfold load_testpoints, load_by_type. cbn [testpoints_json testpoint_data current_file].
  rewrite bool_decide_eq_false_2 by done. rewrite Hdup, Hjson. cbn [negb].
  assert (Hsaved : ∀ l, l = testpoints_json v
                        ∨ l = save_testpoint_paths w
                                (load_testpoint_paths w (testpoints_json v)) →
                        file_path ∈ l → file_path ∈ testpoints_json v).
  { intros l [-> | ->]; [done|]. intros (i & Hi & _)%save_testpoint_paths_elem.
    destruct Hnew. by eapply list_elem_of_lookup_2. }
  destruct (load_text_testpoints w (testpoint_data v) file_path) as [e|d1] eqn:Hload.
  { intros [= <- <-]. cbn. split_and!; [by left | done |].
    intros Hne. by destruct (Hne e). }
  destruct (find_related_testpoints w d1 file_path) as [e|d2] eqn:Hrel.
  { intros [= <- <-]. cbn. split_and!; [by left | done |].
    intros Hne. by destruct (Hne e). }
  rewrite (find_related_after_text w _ _ _ _ Hload Hrel) in *. clear d2 Hrel.
  destruct (load_text_key w _ _ _ Hload) as [Hkey Hother].
  apply load_text_inr in Hload as (content & _ & Hd1).
  case_bool_decide as Hempty.
  - intros [= <- <-]. cbn. split_and!; [by left | done |].
    intros _. split_and!; [done | done |].
    intros Hnone. rewrite Hnone in Hd1. destruct Hd1 as (r & -> & _).
    rewrite <- insert_difference', map_difference_diag in Hempty by done.
    by apply insert_non_empty in Hempty.
  - intros [= <- <-]. unfold save_testpoints_data.
    cbn [testpoints_json testpoint_data current_file].
    rewrite Hdup. rewrite andb_false_r.
    rewrite save_unique_paths.
    split_and!; [by right | apply Hsaved; by right |].
    intros _. split_and!; [done | done |].
    intros Hnone. rewrite Hnone in Hd1. destruct Hd1 as (r & -> & _).
    rewrite <- insert_difference', map_difference_diag by done.
    by rewrite insert_empty, dom_singleton_L.
Qed.

End Reimport.

(** Importing [a/foo.in] a second time. *)
Lemma reimport_witness :
  ∃ v2,
    select_file (session 0) viewer_after_foo (u "a/foo.in")
      = (Some DuplicateNotice, v2)
    ∧ testpoint_data v2 ∖ testpoint_data viewer_after_foo = ∅
    ∧ testpoint_data v2 = testpoint_data viewer_after_foo.
Proof.
  apply (reimport_is_duplicate (session 0) empty_viewer viewer_after_foo
           (u "a/foo.in") (Loaded {[u "8019_foo"]})).
  - by_computation.
  - intros e. discriminate.
Defined.

(** Importing [b/foo.out] after [a/foo.in]. *)
Lemma same_base_import_witness :
  is_Some (testpoint_data
             (select_file (session 0) viewer_after_foo (u "b/foo.out")).2
           !! unique_name_of (session 0) (u "b/foo.out"))
  ∧ (u "b/foo.out"
       ∈ testpoints_json (select_file (session 0) viewer_after_foo (u "b/foo.out")).2 →
     u "b/foo.out" ∈ testpoints_json viewer_after_foo).
Proof.
  assert (H1 : u "b/foo.out"
                 ∉ load_testpoint_paths (session 0) (testpoints_json viewer_after_foo))
    by by_computation.
  assert (H2 : is_duplicate (u "b/foo.out")
                 (load_testpoint_paths (session 0) (testpoints_json viewer_after_foo))
               = true) by by_computation.
  assert (H3 : lower_is_json (splitext (u "b/foo.out")).2 = false) by by_computation.
  assert (H4 : select_file (session 0) viewer_after_foo (u "b/foo.out")
               = (Some (Loaded {[u "578_foo"]}),
                  (select_file (session 0) viewer_after_foo (u "b/foo.out")).2))
    by by_computation.
  destruct (same_base_import_still_loads (session 0) _ _ _ _ H1 H2 H3 H4)
    as (_ & Hlist & Hloaded).
  split; [|exact Hlist].
  apply Hloaded. intros e. discriminate.
Defined.

(** C1 as stated fails: with [a/foo.in] imported and listed, importing
    [b/foo.out] (same base name, another directory) is not rejected: it is
    reported as a new testpoint and a second record appears under the
    identifier of the directory [b]. *)
Lemma same_base_import_adds_record :
  base_of (u "b/foo.out") = base_of (u "a/foo.in")
  ∧ viewer_after_foo
    = {| testpoint_data :=
           {[ u "8019_foo" :=
                Testpoint (JStr (u "5" ++ [chr_newline])) (JStr output_not_found) ]};
         current_file := Some (u "a/foo.in");
         testpoints_json := [u "a/foo.in"] |}
  ∧ unique_name_of (session 0) (u "b/foo.out") = u "578_foo"
  ∧ select_file (session 0) viewer_after_foo (u "b/foo.out")
    = (Some (Loaded {[u "578_foo"]}),
       {| testpoint_data :=
            <[ u "578_foo" :=
                 Testpoint (JStr input_not_found) (JStr (u "25" ++ [chr_newline])) ]>
              {[ u "8019_foo" :=
                   Testpoint (JStr (u "5" ++ [chr_newline])) (JStr output_not_found) ]};
          current_file := Some (u "b/foo.out");
          testpoints_json := [u "a/foo.in"] |}).
Proof. split_and!; by_computation. Qed.

(** * Further properties *)

(** ** Paths with an extension *)

Lemma rfind_from_app c a b i last :
  rfind_from c (a ++ b) i last
  = rfind_from c b (i + Z.of_nat (length a))%Z (rfind_from c a i last).
Proof.
  revert i last. induction a as [|x a IH]; intros i last; simpl.
  - f_equal. lia.
  - rewrite IH. f_equal. lia.
Qed.

Lemma rfind_from_notin c s i last : c ∉ s → rfind_from c s i last = last.
Proof.
  revert i. induction s as [|x s IH]; intros i Hc; simpl; [done|].
  apply not_elem_of_cons in Hc as [Hx Hs].
  destruct (N.eqb_spec x c); [congruence|]. by apply IH.
Qed.

Lemma rfind_from_bounds c s i last :
  (last < i)%Z →
  (last <= rfind_from c s i last < i + Z.of_nat (length s))%Z.
Proof.
  revert i last. induction s as [|x s IH]; intros i last Hi; simpl; [lia|].
  destruct (x =? c).
  - specialize (IH (i + 1)%Z i). lia.
  - specialize (IH (i + 1)%Z last). lia.
Qed.

Lemma rfind_from_cases c s i last :
  rfind_from c s i last = last ∨ (i <= rfind_from c s i last)%Z.
Proof.
  revert i last. induction s as [|x s IH]; intros i last; simpl; [by left|].
  destruct (x =? c).
  - destruct (IH (i + 1)%Z i) as [->|H]; right; lia.
  - destruct (IH (i + 1)%Z last) as [->|H]; [by left | right; lia].
Qed.

Lemma rfind_bounds c s : (-1 <= rfind c s < Z.of_nat (length s))%Z.
Proof. unfold rfind. pose proof (rfind_from_bounds c s 0 (-1) ltac:(lia)). lia. Qed.

Lemma rfind_notin c s : c ∉ s → rfind c s = (-1)%Z.
Proof. apply rfind_from_notin. Qed.

(** The last occurrence lies in the left part when the right part has
    none. *)
Lemma rfind_app_notin c a b : c ∉ b → rfind c (a ++ b) = rfind c a.
Proof. intros Hb. unfold rfind. by rewrite rfind_from_app, rfind_from_notin. Qed.

Lemma rfind_app_last c a b : c ∉ b → rfind c (a ++ c :: b) = Z.of_nat (length a).
Proof.
  intros Hb. unfold rfind. rewrite rfind_from_app. simpl.
  rewrite N.eqb_refl. rewrite rfind_from_notin by done. lia.
Qed.

Lemma is_extension_no_slash ext : is_extension ext → chr_slash ∉ ext.
Proof.
  intros (e & -> & _ & He). apply not_elem_of_cons. split; [done | done].
Qed.

Lemma basename_app_ext root ext :
  chr_slash ∉ ext → basename (root ++ ext) = basename root ++ ext.
Proof.
  intros Hs. unfold basename, slice_from. rewrite rfind_app_notin by done.
  pose proof (rfind_bounds chr_slash root). rewrite drop_app_le; [done | lia].
Qed.

Lemma dirname_app_ext root ext :
  chr_slash ∉ ext → dirname (root ++ ext) = dirname root.
Proof.
  intros Hs. unfold dirname, slice_to. rewrite rfind_app_notin by done.
  pose proof (rfind_bounds chr_slash root).
  rewrite take_app_le by lia. done.
Qed.

Lemma drop_after_last_slash s i last :
  (last < i)%Z →
  chr_slash ∉ drop (Z.to_nat (rfind_from chr_slash s i last - i + 1)) s.
Proof.
  revert i last. induction s as [|x s IH]; intros i last Hi; simpl.
  - rewrite drop_nil. apply not_elem_of_nil.
  - destruct (N.eqb_spec x chr_slash) as [->|Hx].
    + pose proof (rfind_from_bounds chr_slash s (i + 1) i ltac:(lia)) as [Hb _].
      specialize (IH (i + 1)%Z i ltac:(lia)).
      assert (Z.to_nat (rfind_from chr_slash s (i + 1) i - i + 1)
              = S (Z.to_nat (rfind_from chr_slash s (i + 1) i - (i + 1) + 1)))
        as -> by (clear -Hb; lia).
      done.
    + pose proof (rfind_from_bounds chr_slash s (i + 1) last ltac:(lia)) as [Hb _].
      specialize (IH (i + 1)%Z last ltac:(lia)).
      destruct (rfind_from_cases chr_slash s (i + 1) last) as [Heq|Hne].
      * rewrite Heq in *.
        assert (Z.to_nat (last - i + 1) = 0%nat) as -> by (clear -Hi; lia).
        assert (Z.to_nat (last - (i + 1) + 1) = 0%nat) as Hz by (clear -Hi; lia).
        rewrite Hz in IH. simpl in *. apply not_elem_of_cons. done.
      * assert (Z.to_nat (rfind_from chr_slash s (i + 1) last - i + 1)
                = S (Z.to_nat (rfind_from chr_slash s (i + 1) last - (i + 1) + 1)))
          as -> by (clear -Hne; lia).
        done.
Qed.

Lemma basename_no_slash p : chr_slash ∉ basename p.
Proof.
  unfold basename, slice_from, rfind.
  pose proof (drop_after_last_slash p 0%Z (-1)%Z ltac:(lia)) as H.
  by rewrite Z.sub_0_r in H.
Qed.

(** Splitting off an extension. *)
Lemma splitext_app_ext root ext :
  is_extension ext → has_non_dot (basename root) = true →
  splitext (root ++ ext) = (root, ext).
Proof.
  intros (e & -> & Hdot & Hslash) Hname. unfold splitext, slice_to, slice_from.
  rewrite rfind_app_last by done.
  rewrite rfind_app_notin by (apply not_elem_of_cons; done).
  pose proof (rfind_bounds chr_slash root) as Hb.
  rewrite Nat2Z.id, take_app_length, drop_app_length.
  unfold basename, slice_from in Hname. rewrite Hname.
  rewrite (proj2 (Z.ltb_lt _ _)) by lia. done.
Qed.

Lemma base_of_app_ext root ext :
  is_extension ext → has_non_dot (basename root) = true →
  base_of (root ++ ext) = basename root.
Proof.
  intros Hext Hname. unfold base_of.
  rewrite basename_app_ext by by apply is_extension_no_slash.
  rewrite splitext_app_ext; [done | done |].
  unfold basename at 1, slice_from.
  by rewrite (rfind_notin _ _ (basename_no_slash root)).
Qed.

Lemma basename_fixed b : chr_slash ∉ b → basename b = b.
Proof.
  intros Hb. unfold basename, slice_from. by rewrite rfind_notin.
Qed.

Lemma splitext_no_dot s : chr_dot ∉ s → splitext s = (s, []).
Proof.
  intros Hs. unfold splitext. rewrite (rfind_notin chr_dot) by done.
  pose proof (rfind_bounds chr_slash s) as Hb.
  by rewrite (proj2 (Z.ltb_ge _ _)) by lia.
Qed.

(** When the split happens at an extension, the file name before it holds a
    character other than a dot. *)
Lemma splitext_app_ext_inv root ext :
  is_extension ext → splitext (root ++ ext) = (root, ext) →
  has_non_dot (basename root) = true.
Proof.
  intros (e & -> & Hdot & Hslash). unfold splitext, slice_to, slice_from.
  rewrite rfind_app_last by done.
  rewrite rfind_app_notin by (apply not_elem_of_cons; done).
  rewrite Nat2Z.id, take_app_length.
  unfold basename, slice_from.
  destruct (has_non_dot _); [done|].
  rewrite andb_false_r. intros H. discriminate H.
Qed.

Lemma ascii_lower_cases x :
  ascii_lower x = x ∨ (65 <= x <= 90 ∧ ascii_lower x = x + 32).
Proof.
  unfold ascii_lower.
  destruct (N.leb_spec 65 x), (N.leb_spec x 90); simpl; auto.
Qed.

Lemma json_ext_is_extension ext : lower_is_json ext = true → is_extension ext.
Proof.
  unfold lower_is_json. rewrite bool_decide_eq_true. intros H.
  assert (map ascii_lower ext = [46; 106; 115; 111; 110]) as H' by exact H.
  destruct ext as [|a [|b [|c [|d [|e [|]]]]]]; try discriminate H'.
  injection H' as Ha Hb Hc Hd He.
  pose proof (ascii_lower_cases a). pose proof (ascii_lower_cases b).
  pose proof (ascii_lower_cases c). pose proof (ascii_lower_cases d).
  pose proof (ascii_lower_cases e).
  exists [b; c; d; e]. unfold chr_dot, chr_slash. split_and!.
  - f_equal. lia.
  - rewrite !not_elem_of_cons. split_and!; try lia. apply not_elem_of_nil.
  - rewrite !not_elem_of_cons. split_and!; try lia. apply not_elem_of_nil.
Qed.

Lemma is_extension_app ext s :
  is_extension ext → chr_dot ∉ s → chr_slash ∉ s →
  is_extension (ext ++ chr_underscore :: s).
Proof.
  intros (e & -> & Hd & Hs) Hsd Hss. exists (e ++ chr_underscore :: s).
  split_and!; [done | |]; rewrite not_elem_of_app, not_elem_of_cons; done.
Qed.

(** ** Display labels *)

(** X5: every record imported from a JSON file is shown under the label
    of the file name itself: the identifier is the file name, an underscore
    and the name inside the file, so, as long as that name holds neither dot
    nor slash, everything after the last dot of the file name is taken for
    the extension and dropped.  The records of one JSON file therefore share
    one label. *)
Theorem json_records_share_label (file_path name : ustring) :
  lower_is_json (splitext file_path).2 = true →
  chr_dot ∉ name → chr_slash ∉ name →
  format_testpoint_name (prefixed_name (basename file_path) name)
  = format_testpoint_name (basename file_path).
Proof.
  destruct (splitext file_path) as [root ext] eqn:Hsplit. simpl.
  intros Hext%json_ext_is_extension Hd Hs.
  assert (ext ≠ []) as Hne by (destruct Hext as (e & -> & _); done).
  destruct (splitext_parts _ _ _ Hsplit Hne) as [Hp _].
  rewrite Hp in Hsplit. apply splitext_app_ext_inv in Hsplit; [|done].
  rewrite Hp, basename_app_ext by by apply is_extension_no_slash.
  pose proof (basename_no_slash root) as Hb.
  unfold format_testpoint_name, prefixed_name.
  rewrite <- app_assoc.
  rewrite !splitext_app_ext; auto using is_extension_app;
    by rewrite basename_fixed.
Qed.

Lemma forallb_Forall_true {A} (f : A → bool) l :
  forallb f l = true → Forall (fun x => f x = true) l.
Proof.
  induction l as [|x l IH]; simpl; [constructor|].
  intros [? ?]%andb_true_iff. constructor; auto.
Qed.

Lemma span_digits_all ds :
  Forall (fun c => is_decimal c = true) ds → span_digits ds = (ds, []).
Proof. induction 1 as [|d ds Hd _ IH]; simpl; [done|]. by rewrite Hd, IH. Qed.

(** A run of digits stops at the letter P or before it. *)
Lemma span_digits_before_p pre rest :
  ∃ pre', (span_digits (pre ++ 80 :: rest)).2 = pre' ++ 80 :: rest.
Proof.
  induction pre as [|x pre [pre' IH]]; simpl.
  - by exists [].
  - destruct (is_decimal x).
    + destruct (span_digits (pre ++ 80 :: rest)) as [digits r]. by exists pre'.
    + by exists (x :: pre).
Qed.

Lemma search_p_number_skip pre s :
  (80 ∉ pre) → search_p_number (pre ++ s) = search_p_number s.
Proof.
  induction pre as [|x pre IH]; simpl; [done|].
  intros [Hx Hpre]%not_elem_of_cons.
  destruct (N.eqb_spec x 80); [done|]. by apply IH.
Qed.

Lemma search_trailing_digits_skip pre d ds :
  search_trailing_digits (pre ++ 80 :: d :: ds)
  = search_trailing_digits (80 :: d :: ds).
Proof.
  induction pre as [|x pre IH]; [done|].
  cbn [app search_trailing_digits].
  destruct (span_digits_before_p (x :: pre) (d :: ds)) as [pre' Hrest].
  cbn [app] in Hrest.
  destruct (span_digits (x :: pre ++ 80 :: d :: ds)) as [[|y digits] rest]; [done|].
  simpl in Hrest. subst rest.
  by destruct pre' as [|? [|? ?]].
Qed.

(** X6: an identifier that ends in the letter P followed by digits, with
    neither a dot nor another P before it (such as the identifier
    [578_P1001] of a file [P1001.in]), is shown with the digits twice: as the
    problem number and again as the number of the testpoint. *)
Theorem problem_number_label (pre ds : ustring) :
  (80 ∉ pre) → (chr_dot ∉ pre) → ds ≠ [] →
  forallb is_decimal ds = true →
  format_testpoint_name (pre ++ 80 :: ds)
  = 80 :: ds ++ label_infix ++ ds ++ label_suffix.
Proof.
  intros Hp Hdot Hne Hds%forallb_Forall_true. destruct ds as [|d ds]; [done|].
  unfold format_testpoint_name. rewrite splitext_no_dot.
  - cbn [fst]. rewrite search_p_number_skip by done.
    rewrite search_trailing_digits_skip.
    cbn [search_p_number search_trailing_digits]. rewrite N.eqb_refl.
    rewrite (span_digits_all (d :: ds) Hds).
    replace (span_digits (80 :: d :: ds)) with (@nil N, 80 :: d :: ds) by done.
    done.
  - rewrite not_elem_of_app, not_elem_of_cons. split_and!; [done | done |].
    intros Hin. rewrite Forall_forall in Hds. by apply Hds in Hin.
Qed.

(** ** What an import does to the mapping *)

Section Imports.
Context (w : World).

Lemma prefixed_name_prefix b name :
  (b ++ [chr_underscore]) `prefix_of` (b ++ chr_underscore :: name).
Proof. exists name. by rewrite <- app_assoc. Qed.

Local Abbreviation keys_from b acc nt :=
  (∀ k, is_Some (nt !! k) →
        is_Some (acc !! k) ∨ (b ++ [chr_underscore]) `prefix_of` k).

Lemma keys_from_insert (b name : ustring) (r : testpoint)
    (acc nt : gmap ustring testpoint) :
  keys_from b (<[b ++ chr_underscore :: name := r]> acc) nt → keys_from b acc nt.
Proof.
  intros H k Hk. destruct (H k Hk) as [Hin | ?]; [|by right].
  destruct (decide (k = b ++ chr_underscore :: name)) as [-> | Hne].
  - right. apply prefixed_name_prefix.
  - left. by rewrite lookup_insert_ne in Hin.
Qed.

Lemma load_test_cases_keys b cases i acc nt :
  load_test_cases b cases i acc = inr nt → keys_from b acc nt.
Proof.
  revert i acc. induction cases as [|c cases IH]; intros i acc; simpl.
  - intros [= <-] k Hk. by left.
  - destruct (record_of c) as [e|r]; [done|].
    intros H. eapply keys_from_insert. eapply IH. exact H.
Qed.

Lemma load_named_keys b items acc nt :
  load_named b items acc = inr nt → keys_from b acc nt.
Proof.
  revert acc. induction items as [|[name content] items IH]; intros acc; simpl.
  - intros [= <-] k Hk. by left.
  - destruct content; try apply IH.
    destruct (record_of _) as [e|r]; [done|].
    intros H. eapply keys_from_insert. eapply IH. exact H.
Qed.

Lemma load_items_keys b items i acc nt :
  load_items w b items i acc = inr nt → keys_from b acc nt.
Proof.
  revert i acc. induction items as [|item items IH]; intros i acc; simpl.
  - intros [= <-] k Hk. by left.
  - destruct item; try apply IH.
    destruct (record_of _) as [e|r]; [done|].
    intros H. eapply keys_from_insert. eapply IH. exact H.
Qed.

(** Every identifier a JSON document yields starts with the file name and
    an underscore. *)
Lemma json_new_testpoints_keys p doc nt k :
  json_new_testpoints w p doc = inr nt → is_Some (nt !! k) →
  (basename p ++ [chr_underscore]) `prefix_of` k.
Proof.
  unfold json_new_testpoints. intros H Hk.
  assert (keys_from (basename p) (∅ : gmap ustring testpoint) nt) as Hkeys.
  { destruct doc; try (injection H as <-; intros k' Hk'; by left).
    - by eapply load_items_keys.
    - destruct (dict_lookup members (u "testCases")) as [cases|].
      + destruct (py_iter cases) as [e|l]; [done|]. by eapply load_test_cases_keys.
      + by eapply load_named_keys. }
  destruct (Hkeys k Hk) as [Hin | ?]; [|done].
  rewrite lookup_empty in Hin. by destruct Hin.
Qed.

(** What an import leaves in the mapping: the mapping as it was, or what
    the loader made of it, or what companion discovery made of that. *)
Lemma load_testpoints_data v p :
  testpoint_data (load_testpoints w v p).2 = testpoint_data v
  ∨ ∃ d1, load_by_type w (testpoint_data v) p = inr d1
          ∧ (testpoint_data (load_testpoints w v p).2 = d1
             ∨ find_related_testpoints w d1 p
               = inr (testpoint_data (load_testpoints w v p).2)).
Proof.
  unfold load_testpoints. case_bool_decide; [by left|].
  destruct (load_by_type w (testpoint_data v) p) as [e|d1]; [by left|].
  right. exists d1. split; [done|].
  destruct (find_related_testpoints w d1 p) as [e|d2]; [by left|].
  right. by case_bool_decide.
Qed.

Lemma select_file_data v p :
  testpoint_data (select_file w v p).2 = testpoint_data v
  ∨ ∃ d1, load_by_type w (testpoint_data v) p = inr d1
          ∧ (testpoint_data (select_file w v p).2 = d1
             ∨ find_related_testpoints w d1 p
               = inr (testpoint_data (select_file w v p).2)).
Proof.
  destruct p as [|x p]; [by left|].
  apply (load_testpoints_data
           {| testpoint_data := testpoint_data v;
              current_file := Some (x :: p);
              testpoints_json := testpoints_json v |}).
Qed.

Lemma load_json_data data p data' :
  load_json_testpoints w data p = inr data' →
  ∃ doc nt, json_new_testpoints w p doc = inr nt ∧ data' = dict_update data nt.
Proof.
  unfold load_json_testpoints.
  destruct (read_text w codecs.strict p) as [e|text]; [done|].
  destruct (json_loads w text) as [doc|]; [|done].
  destruct (json_new_testpoints w p doc) as [e|nt] eqn:Hnt; [done|].
  intros [= <-]. eauto.
Qed.

Lemma load_by_type_keeps data p d1 k :
  load_by_type w data p = inr d1 → is_Some (data !! k) → is_Some (d1 !! k).
Proof.
  unfold load_by_type. destruct (lower_is_json _).
  - intros (doc & nt & _ & ->)%load_json_data [r Hr]. unfold dict_update.
    destruct (nt !! k) as [r'|] eqn:Hnt.
    + exists r'. by apply lookup_union_Some_l.
    + exists r. by rewrite lookup_union_r.
  - intros [Hk Hother]%load_text_key Hin.
    destruct (decide (k = unique_name_of w p)) as [-> | Hne]; [done|].
    by rewrite Hother.
Qed.

Lemma find_related_keeps data p d2 k :
  find_related_testpoints w data p = inr d2 →
  is_Some (data !! k) → is_Some (d2 !! k).
Proof.
  intros [-> | (Hd & r & ->)]%find_related_inr Hin; [done|].
  destruct (decide (k = unique_name_of w p)) as [-> | Hne].
  - by rewrite lookup_insert_eq.
  - by rewrite lookup_insert_ne.
Qed.

Lemma find_related_frame data p d2 k :
  find_related_testpoints w data p = inr d2 →
  k ≠ unique_name_of w p → d2 !! k = data !! k.
Proof.
  intros [-> | (Hd & r & ->)]%find_related_inr Hne; [done|].
  by rewrite lookup_insert_ne.
Qed.

End Imports.

(** X1: an import never removes a record: every identifier of the mapping
    is still an identifier after [select_file], whatever the file and
    whether or not the import ends in an error. *)
Theorem imports_never_delete (w : World) (v : Viewer) (file_path : ustring) :
  dom (testpoint_data v) ⊆ dom (testpoint_data (select_file w v file_path).2).
Proof.
  intros k Hk%elem_of_dom. apply elem_of_dom.
  destruct (select_file_data w v file_path) as [-> | (d1 & H1 & [-> | H2])].
  - done.
  - by eapply load_by_type_keeps.
  - eapply find_related_keeps; [done|]. by eapply load_by_type_keeps.
Qed.

(** X2: importing a file that is not a JSON file changes the mapping at
    no identifier other than the file's own, also when the import ends in an
    error. *)
Theorem text_import_frame (w : World) (v : Viewer) (file_path k : ustring) :
  lower_is_json (splitext file_path).2 = false →
  k ≠ unique_name_of w file_path →
  testpoint_data (select_file w v file_path).2 !! k = testpoint_data v !! k.
Proof.
  intros Hext Hk.
  assert (∀ d1, load_by_type w (testpoint_data v) file_path = inr d1 →
                d1 !! k = testpoint_data v !! k) as Hload.
  { unfold load_by_type. rewrite Hext. intros d1 [_ H]%load_text_key. by apply H. }
  destruct (select_file_data w v file_path) as [-> | (d1 & H1 & [-> | H2])].
  - done.
  - by apply Hload.
  - rewrite (find_related_frame w _ _ _ _ H2 Hk). by apply Hload.
Qed.

(** X3: importing a JSON file changes the mapping only at identifiers
    that start with the file name followed by an underscore, and at the
    identifier companion discovery derives from the path. *)
Theorem json_import_frame (w : World) (v : Viewer) (file_path k : ustring) :
  lower_is_json (splitext file_path).2 = true →
  ¬ (basename file_path ++ [chr_underscore]) `prefix_of` k →
  k ≠ unique_name_of w file_path →
  testpoint_data (select_file w v file_path).2 !! k = testpoint_data v !! k.
Proof.
  intros Hext Hpre Hk.
  assert (∀ d1, load_by_type w (testpoint_data v) file_path = inr d1 →
                d1 !! k = testpoint_data v !! k) as Hload.
  { unfold load_by_type. rewrite Hext.
    intros d1 (doc & nt & Hnt & ->)%load_json_data.
    unfold dict_update. apply lookup_union_r.
    destruct (nt !! k) as [r|] eqn:Hr; [|done].
    exfalso. apply Hpre. eapply json_new_testpoints_keys; [done|]. by rewrite Hr. }
  destruct (select_file_data w v file_path) as [-> | (d1 & H1 & [-> | H2])].
  - done.
  - by apply Hload.
  - rewrite (find_related_frame w _ _ _ _ H2 Hk). by apply Hload.
Qed.

(** ** The identifiers of a [testCases] array *)

Lemma uint_chars_inj d1 d2 : uint_chars d1 = uint_chars d2 → d1 = d2.
Proof.
  revert d2. induction d1 as [|d1 IH|d1 IH|d1 IH|d1 IH|d1 IH|d1 IH|d1 IH|d1 IH|d1 IH|d1 IH];
    intros [|d2|d2|d2|d2|d2|d2|d2|d2|d2|d2]; cbn [uint_chars]; intros H;
    try discriminate H; try reflexivity;
    injection H as H; f_equal; by apply IH.
Qed.

Lemma str_of_N_inj n m : str_of_N n = str_of_N m → n = m.
Proof.
  intros H%uint_chars_inj.
  rewrite <- (DecimalN.Unsigned.of_to n), <- (DecimalN.Unsigned.of_to m).
  by rewrite H.
Qed.

Lemma test_case_name_inj b i j : test_case_name b i = test_case_name b j → i = j.
Proof.
  unfold test_case_name. intros H%app_inv_head. injection H as H.
  apply str_of_N_inj in H. lia.
Qed.

Lemma record_of_dict c : is_dict c = true → ∃ r, record_of c = inr r.
Proof. destruct c; try done. intros _. unfold record_of. simpl. eauto. Qed.

Lemma load_test_cases_all b cases :
  Forall (fun c => is_dict c = true) cases →
  ∀ i (acc : gmap ustring testpoint),
    (∀ k, is_Some (acc !! k) → ∃ j, j < i ∧ k = test_case_name b j) →
    ∃ nt,
      load_test_cases b cases i acc = inr nt
      ∧ size nt = (size acc + length cases)%nat
      ∧ (∀ k r, acc !! k = Some r → nt !! k = Some r)
      ∧ (∀ (n : nat) c, cases !! n = Some c →
           ∃ r, record_of c = inr r
                ∧ nt !! test_case_name b (i + N.of_nat n) = Some r).
Proof.
  induction 1 as [|c cases Hc _ IH]; intros i acc Hacc; cbn [load_test_cases].
  - exists acc. split_and!; auto. intros n c Hn. by rewrite lookup_nil in Hn.
  - destruct (record_of_dict c Hc) as [r Hr]. rewrite Hr.
    change (b ++ chr_underscore :: testpoint_prefix ++ str_of_N (i + 1))
      with (test_case_name b i).
    assert (acc !! test_case_name b i = None) as Hfresh.
    { apply eq_None_not_Some. intros (j & Hj & Heq%test_case_name_inj)%Hacc. lia. }
    destruct (IH (i + 1) (<[test_case_name b i := r]> acc)) as (nt & Hnt & Hsize & Hkeep & Hall).
    { intros k [Hk | Hk]%lookup_insert_is_Some.
      - exists i. split; [lia | done].
      - destruct Hk as [_ Hk]. destruct (Hacc k Hk) as (j & ? & ?).
        exists j. split; [lia | done]. }
    exists nt. split_and!.
    + done.
    + rewrite Hsize, map_size_insert_None by done. simpl. lia.
    + intros k r' Hk. apply Hkeep. rewrite lookup_insert_ne; [done|].
      intros <-. by rewrite Hfresh in Hk.
    + intros [|n] c' Hn; simpl in Hn.
      * injection Hn as <-. exists r. split; [done|].
        rewrite N.add_0_r. apply Hkeep. by rewrite lookup_insert_eq.
      * destruct (Hall n c' Hn) as (r' & ? & Hlook). exists r'. split; [done|].
        by replace (i + N.of_nat (S n)) with (i + 1 + N.of_nat n) by lia.
Qed.

(** X4: a document whose [testCases] array holds objects only yields one
    record per object: the identifiers built from the indices are pairwise
    distinct, so no test case overwrites another, and the test case of
    index [n] is stored under the file name, [_测试点_] and [n + 1]. *)
Theorem test_cases_one_record_each (w : World) (file_path : ustring)
    (members : list (ustring * json)) (cases : list json) :
  dict_lookup members (u "testCases") = Some (JArr cases) →
  Forall (fun c => is_dict c = true) cases →
  ∃ new_testpoints,
    json_new_testpoints w file_path (JObj members) = inr new_testpoints
    ∧ size new_testpoints = length cases
    ∧ ∀ (n : nat) c, cases !! n = Some c →
        ∃ r, record_of c = inr r
             ∧ new_testpoints !! test_case_name (basename file_path) (N.of_nat n)
               = Some r.
Proof.
  intros Hcases Hdict. unfold json_new_testpoints. rewrite Hcases. simpl.
  destruct (load_test_cases_all (basename file_path) cases Hdict 0 ∅)
    as (nt & Hnt & Hsize & _ & Hall).
  { intros k Hk. rewrite lookup_empty in Hk. by destruct Hk. }
  exists nt. split_and!; [done | by rewrite Hsize, map_size_empty | done].
Qed.

(** ** Export and import *)




(** ** Output files and companions *)

Lemma lower_out_ext ext :
  map ascii_lower ext = u ".out" ∨ map ascii_lower ext = u ".ans"
  ∨ map ascii_lower ext = u ".output" → out_ext ext.
Proof.
  intros [H | [H | H]]; [left | right; left | right; right];
    (apply map_ascii_lower_fold; [|done]); repeat constructor.
Qed.

(** A name made of a prefix without line feed and an output extension is an
    output name. *)
Lemma is_output_name_ext pre e :
  chr_newline ∉ pre → out_ext e → is_output_name (pre ++ e) = true.
Proof.
  intros Hpre He. apply is_output_name_iff. exists pre, e, [].
  rewrite app_nil_r. split_and!; auto. by left.
Qed.

Lemma output_name_not_input s :
  is_output_name s = true → is_input_name s = false.
Proof.
  intros Hout. destruct (is_input_name s) eqn:Hin; [|done].
  apply input_name_not_output in Hin. congruence.
Qed.

Lemma run_output_ext_exact e : out_ext e → run output_ext_re e Some = Some [].
Proof.
  intros He.
  destruct (run_complete output_ext_re e [] Some) as [r Hr]; [|done|].
  { apply sem_output_ext. exists e. rewrite app_nil_r. split_and!; auto. by left. }
  rewrite Hr. f_equal.
  apply run_sound in Hr as (rest & Hsem & [= <-]).
  apply sem_output_ext in Hsem as (e' & Hs & [-> | ->] & He'); [done|].
  exfalso. apply (f_equal folded_rev) in Hs. rewrite folded_rev_app in Hs.
  destruct He as [He | [He | He]], He' as [He' | [He' | He']];
    rewrite (folded_rev_known _ _ He), (folded_rev_known _ _ He') in Hs;
    discriminate Hs.
Qed.

Lemma run_output_ext_none x root e :
  out_ext e → run output_ext_re (x :: root ++ e) Some = None.
Proof.
  intros He. destruct (run output_ext_re (x :: root ++ e) Some) as [r|] eqn:Hr; [|done].
  exfalso. apply run_sound in Hr as (rest & Hsem & _).
  apply sem_output_ext in Hsem as (e' & Hs & Hrest & He').
  apply (f_equal folded_rev) in Hs.
  rewrite folded_rev_cons, !folded_rev_app, <- app_assoc in Hs.
  destruct (folded_rev root ++ [fold_char x]) as [|z zs] eqn:Hz.
  { by destruct (folded_rev root). }
  destruct He as [He | [He | He]], He' as [He' | [He' | He']], Hrest as [-> | ->];
    rewrite (folded_rev_known _ _ He), (folded_rev_known _ _ He') in Hs;
    discriminate Hs.
Qed.

(** Replacing an output extension at the end of a path. *)
Lemma sub_output_ext repl root e :
  out_ext e → sub output_ext_re repl (root ++ e) = root ++ repl.
Proof.
  intros He. unfold re.sub. induction root as [|x root IH].
  - cbn [app]. destruct e as [|x e]; [by destruct He as [?|[?|?]]|].
    cbn [sub_from]. rewrite (run_output_ext_exact _ He).
    cbn [length]. rewrite Nat.sub_0_r.
    rewrite sub_from_skip by done. by rewrite app_nil_r.
  - cbn [app sub_from]. rewrite (run_output_ext_none x root e He).
    by rewrite IH.
Qed.

Section TextFiles.
Context (w : World).

(** X12: importing an output file, one whose extension is [.out], [.ans]
    or [.output] in any letter case (and whose name holds no line feed),
    when its identifier is not a key yet, creates one record: its output is
    the content of the file; its input is the content of the sibling with
    the same root and extension [.in], or failing that [.input], when that
    sibling exists, and the missing-input sentinel when neither exists. *)
Theorem output_file_import (data : gmap ustring testpoint)
    (file_path root ext content : ustring) :
  splitext file_path = (root, ext) →
  map ascii_lower ext = u ".out" ∨ map ascii_lower ext = u ".ans"
  ∨ map ascii_lower ext = u ".output" →
  chr_newline ∉ basename file_path →
  data !! unique_name_of w file_path = None →
  read_text w codecs.ignore file_path = inr content →
  (∀ input_content,
     os_path_exists w (root ++ u ".in") = true →
     read_text w codecs.ignore (root ++ u ".in") = inr input_content →
     load_text_testpoints w data file_path
     = inr (<[unique_name_of w file_path :=
                Testpoint (JStr input_content) (JStr content)]> data))
  ∧ (∀ input_content,
       os_path_exists w (root ++ u ".in") = false →
       os_path_exists w (root ++ u ".input") = true →
       read_text w codecs.ignore (root ++ u ".input") = inr input_content →
       load_text_testpoints w data file_path
       = inr (<[unique_name_of w file_path :=
                  Testpoint (JStr input_content) (JStr content)]> data))
  ∧ (os_path_exists w (root ++ u ".in") = false →
     os_path_exists w (root ++ u ".input") = false →
     load_text_testpoints w data file_path
     = inr (<[unique_name_of w file_path :=
                Testpoint (JStr input_not_found) (JStr content)]> data)).
Proof.
  intros Hsplit Hext Hnl Hfresh Hread.
  assert (Hout : out_ext ext) by by apply lower_out_ext.
  assert (ext ≠ []) as Hne by (by destruct Hext as [H|[H|H]]; intros ->).
  destruct (splitext_parts _ _ _ Hsplit Hne) as [Hp (pre & Hbase)].
  assert (Hname : is_output_name (basename file_path) = true).
  { rewrite Hbase. apply is_output_name_ext; [|done].
    rewrite Hbase in Hnl. intros Hpre. apply Hnl. apply elem_of_app. by left. }
  assert (Hsub : ∀ repl, re.sub output_ext_re repl file_path = root ++ repl).
  { intros repl. rewrite Hp. by apply sub_output_ext. }
  unfold load_text_testpoints, companion_path.
  rewrite Hread, Hfresh, (output_name_not_input _ Hname), Hname, !Hsub. split_and!.
  - intros ic Hex Hic. rewrite Hex. simpl. rewrite Hex, Hic.
    by rewrite dict_update_singleton.
  - intros ic Hex1 Hex2 Hic. rewrite Hex1. simpl. rewrite Hex2, Hic.
    by rewrite dict_update_singleton.
  - intros Hex1 Hex2. rewrite Hex1. simpl. rewrite Hex2.
    by rewrite dict_update_singleton.
Qed.

(** X13: the identifier of a plain-text file does not depend on its
    extension: it is made of the directory of the path and of the file name
    before the extension, so an input file and its output file, which differ
    in the extension only, get the same identifier. *)
Theorem identifier_ignores_extension (root ext : ustring) :
  is_extension ext → has_non_dot (basename root) = true →
  unique_name_of w (root ++ ext)
  = dir_hash_of w (dirname root) ++ chr_underscore :: basename root.
Proof.
  intros Hext Hname. unfold unique_name_of.
  rewrite dirname_app_ext by by apply is_extension_no_slash.
  by rewrite base_of_app_ext.
Qed.

Lemma patch_record_input b c r :
  is_input_name b = true → patch_record b c r = Testpoint (JStr c) (output r).
Proof. unfold patch_record. by intros ->. Qed.

(** After a plain-text load from an input file, the record of its
    identifier has the content of the file as input; after one from an
    output file, as output. *)
Lemma load_text_input data p d1 c :
  is_input_name (basename p) = true →
  read_text w codecs.ignore p = inr c →
  load_text_testpoints w data p = inr d1 →
  ∃ r, d1 !! unique_name_of w p = Some r ∧ input r = JStr c
       ∧ ∀ r0, data !! unique_name_of w p = Some r0 → output r = output r0.
Proof.
  intros Hin Hread (c' & Hread' & H)%load_text_inr.
  rewrite Hread in Hread'. injection Hread' as <-.
  destruct (data !! unique_name_of w p) as [r0|].
  - subst. rewrite lookup_insert_eq, patch_record_input by done.
    eexists. split_and!; [done | done |]. by intros ? [= <-].
  - destruct H as (r & -> & Hr). rewrite lookup_insert_eq.
    exists r. split_and!; [done | | done].
    rewrite <- Hr. by rewrite patch_record_input.
Qed.

Lemma load_text_output data p d1 c :
  is_output_name (basename p) = true →
  read_text w codecs.ignore p = inr c →
  load_text_testpoints w data p = inr d1 →
  ∃ r, d1 !! unique_name_of w p = Some r ∧ output r = JStr c
       ∧ ∀ r0, data !! unique_name_of w p = Some r0 → input r = input r0.
Proof.
  intros Hout Hread (c' & Hread' & H)%load_text_inr.
  rewrite Hread in Hread'. injection Hread' as <-.
  destruct (data !! unique_name_of w p) as [r0|].
  - subst. rewrite lookup_insert_eq, patch_record_output, Hout.
    eexists. split_and!; [done | done |]. by intros ? [= <-].
  - destruct H as (r & -> & Hr). rewrite lookup_insert_eq.
    exists r. split_and!; [done | | done].
    rewrite <- Hr. by rewrite patch_record_output, Hout.
Qed.

(** X14: an input file and an output file with the same identifier end
    up in one record, whichever is imported first: after both plain-text
    loads the record holds the content of the input file as input and the
    content of the output file as output, whatever the record held
    before. *)
Theorem input_and_output_merge (data : gmap ustring testpoint)
    (input_path output_path input_content output_content : ustring) :
  is_input_name (basename input_path) = true →
  is_output_name (basename output_path) = true →
  unique_name_of w input_path = unique_name_of w output_path →
  read_text w codecs.ignore input_path = inr input_content →
  read_text w codecs.ignore output_path = inr output_content →
  (∀ d1 d2,
     load_text_testpoints w data input_path = inr d1 →
     load_text_testpoints w d1 output_path = inr d2 →
     d2 !! unique_name_of w input_path
     = Some (Testpoint (JStr input_content) (JStr output_content)))
  ∧ (∀ d1 d2,
       load_text_testpoints w data output_path = inr d1 →
       load_text_testpoints w d1 input_path = inr d2 →
       d2 !! unique_name_of w input_path
       = Some (Testpoint (JStr input_content) (JStr output_content))).
Proof.
  intros Hin Hout Hid Hri Hro. split; intros d1 d2 H1 H2.
  - destruct (load_text_input _ _ _ _ Hin Hri H1) as (r1 & Hr1 & Hi1 & _).
    destruct (load_text_output _ _ _ _ Hout Hro H2) as (r2 & Hr2 & Ho2 & Hkeep).
    rewrite Hid, Hr2. rewrite Hid in Hr1. specialize (Hkeep _ Hr1).
    destruct r2 as [i2 o2]. simpl in *. congruence.
  - destruct (load_text_output _ _ _ _ Hout Hro H1) as (r1 & Hr1 & Ho1 & _).
    destruct (load_text_input _ _ _ _ Hin Hri H2) as (r2 & Hr2 & Hi2 & Hkeep).
    rewrite Hr2. rewrite <- Hid in Hr1. specialize (Hkeep _ Hr1).
    destruct r2 as [i2 o2]. simpl in *. congruence.
Qed.

End TextFiles.

(** ** Reading text *)

Lemma utf8_loop_strict_ignore n data s :
  codecs.utf8_loop n codecs.strict data = inr s →
  codecs.utf8_loop n codecs.ignore data = inr s.
Proof.
  revert data s. induction n as [|n IH]; intros [|x data] s;
    cbn [codecs.utf8_loop]; try done.
  destruct (codecs.utf8_step (x :: data)) as [c len|len]; [|done].
  destruct (codecs.utf8_loop n codecs.strict _) as [e|s'] eqn:Hs; [done|].
  by rewrite (IH _ _ Hs).
Qed.

(** X15: a file that decodes without error reads to the same text
    whether decoding errors are raised (as for JSON files) or ignored (as
    for plain-text files): ignoring errors changes nothing on valid
    UTF-8. *)
Theorem strict_text_is_ignore_text (w : World) (file_path text : ustring) :
  read_text w codecs.strict file_path = inr text →
  read_text w codecs.ignore file_path = inr text.
Proof.
  unfold read_text. destruct (fs_node w file_path) as [[data| |]|]; try done.
  unfold codecs.utf_8_decode.
  destruct (codecs.utf8_loop _ codecs.strict _) as [e|s] eqn:Hs; [done|].
  by rewrite (utf8_loop_strict_ignore _ _ _ Hs).
Qed.

Lemma translate_newlines_no_cr n : ∀ s,
  (length s <= n)%nat → chr_cr ∉ codecs.translate_newlines s.
Proof.
  induction n as [|n IH]; intros [|x s] Hlen; simpl in *;
    try apply not_elem_of_nil; try lia.
  destruct (N.eqb_spec x chr_cr) as [->|Hx].
  - destruct s as [|y s]; [by apply not_elem_of_cons; split; [|apply not_elem_of_nil]|].
    simpl in Hlen.
    destruct (y =? chr_newline); apply not_elem_of_cons; (split; [done|]);
      apply IH; simpl; lia.
  - apply not_elem_of_cons. split; [done|]. apply IH. lia.
Qed.

Lemma read_text_no_cr (w : World) mode q text :
  read_text w mode q = inr text → chr_cr ∉ text.
Proof.
  unfold read_text. destruct (fs_node w q) as [[data| |]|]; try done.
  destruct (codecs.utf_8_decode mode data) as [e|s]; [done|].
  intros [= <-]. by eapply translate_newlines_no_cr.
Qed.

(** Translation can be done in pieces, cut before a carriage return. *)
Lemma translate_newlines_app_cr n : ∀ a b,
  (length a <= n)%nat →
  codecs.translate_newlines (a ++ chr_cr :: b)
  = codecs.translate_newlines a ++ codecs.translate_newlines (chr_cr :: b).
Proof.
  induction n as [|n IH]; intros [|x a] b Hlen; simpl in Hlen; try done; try lia.
  cbn [app codecs.translate_newlines].
  destruct (N.eqb_spec x chr_cr) as [->|Hx].
  - destruct a as [|y a].
    + cbn [app]. by rewrite N.eqb_refl.
    + cbn [app]. destruct (y =? chr_newline).
      * cbn [app]. f_equal. apply IH. simpl in Hlen. lia.
      * cbn [app]. f_equal. apply (IH (y :: a)). simpl in *. lia.
  - cbn [app]. f_equal. apply IH. lia.
Qed.

Lemma translate_newlines_id a :
  chr_cr ∉ a → codecs.translate_newlines a = a.
Proof.
  induction a as [|x a IH]; [done|]. intros [Hx Ha]%not_elem_of_cons.
  cbn [codecs.translate_newlines].
  destruct (N.eqb_spec x chr_cr); [done|]. by rewrite IH.
Qed.

Section CleanText.
Context (w : World).

(** A record of two strings without carriage return. *)
Local Abbreviation clean r := (no_cr_field (input r) ∧ no_cr_field (output r)).

(** What a step of an import does to the fields of a record: a field is a
    string without carriage return, or the field the record had. *)
Local Abbreviation fields_from data k r' :=
  ((no_cr_field (input r') ∨ ∃ r, data !! k = Some r ∧ input r' = input r)
   ∧ (no_cr_field (output r') ∨ ∃ r, data !! k = Some r ∧ output r' = output r)).

Lemma no_cr_JStr s : chr_cr ∉ s → no_cr_field (JStr s).
Proof. intros Hs. by exists s. Qed.

Lemma sentinels_no_cr :
  (chr_cr ∉ output_not_found) ∧ (chr_cr ∉ input_not_found) ∧ (chr_cr ∉ @nil N).
Proof.
  split_and!; [| | apply not_elem_of_nil];
    apply (bool_decide_unpack _); vm_compute; exact I.
Qed.

Lemma load_text_new_record data p d1 :
  load_text_testpoints w data p = inr d1 →
  data !! unique_name_of w p = None →
  ∃ r, d1 = <[unique_name_of w p := r]> data ∧ clean r.
Proof.
  destruct sentinels_no_cr as (Hout & Hin & Hnil).
  unfold load_text_testpoints.
  destruct (read_text w codecs.ignore p) as [e|content] eqn:Hread; [done|].
  apply read_text_no_cr in Hread. intros H Hnone. rewrite Hnone in H.
  repeat case_match; try done; injection H as <-;
    rewrite dict_update_singleton; eexists; (split; [reflexivity|]);
    cbn [input output]; split; apply no_cr_JStr; try done;
    by eapply read_text_no_cr.
Qed.

Lemma load_text_fields data p d1 k r' :
  load_text_testpoints w data p = inr d1 → d1 !! k = Some r' →
  fields_from data k r'.
Proof.
  intros Hload Hk.
  destruct (decide (k = unique_name_of w p)) as [-> | Hne]; cycle 1.
  { destruct (load_text_key w _ _ _ Hload) as [_ Hother].
    rewrite Hother in Hk by done. split; right; by exists r'. }
  destruct (data !! unique_name_of w p) as [r|] eqn:Hold.
  - apply load_text_inr in Hload as (content & Hread & Hd1).
    rewrite Hold in Hd1. subst d1. rewrite lookup_insert_eq in Hk.
    injection Hk as <-. apply read_text_no_cr in Hread.
    unfold patch_record. repeat case_match; cbn [input output]; split;
      first [ left; by apply no_cr_JStr | right; by exists r ].
  - destruct (load_text_new_record _ _ _ Hload Hold) as (r & -> & Hr1 & Hr2).
    rewrite lookup_insert_eq in Hk. injection Hk as <-. by split; left.
Qed.

Lemma related_inputs_clean data dir_path dir_hash imap omap keys : ∀ pn nt pn' nt',
  related_inputs w data dir_path dir_hash imap omap keys pn nt = inr (pn', nt') →
  map_Forall (fun _ r => clean r) nt → map_Forall (fun _ r => clean r) nt'.
Proof.
  destruct sentinels_no_cr as (Hout & _ & _).
  induction keys as [|key keys IH]; intros pn nt pn' nt'; simpl.
  - by intros [= <- <-].
  - destruct (_ || _); [apply IH|].
    destruct (read_text w codecs.ignore (join dir_path _)) as [e|ic] eqn:Hi; [done|].
    apply read_text_no_cr in Hi.
    destruct (dict_lookup omap key) as [f|].
    + destruct (read_text w codecs.ignore (join dir_path f)) as [e|oc] eqn:Ho; [done|].
      apply read_text_no_cr in Ho. intros Hrec Hnt. eapply IH; [exact Hrec|].
      apply map_Forall_insert_2; [|done]. split; by apply no_cr_JStr.
    + intros Hrec Hnt. eapply IH; [exact Hrec|].
      apply map_Forall_insert_2; [|done]. split; by apply no_cr_JStr.
Qed.

Lemma related_outputs_clean data dir_path dir_hash imap omap keys pn : ∀ nt nt',
  related_outputs w data dir_path dir_hash imap omap keys pn nt = inr nt' →
  map_Forall (fun _ r => clean r) nt → map_Forall (fun _ r => clean r) nt'.
Proof.
  destruct sentinels_no_cr as (_ & Hin & _).
  induction keys as [|key keys IH]; intros nt nt'; simpl.
  - by intros [= <-].
  - destruct (_ || _); [apply IH|].
    destruct (bool_decide _); [apply IH|].
    destruct (read_text w codecs.ignore (join dir_path _)) as [e|oc] eqn:Ho; [done|].
    apply read_text_no_cr in Ho. intros Hrec Hnt. eapply IH; [exact Hrec|].
    apply map_Forall_insert_2; [|done]. split; by apply no_cr_JStr.
Qed.

Lemma find_related_fields data p d2 k r' :
  find_related_testpoints w data p = inr d2 → d2 !! k = Some r' →
  fields_from data k r'.
Proof.
  unfold find_related_testpoints.
  destruct (os_listdir w (dirname p)) as [e|files]; [done|]. cbv zeta.
  destruct (related_inputs _ _ _ _ _ _ _ _ _) as [e|[pn nt]] eqn:Hi; [done|].
  destruct (related_outputs _ _ _ _ _ _ _ _ _) as [e|nt'] eqn:Ho; [done|].
  intros [= <-]. apply related_inputs_clean in Hi; [|apply map_Forall_empty].
  apply (related_outputs_clean _ _ _ _ _ _ _ _ _ Ho) in Hi.
  unfold dict_update. intros [Hk | [_ Hk]]%lookup_union_Some_raw.
  - destruct (Hi k r' Hk). by split; left.
  - split; right; by exists r'.
Qed.

Lemma fields_from_trans (data d1 : gmap ustring testpoint) k r' :
  (∀ r1, d1 !! k = Some r1 → fields_from data k r1) →
  fields_from d1 k r' → fields_from data k r'.
Proof.
  intros H1 [Hin Hout]. split.
  - destruct Hin as [? | (r1 & Hr1 & ->)]; [by left|]. by destruct (H1 r1 Hr1).
  - destruct Hout as [? | (r1 & Hr1 & ->)]; [by left|]. by destruct (H1 r1 Hr1).
Qed.

End CleanText.

(** X16: text read from a file holds no carriage return: every carriage
    return followed by a line feed, and every other carriage return, is read
    as one line feed, and text without carriage return is read as it is.  So
    after the import of a file that is not a JSON file, each input and each
    output of the mapping is a string without carriage return (the content
    of a file, or a sentinel) or is the field the record had before the
    import. *)
Theorem text_has_no_carriage_return (w : World) (v : Viewer)
    (file_path k : ustring) (r' : testpoint) :
  lower_is_json (splitext file_path).2 = false →
  testpoint_data (select_file w v file_path).2 !! k = Some r' →
  (no_cr_field (input r')
   ∨ ∃ r, testpoint_data v !! k = Some r ∧ input r' = input r)
  ∧ (no_cr_field (output r')
     ∨ ∃ r, testpoint_data v !! k = Some r ∧ output r' = output r)
  ∧ (∀ mode q text, read_text w mode q = inr text → chr_cr ∉ text)
  ∧ (∀ a b, codecs.translate_newlines (a ++ chr_cr :: chr_newline :: b)
            = codecs.translate_newlines a ++ chr_newline :: codecs.translate_newlines b)
  ∧ (∀ a b, head b ≠ Some chr_newline →
            codecs.translate_newlines (a ++ chr_cr :: b)
            = codecs.translate_newlines a ++ chr_newline :: codecs.translate_newlines b)
  ∧ (∀ a, (chr_cr ∉ a) → codecs.translate_newlines a = a).
Proof.
  intros Hext Hk.
  assert ((no_cr_field (input r')
           ∨ ∃ r, testpoint_data v !! k = Some r ∧ input r' = input r)
          ∧ (no_cr_field (output r')
             ∨ ∃ r, testpoint_data v !! k = Some r ∧ output r' = output r))
    as [Hin Hout].
  { assert (∀ d1 r1, load_by_type w (testpoint_data v) file_path = inr d1 →
              d1 !! k = Some r1 →
              (no_cr_field (input r1)
               ∨ ∃ r, testpoint_data v !! k = Some r ∧ input r1 = input r)
              ∧ (no_cr_field (output r1)
                 ∨ ∃ r, testpoint_data v !! k = Some r ∧ output r1 = output r))
      as Hload.
    { unfold load_by_type. rewrite Hext. intros d1 r1. apply load_text_fields. }
    destruct (select_file_data w v file_path) as [Heq | (d1 & H1 & [Heq | H2])].
    - rewrite Heq in Hk. split; right; by exists r'.
    - rewrite Heq in Hk. by eapply Hload.
    - eapply fields_from_trans; [|by eapply find_related_fields].
      intros r1 Hr1. by eapply Hload. }
  split_and!; try done.
  - intros mode q text. apply read_text_no_cr.
  - intros a b. rewrite (translate_newlines_app_cr (length a)) by done.
    cbn [codecs.translate_newlines]. by rewrite !N.eqb_refl.
  - intros a b Hb. rewrite (translate_newlines_app_cr (length a)) by done.
    cbn [codecs.translate_newlines]. rewrite N.eqb_refl.
    destruct b as [|y b]; [done|].
    destruct (N.eqb_spec y chr_newline) as [->|_]; [by destruct Hb | done].
  - apply translate_newlines_id.
Qed.

(** ** Start-up *)

Lemma elem_of_sorted_keys (data : gmap ustring testpoint) k :
  k ∈ sorted_keys data ↔ is_Some (data !! k).
Proof.
  unfold sorted_keys, sorted. rewrite merge_sort_Permutation. split.
  - intros Hk. apply list_elem_of_fmap in Hk as ([k' r] & -> & H%elem_of_map_to_list).
    eauto.
  - intros [r Hr]. apply list_elem_of_fmap. exists (k, r). split; [done|].
    by apply elem_of_map_to_list.
Qed.

Lemma add_labels_elem names : ∀ listbox l,
  l ∈ add_labels names listbox ↔
  l ∈ listbox ∨ ∃ n, n ∈ names ∧ format_testpoint_name n = l.
Proof.
  induction names as [|n names IH]; intros listbox l; simpl.
  - split; [by left|]. intros [? | (n & Hn & _)]; [done|]. by apply elem_of_nil in Hn.
  - case_bool_decide as Hin; rewrite IH.
    + split.
      * intros [? | (m & ? & ?)]; [by left|]. right. exists m. split; [by right | done].
      * intros [? | (m & [-> | ?]%elem_of_cons & Hm)];
          [by left | left; by rewrite <- Hm | right; eauto].
    + rewrite elem_of_app, list_elem_of_singleton. split.
      * intros [[? | ->] | (m & ? & ?)];
          [by left | right; exists n; split; [left | done]
          | right; exists m; split; [by right | done]].
      * intros [? | (m & [-> | ?]%elem_of_cons & Hm)];
          [left; by left | left; by right | right; eauto].
Qed.

Lemma add_labels_NoDup names : ∀ listbox,
  NoDup listbox → NoDup (add_labels names listbox).
Proof.
  induction names as [|n names IH]; intros listbox Hnd; simpl; [done|].
  case_bool_decide as Hin; apply IH; [done|].
  apply NoDup_app. split_and!; [done | | apply NoDup_singleton].
  by intros x Hx ->%list_elem_of_singleton.
Qed.

Section Restart.
Context (w : World).

Lemma without_popup_keeps data listbox p k :
  is_Some (data !! k) →
  is_Some ((load_testpoint_without_popup w data listbox p).1 !! k).
Proof.
  intros Hk. unfold load_testpoint_without_popup.
  destruct (load_by_type w data p) as [e|d1] eqn:H1; [done|].
  pose proof (load_by_type_keeps w _ _ _ _ H1 Hk) as Hk1.
  destruct (find_related_testpoints w d1 p) as [e|d2] eqn:H2; [done|].
  by eapply find_related_keeps.
Qed.

Lemma without_popup_listed data listbox p :
  listed data listbox →
  listed (load_testpoint_without_popup w data listbox p).1
         (load_testpoint_without_popup w data listbox p).2.
Proof.
  intros [Hnd Hlab]. unfold listed.
  assert (∀ l, l ∈ listbox →
            ∃ k, is_Some ((load_testpoint_without_popup w data listbox p).1 !! k)
                 ∧ format_testpoint_name k = l) as Hold.
  { intros l (k & Hk & Hl)%Hlab. exists k. split; [|done].
    by apply without_popup_keeps. }
  revert Hold. unfold load_testpoint_without_popup.
  destruct (load_by_type w data p) as [e|d1]; [done|].
  destruct (find_related_testpoints w d1 p) as [e|d2]; [done|].
  cbn [fst snd]. intros Hold. split; [by apply add_labels_NoDup|].
  intros l [Hl | (n & Hn & Hl)]%add_labels_elem; [by apply Hold|].
  exists n. split; [|done]. by apply elem_of_sorted_keys.
Qed.

Lemma load_saved_loop_listed testpoint_paths : ∀ data cur listbox,
  listed data listbox →
  listed (load_saved_loop w testpoint_paths data cur listbox).1.1
         (load_saved_loop w testpoint_paths data cur listbox).2.
Proof.
  induction testpoint_paths as [|p rest IH]; intros data cur listbox Hl;
    cbn [load_saved_loop]; [done|].
  destruct (os_path_exists w p); [|by apply IH].
  pose proof (without_popup_listed data listbox p Hl) as Hl'.
  destruct (load_testpoint_without_popup w data listbox p) as [data' listbox'].
  by apply IH.
Qed.

(** X7: after start-up the rows of the list box are pairwise distinct
    and every row is the label of a record of the mapping, also when some of
    the remembered files could not be loaded. *)
Theorem startup_listbox_sound (v : Viewer) :
  NoDup (load_saved_testpoints w v).2
  ∧ ∀ l, l ∈ (load_saved_testpoints w v).2 →
      ∃ k, is_Some (testpoint_data (load_saved_testpoints w v).1 !! k)
           ∧ format_testpoint_name k = l.
Proof.
  unfold load_saved_testpoints.
  pose proof (load_saved_loop_listed (load_testpoint_paths w (testpoints_json v))
                ∅ (current_file v) []) as H.
  destruct (load_saved_loop w _ ∅ (current_file v) []) as [[data cur] listbox].
  apply H. split; [apply NoDup_nil_2|]. by intros l Hl%elem_of_nil.
Qed.

(** X8: when the loader and companion discovery both succeed, the
    popup-free load leaves the mapping they computed and every record of it
    can be reached from the list box: the label of each identifier is a
    row. *)
Theorem silent_load_lists_every_record (data : gmap ustring testpoint)
    (listbox : list ustring) (file_path : ustring)
    (data1 data2 : gmap ustring testpoint) :
  load_by_type w data file_path = inr data1 →
  find_related_testpoints w data1 file_path = inr data2 →
  (load_testpoint_without_popup w data listbox file_path).1 = data2
  ∧ ∀ k, is_Some (data2 !! k) →
      format_testpoint_name k
      ∈ (load_testpoint_without_popup w data listbox file_path).2.
Proof.
  intros H1 H2. unfold load_testpoint_without_popup. rewrite H1, H2.
  split; [done|]. intros k Hk. cbn [snd]. apply add_labels_elem. right.
  exists k. split; [|done]. by apply elem_of_sorted_keys.
Qed.

(** *** The remembered paths *)

Lemma load_testpoint_paths_fixed l :
  Forall (fun p => os_path_exists w p = true ∧ normpath p = p) l →
  load_testpoint_paths w l = l.
Proof.
  induction 1 as [|p l [Hex Hfix] _ IH]; simpl; [done|].
  by rewrite Hfix, Hex, IH.
Qed.

Lemma save_testpoint_paths_in paths p :
  p ∈ save_testpoint_paths w paths → p ∈ paths ∧ os_path_exists w p = true.
Proof.
  intros (i & Hi & Hex & _)%save_testpoint_paths_elem.
  split; [by eapply list_elem_of_lookup_2 | done].
Qed.

(** X10: a saved path list is read back as it was written, provided its
    paths are in normal form: every saved path exists, so reading drops
    none. *)
Theorem saved_paths_reload (testpoint_paths : list ustring) :
  Forall (fun p => normpath p = p) testpoint_paths →
  load_testpoint_paths w (save_testpoint_paths w testpoint_paths)
  = save_testpoint_paths w testpoint_paths.
Proof.
  intros Hfix. apply load_testpoint_paths_fixed, Forall_forall.
  intros p [Hp Hex]%save_testpoint_paths_in. split; [done|].
  rewrite Forall_forall in Hfix. by apply Hfix.
Qed.

Section PathsIn.
Context (S : ustring → Prop).
Hypothesis S_normpath : ∀ q, S q → S (normpath q).

Lemma load_testpoint_paths_in l :
  Forall S l → Forall S (load_testpoint_paths w l).
Proof.
  rewrite !Forall_forall. intros Hl p (_ & q & Hq & ->)%load_testpoint_paths_elem.
  auto.
Qed.

Lemma save_testpoint_paths_Forall l :
  Forall S l → Forall S (save_testpoint_paths w l).
Proof.
  rewrite !Forall_forall. intros Hl p [Hp _]%save_testpoint_paths_in. auto.
Qed.

Lemma save_testpoints_data_in v :
  Forall S (testpoints_json v) → (∀ c, current_file v = Some c → S c) →
  Forall S (testpoints_json (save_testpoints_data w v)).
Proof.
  intros Hj Hc. unfold save_testpoints_data. cbn [testpoints_json].
  rewrite save_unique_paths. apply save_testpoint_paths_Forall.
  pose proof (load_testpoint_paths_in _ Hj) as Hl.
  destruct (current_file v) as [c|]; [|done].
  destruct (_ && _); [|done].
  apply Forall_app. split; [done|]. apply Forall_singleton. by apply Hc.
Qed.

Lemma load_testpoints_json_in v p :
  Forall S (testpoints_json v) → S p → (∀ c, current_file v = Some c → S c) →
  Forall S (testpoints_json (load_testpoints w v p).2).
Proof.
  intros Hj Hp Hc. unfold load_testpoints. case_bool_decide; [done|].
  set (stored := if negb _ then _ else _).
  assert (Forall S stored) as Hstored.
  { unfold stored. destruct (negb _); [|done].
    apply save_testpoint_paths_Forall, Forall_app. split.
    - by apply load_testpoint_paths_in.
    - by apply Forall_singleton. }
  destruct (load_by_type w (testpoint_data v) p) as [e|d1]; [done|].
  destruct (find_related_testpoints w d1 p) as [e|d2]; [done|].
  case_bool_decide; [done|]. cbn [snd].
  by apply save_testpoints_data_in.
Qed.

End PathsIn.

(** On a path that is not listed, the import and the popup-free load do the
    same to the mapping. *)
Lemma load_testpoints_fresh_data v p listbox :
  p ∉ load_testpoint_paths w (testpoints_json v) →
  testpoint_data (load_testpoints w v p).2
  = (load_testpoint_without_popup w (testpoint_data v) listbox p).1.
Proof.
  intros Hp. unfold load_testpoints, load_testpoint_without_popup.
  rewrite bool_decide_eq_false_2 by done.
  destruct (load_by_type w (testpoint_data v) p) as [e|d1]; [done|].
  destruct (find_related_testpoints w d1 p) as [e|d2]; [done|].
  by case_bool_decide.
Qed.

Lemma restart_loop testpoint_paths : ∀ data cur listbox v,
  NoDup testpoint_paths →
  Forall (fun p => os_path_exists w p = true ∧ normpath p = p) testpoint_paths →
  testpoint_data v = data →
  Forall (fun q => (q ∉ testpoint_paths) ∧ normpath q = q) (testpoints_json v) →
  (load_saved_loop w testpoint_paths data cur listbox).1.1
  = testpoint_data (import_all w v testpoint_paths).
Proof.
  induction testpoint_paths as [|p rest IH]; intros data cur listbox v Hnd Hall Hdata Hjson.
  - by rewrite <- Hdata.
  - apply NoDup_cons in Hnd as [Hp Hnd]. apply Forall_cons in Hall as [[Hex Hfix] Hall].
    cbn [load_saved_loop]. rewrite Hex.
    assert (p ≠ []) as Hne by (intros ->; discriminate Hfix).
    unfold import_all. cbn [fold_left].
    change (fold_left _ rest ?v0) with (import_all w v0 rest).
    destruct p as [|x p']; [done|]. unfold select_file. cbn [snd].
    set (p := x :: p') in *.
    set (v' := {| testpoint_data := testpoint_data v;
                  current_file := Some p;
                  testpoints_json := testpoints_json v |}).
    assert (p ∉ load_testpoint_paths w (testpoints_json v')) as Hfresh.
    { intros Hin.
      assert (Forall (fun q => (q ∉ p :: rest) ∧ normpath q = q)
                (load_testpoint_paths w (testpoints_json v))) as Hl.
      { apply load_testpoint_paths_in; [|done]. intros q [? Hq]. by rewrite !Hq. }
      rewrite Forall_forall in Hl. destruct (Hl p Hin) as [Hn _].
      apply Hn. left. }
    pose proof (load_testpoints_fresh_data v' p listbox Hfresh) as Hsame.
    change (testpoint_data v') with (testpoint_data v) in Hsame.
    rewrite Hdata in Hsame.
    destruct (load_testpoint_without_popup w data listbox p) as [data' listbox'].
    apply IH; [done | done | done |].
    apply (load_testpoints_json_in (fun q => (q ∉ rest) ∧ normpath q = q)).
    + intros q [? Hq]. by rewrite !Hq.
    + cbn [testpoints_json]. eapply Forall_impl; [exact Hjson|].
      intros q [Hq ?]. split; [|done]. intros Hin. apply Hq. by right.
    + done.
    + intros c [= <-]. done.
Qed.

(** X9: start-up rebuilds the mapping that importing the remembered
    paths one after the other into an empty viewer gives, provided the
    remembered paths are pairwise distinct and in normal form. *)
Theorem startup_rebuilds_mapping (v : Viewer) :
  NoDup (load_testpoint_paths w (testpoints_json v)) →
  Forall (fun p => normpath p = p) (load_testpoint_paths w (testpoints_json v)) →
  testpoint_data (load_saved_testpoints w v).1
  = testpoint_data
      (import_all w empty_viewer (load_testpoint_paths w (testpoints_json v))).
Proof.
  intros Hnd Hfix. unfold load_saved_testpoints.
  pose proof (restart_loop (load_testpoint_paths w (testpoints_json v))
                ∅ (current_file v) [] empty_viewer Hnd) as H.
  destruct (load_saved_loop w _ ∅ (current_file v) []) as [[data cur] listbox].
  apply H; [|done|by apply Forall_nil].
  apply Forall_forall. intros p Hp. split.
  - by apply load_testpoint_paths_elem in Hp as [? _].
  - rewrite Forall_forall in Hfix. by apply Hfix.
Qed.

End Restart.

(** ** Companion discovery and the two name patterns *)

(** X17: companion discovery adds at most one record, the one of the
    imported file's own identifier, and only when the mapping has no record
    under that identifier; every other record stays as it was. *)
Theorem companion_discovery_adds_at_most_one (w : World)
    (data data' : gmap ustring testpoint) (file_path : ustring) :
  find_related_testpoints w data file_path = inr data' →
  data' = data
  ∨ (data !! unique_name_of w file_path = None
     ∧ ∃ r, data' = <[unique_name_of w file_path := r]> data).
Proof. apply find_related_inr. Qed.

(** X18: no file name is taken both for an input file and for an output
    file: the two patterns of the plain-text loader and of companion
    discovery exclude each other. *)
Theorem name_patterns_exclusive (name : ustring) :
  is_input_name name && is_output_name name = false.
Proof.
  destruct (is_input_name name) eqn:Hin; [|done].
  by rewrite (input_name_not_output _ Hin).
Qed.

(** ** The further properties on the sample environments *)

(** Importing [d/x.in] leaves the record under [578_foo] alone. *)
Lemma text_import_frame_witness :
  testpoint_data (select_file (session 0) viewer_with_half_record (u "d/x.in")).2
    !! u "578_foo"
  = testpoint_data viewer_with_half_record !! u "578_foo".
Proof.
  apply (text_import_frame (session 0) viewer_with_half_record (u "d/x.in")
           (u "578_foo")); by_computation.
Defined.

(** So does importing [j/list.json]. *)
Lemma json_import_frame_witness :
  testpoint_data (select_file (session 0) viewer_with_half_record (u "j/list.json")).2
    !! u "578_foo"
  = testpoint_data viewer_with_half_record !! u "578_foo".
Proof.
  apply (json_import_frame (session 0) viewer_with_half_record (u "j/list.json")
           (u "578_foo")); by_computation.
Defined.

(** The two test cases of [two_cases] give two records. *)
Lemma test_cases_witness :
  ∃ new_testpoints,
    json_new_testpoints (session 0) (u "j/two.json")
      (JObj [(u "testCases", JArr two_cases)]) = inr new_testpoints
    ∧ size new_testpoints = length two_cases
    ∧ ∀ (n : nat) c, two_cases !! n = Some c →
        ∃ r, record_of c = inr r
             ∧ new_testpoints
                 !! test_case_name (basename (u "j/two.json")) (N.of_nat n)
               = Some r.
Proof.
  apply (test_cases_one_record_each (session 0) (u "j/two.json")
           [(u "testCases", JArr two_cases)] two_cases); by_computation.
Defined.

(** The first test case of [j/cases.json] is shown as [cases]. *)
Lemma json_label_witness :
  format_testpoint_name
    (prefixed_name (basename (u "j/cases.json")) (testpoint_prefix ++ u "1"))
  = format_testpoint_name (basename (u "j/cases.json")).
Proof.
  apply (json_records_share_label (u "j/cases.json") (testpoint_prefix ++ u "1"));
    by_computation.
Defined.

(** The identifier [578_P1001] is shown as [P1001_第1001个测试点]. *)
Lemma problem_number_label_witness :
  format_testpoint_name (u "578_" ++ 80 :: u "1001")
  = 80 :: u "1001" ++ label_infix ++ u "1001" ++ label_suffix.
Proof.
  apply (problem_number_label (u "578_") (u "1001")); by_computation.
Defined.

(** The popup-free load of [d/x.in] into an empty mapping. *)
Lemma silent_load_witness :
  (load_testpoint_without_popup (session 0) ∅ [] (u "d/x.in")).1
  = <[unique_name_of (session 0) (u "d/x.in") :=
        Testpoint (JStr (u "1 2" ++ [chr_newline])) (JStr (u "3" ++ [chr_newline]))]> ∅
  ∧ ∀ k, is_Some ((<[unique_name_of (session 0) (u "d/x.in") :=
                       Testpoint (JStr (u "1 2" ++ [chr_newline]))
                                 (JStr (u "3" ++ [chr_newline]))]> ∅
                   : gmap ustring testpoint) !! k) →
      format_testpoint_name k
      ∈ (load_testpoint_without_popup (session 0) ∅ [] (u "d/x.in")).2.
Proof.
  apply (silent_load_lists_every_record (session 0) ∅ [] (u "d/x.in")
           (<[unique_name_of (session 0) (u "d/x.in") :=
                Testpoint (JStr (u "1 2" ++ [chr_newline]))
                          (JStr (u "3" ++ [chr_newline]))]> ∅));
    by_computation.
Defined.

(** Start-up with three remembered sample files. *)
Lemma startup_rebuilds_witness :
  testpoint_data (load_saved_testpoints (session 0) viewer_remembering).1
  = testpoint_data
      (import_all (session 0) empty_viewer
         (load_testpoint_paths (session 0) (testpoints_json viewer_remembering))).
Proof.
  apply (startup_rebuilds_mapping (session 0) viewer_remembering); by_computation.
Defined.

(** A list with two paths of one base name: what is saved is read back. *)
Lemma saved_paths_reload_witness :
  load_testpoint_paths (session 0)
    (save_testpoint_paths (session 0) [u "d/x.in"; u "d/x.out"; u "a/foo.in"])
  = save_testpoint_paths (session 0) [u "d/x.in"; u "d/x.out"; u "a/foo.in"].
Proof.
  apply (saved_paths_reload (session 0) [u "d/x.in"; u "d/x.out"; u "a/foo.in"]);
    by_computation.
Defined.


(** A record whose output holds a lone surrogate, as a [\ud800] escape of a
    JSON file gives it, makes the export fail. *)
Example export_fails_on_lone_surrogate :
  export_testpoints_to_json
    [(u "578_foo", Testpoint (JStr (u "5")) (JStr [0xD800]))] = ExportFailed.
Proof. reflexivity. Qed.

(** The three cases on the sample files: [x.out] has [x.in], [z.ans] has
    [z.input] only, [foo.out] in the directory [b] has neither. *)
Lemma output_file_import_witness :
  load_text_testpoints (session 0) ∅ (u "d/x.out")
  = inr (<[unique_name_of (session 0) (u "d/x.out") :=
             Testpoint (JStr (u "1 2" ++ [chr_newline])) (JStr (u "3" ++ [chr_newline]))]> ∅)
  ∧ load_text_testpoints (session 0) ∅ (u "d/z.ans")
    = inr (<[unique_name_of (session 0) (u "d/z.ans") :=
               Testpoint (JStr (u "8" ++ [chr_newline])) (JStr (u "64" ++ [chr_newline]))]> ∅)
  ∧ load_text_testpoints (session 0) ∅ (u "b/foo.out")
    = inr (<[unique_name_of (session 0) (u "b/foo.out") :=
               Testpoint (JStr input_not_found) (JStr (u "25" ++ [chr_newline]))]> ∅).
Proof.
  split_and!.
  - refine (proj1 (output_file_import (session 0) ∅ (u "d/x.out") (u "d/x") (u ".out")
                     (u "3" ++ [chr_newline]) _ _ _ _ _) _ _ _);
      by_computation.
  - refine (proj1 (proj2 (output_file_import (session 0) ∅ (u "d/z.ans") (u "d/z")
                            (u ".ans") (u "64" ++ [chr_newline]) _ _ _ _ _)) _ _ _ _);
      by_computation.
  - refine (proj2 (proj2 (output_file_import (session 0) ∅ (u "b/foo.out") (u "b/foo")
                            (u ".out") (u "25" ++ [chr_newline]) _ _ _ _ _)) _ _);
      by_computation.
Defined.

(** [d/x.out] has the identifier made from [d] and [x]. *)
Lemma identifier_ignores_extension_witness :
  unique_name_of (session 0) (u "d/x" ++ u ".out")
  = dir_hash_of (session 0) (dirname (u "d/x")) ++ chr_underscore :: basename (u "d/x").
Proof.
  apply (identifier_ignores_extension (session 0) (u "d/x") (u ".out")).
  - exists (u "out"). split_and!; by_computation.
  - by_computation.
Defined.

(** [d/x.in] and [d/x.out], in either order. *)
Lemma input_and_output_merge_witness :
  (∀ d1 d2,
     load_text_testpoints (session 0) ∅ (u "d/x.in") = inr d1 →
     load_text_testpoints (session 0) d1 (u "d/x.out") = inr d2 →
     d2 !! unique_name_of (session 0) (u "d/x.in")
     = Some (Testpoint (JStr (u "1 2" ++ [chr_newline])) (JStr (u "3" ++ [chr_newline]))))
  ∧ (∀ d1 d2,
       load_text_testpoints (session 0) ∅ (u "d/x.out") = inr d1 →
       load_text_testpoints (session 0) d1 (u "d/x.in") = inr d2 →
       d2 !! unique_name_of (session 0) (u "d/x.in")
       = Some (Testpoint (JStr (u "1 2" ++ [chr_newline])) (JStr (u "3" ++ [chr_newline])))).
Proof.
  apply (input_and_output_merge (session 0) ∅ (u "d/x.in") (u "d/x.out"));
    by_computation.
Defined.

(** [a/foo.in] decodes without error. *)
Lemma strict_text_witness :
  read_text (session 0) codecs.ignore (u "a/foo.in") = inr (u "5" ++ [chr_newline]).
Proof.
  apply (strict_text_is_ignore_text (session 0) (u "a/foo.in")); by_computation.
Defined.

(** The files [c/w.in] and [c/w.out] are written with carriage returns:
    the record made of them has none. *)
Lemma no_carriage_return_witness :
  read_text lab_session codecs.ignore (u "c/w.in")
  = inr (u "1 2" ++ [chr_newline] ++ u "3" ++ [chr_newline])
  ∧ (no_cr_field (JStr (u "1 2" ++ [chr_newline] ++ u "3" ++ [chr_newline]))
     ∨ ∃ r, testpoint_data empty_viewer !! u "1838_w" = Some r
            ∧ JStr (u "1 2" ++ [chr_newline] ++ u "3" ++ [chr_newline]) = input r)
  ∧ (no_cr_field (JStr (u "4" ++ [chr_newline]))
     ∨ ∃ r, testpoint_data empty_viewer !! u "1838_w" = Some r
            ∧ JStr (u "4" ++ [chr_newline]) = output r).
Proof.
  split; [by_computation|].
  destruct (text_has_no_carriage_return lab_session empty_viewer (u "c/w.in")
              (u "1838_w")
              (Testpoint (JStr (u "1 2" ++ [chr_newline] ++ u "3" ++ [chr_newline]))
                         (JStr (u "4" ++ [chr_newline]))))
    as (Hin & Hout & _); [by_computation ..|].
  by split.
Defined.

(** Companion discovery after [d/z.ans] was asked for, on an empty
    mapping: the record of [z] is added. *)
Lemma companion_discovery_witness :
  (<[unique_name_of (session 0) (u "d/z.ans") :=
       Testpoint (JStr (u "8" ++ [chr_newline])) (JStr (u "64" ++ [chr_newline]))]> ∅
   : gmap ustring testpoint) = ∅
  ∨ ((∅ : gmap ustring testpoint) !! unique_name_of (session 0) (u "d/z.ans") = None
     ∧ ∃ r, (<[unique_name_of (session 0) (u "d/z.ans") :=
                 Testpoint (JStr (u "8" ++ [chr_newline]))
                           (JStr (u "64" ++ [chr_newline]))]> ∅
             : gmap ustring testpoint)
            = <[unique_name_of (session 0) (u "d/z.ans") := r]> ∅).
Proof.
  apply (companion_discovery_adds_at_most_one (session 0) ∅ _ (u "d/z.ans")).
  by_computation.
Defined.

(** ** Opening and closing *)

Section Session.
Context (w : World).

Lemma load_saved_loop_cur testpoint_paths : ∀ data cur listbox,
  Forall (fun p => os_path_exists w p = true) testpoint_paths →
  (load_saved_loop w testpoint_paths data cur listbox).1.2
  = match last testpoint_paths with
    | Some p => Some p
    | None => cur
    end.
Proof.
  induction testpoint_paths as [|p rest IH]; intros data cur listbox Hex; [done|].
  apply Forall_cons in Hex as [Hp Hrest]. cbn [load_saved_loop]. rewrite Hp.
  destruct (load_testpoint_without_popup w data listbox p) as [data' listbox'].
  rewrite IH by done. destruct rest as [|q rest]; [done|].
  rewrite last_cons_cons. destruct (last (q :: rest)) eqn:Hl; [done|].
  by apply last_None in Hl.
Qed.

(** X19: starting the program on a path list that [save_testpoint_paths]
    wrote, with paths in normal form, and closing it without importing
    anything writes the same path list again. *)
Theorem open_close_keeps_path_list (testpoint_paths : list ustring) :
  Forall (fun p => normpath p = p) testpoint_paths →
  testpoints_json
    (on_closing w (start_up w (save_testpoint_paths w testpoint_paths)).1)
  = save_testpoint_paths w testpoint_paths.
Proof.
  intros Hfix. set (stored := save_testpoint_paths w testpoint_paths).
  assert (Forall (fun p => os_path_exists w p = true ∧ normpath p = p) stored) as Hs.
  { apply Forall_forall. intros p [Hp Hex]%save_testpoint_paths_in. split; [done|].
    rewrite Forall_forall in Hfix. by apply Hfix. }
  pose proof (load_testpoint_paths_fixed w stored Hs) as Hload.
  unfold on_closing, start_up, load_saved_testpoints. cbn [testpoints_json current_file].
  rewrite Hload.
  pose proof (load_saved_loop_cur stored ∅ None []) as Hcur.
  destruct (load_saved_loop w stored ∅ None []) as [[data cur] listbox].
  cbn [fst snd] in Hcur.
  rewrite Hcur by (eapply Forall_impl; [exact Hs|]; by intros p [? _]).
  unfold save_testpoints_data. cbn [testpoints_json current_file fst]. rewrite Hload.
  rewrite save_unique_paths.
  assert (∀ l, l = stored → save_testpoint_paths w l = stored) as Hsame.
  { intros l ->. unfold stored. by rewrite save_testpoint_paths_idem. }
  apply Hsame. destruct (last stored) as [p|] eqn:Hlast; [|done].
  rewrite (bool_decide_eq_true_2 (p ∈ stored)).
  - by rewrite andb_false_r.
  - by eapply last_Some_elem_of.
Qed.

End Session.

(** ** Deleting testpoints *)

Lemma dict_lookup_del {V} (m : list (ustring * V)) key k :
  k ≠ key → dict_lookup (dict_del m key) k = dict_lookup m k.
Proof.
  intros Hk. induction m as [|[k' v] m IH]; simpl; [done|].
  case_bool_decide as Hkey; simpl.
  - subst k'. by rewrite bool_decide_eq_false_2 by done.
  - by rewrite IH.
Qed.

Lemma find_label_Some data display_name tp_name :
  find_label data display_name = Some tp_name →
  format_testpoint_name tp_name = display_name ∧ tp_name ∈ data.*1.
Proof.
  induction data as [|[k r] data IH]; simpl; [done|].
  case_bool_decide as Hk.
  - intros [= <-]. split; [done | left].
  - intros [? ?]%IH. split; [done | by right].
Qed.

Lemma length_dict_del {V} (m : list (ustring * V)) key :
  key ∈ m.*1 → length m = S (length (dict_del m key)).
Proof.
  induction m as [|[k v] m IH]; simpl; [by intros ?%elem_of_nil|].
  case_bool_decide as Hk; [done|].
  intros [? | Hin]%elem_of_cons; [done|]. simpl. by rewrite <- IH.
Qed.

Lemma delete_loop_spec listbox indices : ∀ data to_delete,
  ∃ removed,
    (delete_loop indices listbox data to_delete).2 = to_delete ++ removed
    ∧ removed `sublist_of` indices
    ∧ length data
      = (length (delete_loop indices listbox data to_delete).1 + length removed)%nat
    ∧ ∀ k, (∀ i, i ∈ indices → listbox_get listbox i ≠ format_testpoint_name k) →
           dict_lookup (delete_loop indices listbox data to_delete).1 k
           = dict_lookup data k.
Proof.
  induction indices as [|index rest IH]; intros data to_delete; cbn [delete_loop].
  - exists []. rewrite app_nil_r. split_and!; auto; simpl; lia.
  - destruct (find_label data (listbox_get listbox index)) as [tp_name|] eqn:Hfind.
    + apply find_label_Some in Hfind as [Hlabel Hin].
      destruct (IH (dict_del data tp_name) (to_delete ++ [index]))
        as (removed & Heq & Hsub & Hlen & Hframe).
      exists (index :: removed). split_and!.
      * by rewrite Heq, <- app_assoc.
      * by apply sublist_skip.
      * rewrite (length_dict_del _ _ Hin), Hlen. simpl. lia.
      * intros k Hk. rewrite Hframe by (intros i Hi; apply Hk; by right).
        apply dict_lookup_del. intros ->. apply (Hk index); [left | done].
    + destruct (IH data to_delete) as (removed & Heq & Hsub & Hlen & Hframe).
      exists removed. split_and!; auto.
      * by apply sublist_cons.
      * intros k Hk. apply Hframe. intros i Hi. apply Hk. by right.
Qed.

(** X20: deleting rows touches only records whose label is the label of
    a selected row: an identifier whose label no selected row shows keeps its
    record. *)
Theorem delete_keeps_other_labels (data : list (ustring * testpoint))
    (listbox : list ustring) (selection : list nat) (k : ustring) :
  (∀ i, i ∈ selection → listbox_get listbox i ≠ format_testpoint_name k) →
  dict_lookup (delete_selected_testpoints data listbox selection).1 k
  = dict_lookup data k.
Proof.
  intros Hk. unfold delete_selected_testpoints.
  destruct (delete_loop_spec listbox (sorted_reverse selection) data [])
    as (removed & _ & _ & _ & Hframe).
  destruct (delete_loop (sorted_reverse selection) listbox data []) as [data' to_delete].
  apply Hframe. intros i Hi. apply Hk.
  unfold sorted_reverse in Hi. by rewrite merge_sort_Permutation in Hi.
Qed.

(** Pairwise distinct indices sorted in reverse are strictly decreasing. *)
Lemma sorted_reverse_decreasing selection :
  NoDup selection → StronglySorted gt (sorted_reverse selection).
Proof.
  intros Hnd. unfold sorted_reverse.
  assert (NoDup (merge_sort ge selection)) as Hnd'
    by by rewrite merge_sort_Permutation.
  pose proof (StronglySorted_merge_sort ge selection) as Hs.
  induction Hs as [|x l Hs IH Hall]; [constructor|].
  apply NoDup_cons in Hnd' as [Hx Hnd']. constructor; [by apply IH|].
  rewrite Forall_forall in *. intros y Hy. specialize (Hall y Hy).
  assert (x ≠ y) by (by intros ->). unfold ge, gt in *. lia.
Qed.

Lemma sublist_decreasing l1 l2 :
  l1 `sublist_of` l2 → StronglySorted gt l2 → StronglySorted gt l1.
Proof.
  induction 1 as [|x l1 l2 Hsub IH|x l1 l2 Hsub IH]; intros Hs; [constructor| |].
  - apply StronglySorted_inv in Hs as [Hs Hall]. constructor; [by apply IH|].
    rewrite Forall_forall in *. intros y Hy. apply Hall.
    by eapply elem_of_sublist.
  - apply StronglySorted_inv in Hs as [Hs _]. by apply IH.
Qed.

(** Deleting strictly decreasing, valid indices removes one row each. *)
Lemma length_delete_rows to_delete : ∀ listbox : list ustring,
  StronglySorted gt to_delete →
  Forall (fun i => (i < length listbox)%nat) to_delete →
  length listbox
  = (length (fold_left (fun rows index => delete index rows) to_delete listbox)
     + length to_delete)%nat.
Proof.
  induction to_delete as [|i rest IH]; intros listbox Hs Hvalid; cbn [fold_left].
  - simpl. lia.
  - apply StronglySorted_inv in Hs as [Hs Hall].
    apply Forall_cons in Hvalid as [Hi Hvalid].
    assert (length (delete i listbox) = (length listbox - 1)%nat) as Hlen.
    { apply length_delete. by apply lookup_lt_is_Some. }
    assert (Forall (fun j => (j < length (delete i listbox))%nat) rest) as Hvalid'.
    { rewrite Forall_forall in *. intros j Hj. specialize (Hall j Hj).
      unfold gt in Hall. lia. }
    pose proof (IH (delete i listbox) Hs Hvalid') as Heq. simpl. lia.
Qed.

(** X21: for a selection of pairwise distinct rows of the list box, as
    many rows disappear from the list box as records from the mapping, and
    at most one of each per selected row. *)
Theorem delete_rows_and_records (data : list (ustring * testpoint))
    (listbox : list ustring) (selection : list nat) :
  NoDup selection →
  Forall (fun i => (i < length listbox)%nat) selection →
  ∃ n : nat,
    (n <= length selection)%nat
    ∧ length data
      = (length (delete_selected_testpoints data listbox selection).1 + n)%nat
    ∧ length listbox
      = (length (delete_selected_testpoints data listbox selection).2 + n)%nat.
Proof.
  intros Hnd Hvalid. unfold delete_selected_testpoints.
  destruct (delete_loop_spec listbox (sorted_reverse selection) data [])
    as (removed & Heq & Hsub & Hlen & _).
  destruct (delete_loop (sorted_reverse selection) listbox data []) as [data' to_delete].
  cbn [fst snd] in *. subst to_delete. exists (length removed). split_and!.
  - apply sublist_length in Hsub. unfold sorted_reverse in Hsub.
    by rewrite merge_sort_Permutation in Hsub.
  - done.
  - apply length_delete_rows.
    + eapply sublist_decreasing; [done|]. by apply sorted_reverse_decreasing.
    + rewrite Forall_forall in *. intros i Hi. apply Hvalid.
      apply (fun H => elem_of_sublist _ _ _ H Hsub) in Hi. unfold sorted_reverse in Hi.
      by rewrite merge_sort_Permutation in Hi.
Qed.

(** A saved list of three sample paths, opened and closed. *)
Lemma open_close_witness :
  testpoints_json
    (on_closing (session 0)
       (start_up (session 0)
          (save_testpoint_paths (session 0) [u "d/x.in"; u "d/x.out"; u "a/foo.in"])).1)
  = save_testpoint_paths (session 0) [u "d/x.in"; u "d/x.out"; u "a/foo.in"].
Proof.
  apply (open_close_keeps_path_list (session 0)
           [u "d/x.in"; u "d/x.out"; u "a/foo.in"]); by_computation.
Defined.

(** Deleting the row [cases] leaves the record of [578_foo] alone. *)
Lemma delete_keeps_witness :
  dict_lookup (delete_selected_testpoints sample_items sample_rows [1%nat]).1
    (u "578_foo")
  = dict_lookup sample_items (u "578_foo").
Proof.
  apply (delete_keeps_other_labels sample_items sample_rows [1%nat] (u "578_foo")).
  intros i ->%list_elem_of_singleton. by_computation.
Defined.

(** Deleting two of the three sample rows. *)
Lemma delete_rows_witness :
  ∃ n : nat,
    (n <= length [2%nat; 0%nat])%nat
    ∧ length sample_items
      = (length (delete_selected_testpoints sample_items sample_rows [2%nat; 0%nat]).1
         + n)%nat
    ∧ length sample_rows
      = (length (delete_selected_testpoints sample_items sample_rows [2%nat; 0%nat]).2
         + n)%nat.
Proof.
  apply (delete_rows_and_records sample_items sample_rows [2%nat; 0%nat]);
    by_computation.
Defined.
